(** * Webtoon translator editor: history, gestures, links and font sizing

    A shallow embedding of [src/components/MangaEditor.tsx],
    [src/services/geminiService.ts] and the type declarations of the editor.

    Conventions of the embedding.
    - A JavaScript [number] that holds a coordinate or a size is an exact real
      ([R]); rounding of IEEE doubles, [NaN] and infinities are not modelled
      there.  The pointer arithmetic is given a second time in binary64
      (module [Doubles]), where a statement depends on the rounding.
      A [number] that is an index or a length is a [nat].
    - A React state cell is a field of [EditorState]; an event handler is a
      function from the state of the render it closes over to the state of
      the next render (all its [setX] calls applied in order).
    - A handler that awaits a collaborator takes the collaborator's outcome
      as an argument and is one step from the state it was called in; the
      continuation of [handleMouseUp], which commits with the history index
      of the render that started it, is a step of its own
      ([regionResolved], [regionFailed]).
    - An optional field [f?: T] is [option T]; [undefined] and [null] are
      [None].
    - [Record<string, T>] used as a dictionary is a [gmap string T];
      a [Set<string>] that is only tested for membership is a [gset string];
      a [Set<string>] that is iterated is an insertion-ordered list without
      duplicates.  Bubble ids are generated strings ([auto-<i>-<ms>] or a
      decimal timestamp), so they never collide with a property of
      [Object.prototype]. *)

From Stdlib Require Import Reals Lra.
From stdpp Require Import gmap strings list pretty.
From Corelib Require PrimFloat.

(** ** Data model (type declarations) *)

Record BoundingBox := {
  ymin : R;
  xmin : R;
  ymax : R;
  xmax : R
}.

Inductive Shape := rectangle | ellipse.

Record TextBubble := {
  bubble_id : string;                (* id *)
  text : string;
  originalText : option string;
  box : BoundingBox;
  isManual : option bool;
  textColor : option string;
  backgroundColor : option string;
  shape : option Shape;
  fontSizeScale : option R;
  fontFamily : option string
}.

Record Point := { pt_x : R; pt_y : R }.

Inductive Tool := select | draw | pan | tree.

#[global] Instance Tool_eq_dec : EqDecision Tool.
Proof. solve_decision. Defined.

#[global] Instance Shape_eq_dec : EqDecision Shape.
Proof. solve_decision. Defined.

(** Comparisons of numbers used as conditions. *)
#[global] Instance Rle_decision : RelDecision Rle := Rle_dec.
#[global] Instance Rlt_decision : RelDecision Rlt := Rlt_dec.
#[global] Instance Rge_decision : RelDecision Rge := Rge_dec.
#[global] Instance Rgt_decision : RelDecision Rgt := Rgt_dec.
#[global] Instance Req_decision : EqDecision R := Req_dec_T.

(** Truthiness of a [string | null] value: [null] and the empty string are
    falsy. *)
Definition truthy (o : option string) : bool :=
  match o with
  | Some s => negb (String.eqb s "")
  | None => false
  end.

(** ** Component state

    The [useState] cells of the component, grouped as the source groups
    them: history and store, viewport, editing session, selection and
    gesture, links.  [bubbles] is the entity store; [history] and
    [historyIndex] are the history manager. *)

Record Viewport := {
  scale : R;
  offset : Point;
  isPanning : bool;
  panStart : Point;
  isSpacePressed : bool
}.

Record Editing := {
  editingId : option string;
  editText : string;
  editTextColor : string;
  editBgColor : string;
  editFontFamily : string
}.

Record Gesture := {
  drawSelection : option (Point * Point);     (* { start, current } *)
  draggingId : option string;
  resizingId : option string;
  resizeHandle : option string;
  dragOffset : option Point;
  isDragging : bool
}.

Record TreeState := {
  connections : list (string * string);
  activeTreeNode : option string
}.

Record EditorState := {
  history : list (list TextBubble);
  historyIndex : nat;
  bubbles : list TextBubble;
  isProcessing : bool;
  tool : Tool;
  drawShape : Shape;
  view : Viewport;
  edit : Editing;
  gesture : Gesture;
  links : TreeState
}.

Definition origin : Point := {| pt_x := 0; pt_y := 0 |}.

(** The values given to [useState] on the first render. *)
Definition initialState : EditorState := {|
  history := [[]];
  historyIndex := 0;
  bubbles := [];
  isProcessing := false;
  tool := draw;
  drawShape := rectangle;
  view := {| scale := 1; offset := origin; isPanning := false;
             panStart := origin; isSpacePressed := false |};
  edit := {| editingId := None; editText := ""; editTextColor := "#000000";
             editBgColor := "#FFFFFF"; editFontFamily := "Comic Neue" |};
  gesture := {| drawSelection := None; draggingId := None; resizingId := None;
                resizeHandle := None; dragOffset := None; isDragging := false |};
  links := {| connections := []; activeTreeNode := None |}
|}.

(** State setters: one per [setX] the handlers call. *)
Definition setBubbles (bs : list TextBubble) (st : EditorState) : EditorState :=
  {| history := history st; historyIndex := historyIndex st; bubbles := bs;
     isProcessing := isProcessing st; tool := tool st; drawShape := drawShape st;
     view := view st; edit := edit st; gesture := gesture st; links := links st |}.

Definition setIsProcessing (p : bool) (st : EditorState) : EditorState :=
  {| history := history st; historyIndex := historyIndex st; bubbles := bubbles st;
     isProcessing := p; tool := tool st; drawShape := drawShape st;
     view := view st; edit := edit st; gesture := gesture st; links := links st |}.

Definition setTool (t : Tool) (st : EditorState) : EditorState :=
  {| history := history st; historyIndex := historyIndex st; bubbles := bubbles st;
     isProcessing := isProcessing st; tool := t; drawShape := drawShape st;
     view := view st; edit := edit st; gesture := gesture st; links := links st |}.

Definition setView (v : Viewport) (st : EditorState) : EditorState :=
  {| history := history st; historyIndex := historyIndex st; bubbles := bubbles st;
     isProcessing := isProcessing st; tool := tool st; drawShape := drawShape st;
     view := v; edit := edit st; gesture := gesture st; links := links st |}.

Definition setEdit (e : Editing) (st : EditorState) : EditorState :=
  {| history := history st; historyIndex := historyIndex st; bubbles := bubbles st;
     isProcessing := isProcessing st; tool := tool st; drawShape := drawShape st;
     view := view st; edit := e; gesture := gesture st; links := links st |}.

Definition setGesture (g : Gesture) (st : EditorState) : EditorState :=
  {| history := history st; historyIndex := historyIndex st; bubbles := bubbles st;
     isProcessing := isProcessing st; tool := tool st; drawShape := drawShape st;
     view := view st; edit := edit st; gesture := g; links := links st |}.

Definition setLinks (t : TreeState) (st : EditorState) : EditorState :=
  {| history := history st; historyIndex := historyIndex st; bubbles := bubbles st;
     isProcessing := isProcessing st; tool := tool st; drawShape := drawShape st;
     view := view st; edit := edit st; gesture := gesture st; links := t |}.

Definition setEditingId (i : option string) (st : EditorState) : EditorState :=
  setEdit {| editingId := i; editText := editText (edit st);
             editTextColor := editTextColor (edit st);
             editBgColor := editBgColor (edit st);
             editFontFamily := editFontFamily (edit st) |} st.

Definition setConnections (c : list (string * string)) (st : EditorState) : EditorState :=
  setLinks {| connections := c; activeTreeNode := activeTreeNode (links st) |} st.

Definition setActiveTreeNode (n : option string) (st : EditorState) : EditorState :=
  setLinks {| connections := connections (links st); activeTreeNode := n |} st.

(** ** History helpers *)

(** [addToHistory], with the [historyIndex] its [useCallback] closed over:
    [prev.slice(0, historyIndex + 1)] uses that index, while
    [setHistoryIndex(prev => prev + 1)] and [setBubbles] act on the state the
    call finds.  A continuation that resumes after an [await] calls the
    function of the render that started it, with that render's index. *)
Definition addToHistoryFrom (closureIndex : nat) (newBubbles : list TextBubble)
    (st : EditorState) : EditorState :=
  {| history := take (closureIndex + 1) (history st) ++ [newBubbles];
     historyIndex := historyIndex st + 1;
     bubbles := newBubbles;
     isProcessing := isProcessing st; tool := tool st; drawShape := drawShape st;
     view := view st; edit := edit st; gesture := gesture st; links := links st |}.

(** [addToHistory] called by a handler of the current render: the index it
    closed over is the index of the state. *)
Definition addToHistory (newBubbles : list TextBubble) (st : EditorState) : EditorState :=
  addToHistoryFrom (historyIndex st) newBubbles st.

Definition setHistoryIndex (i : nat) (st : EditorState) : EditorState :=
  {| history := history st; historyIndex := i; bubbles := bubbles st;
     isProcessing := isProcessing st; tool := tool st; drawShape := drawShape st;
     view := view st; edit := edit st; gesture := gesture st; links := links st |}.

(** [None]: [history[newIndex]] is [undefined], [setBubbles(undefined)] is
    called and the next render throws on [bubbles.map]. *)
Definition handleUndo (st : EditorState) : option EditorState :=
  if bool_decide (0 < historyIndex st) then
    let newIndex := historyIndex st - 1 in
    match history st !! newIndex with
    | Some snapshot => Some (setBubbles snapshot (setHistoryIndex newIndex st))
    | None => None
    end
  else Some st.

(** Under the guard [newIndex] is below [history.length], so that
    [history[newIndex]] is always there ([handleRedo_lookup] below); the
    last branch is never taken. *)
Definition handleRedo (st : EditorState) : EditorState :=
  if bool_decide (historyIndex st < length (history st) - 1) then
    let newIndex := historyIndex st + 1 in
    match history st !! newIndex with
    | Some snapshot => setBubbles snapshot (setHistoryIndex newIndex st)
    | None => st
    end
  else st.

(** Operations on the history, for stating what is reachable.  [Commit] is
    a commit made by a handler of the current render; [LiveEdit] is a direct
    [setBubbles] of a gesture preview, which does not commit. *)
Inductive HistoryOp :=
  | Commit (snapshot : list TextBubble)
  | Undo
  | Redo
  | LiveEdit (preview : list TextBubble).

Definition historyStep (st : EditorState) (op : HistoryOp) : option EditorState :=
  match op with
  | Commit s => Some (addToHistory s st)
  | Undo => handleUndo st
  | Redo => Some (handleRedo st)
  | LiveEdit bs => Some (setBubbles bs st)
  end.

Fixpoint runHistory (ops : list HistoryOp) (st : EditorState) : option EditorState :=
  match ops with
  | [] => Some st
  | op :: ops' => historyStep st op ≫= runHistory ops'
  end.

Definition isLiveEdit (op : HistoryOp) : bool :=
  match op with LiveEdit _ => true | _ => false end.

(** N commits followed by k undos. *)
Definition commits (snaps : list (list TextBubble)) (st : EditorState) : EditorState :=
  foldl (fun s b => addToHistory b s) st snaps.

Fixpoint undos (k : nat) (st : EditorState) : option EditorState :=
  match k with
  | 0 => Some st
  | S k' => handleUndo st ≫= undos k'
  end.

(** The index points into the history. *)
Definition history_wf (st : EditorState) : Prop :=
  historyIndex st < length (history st).

(** The store shows the snapshot at the index. *)
Definition in_sync (st : EditorState) : Prop :=
  history st !! historyIndex st = Some (bubbles st).

(** ** Link tool ([handleBubbleConnect], [handleDeleteBubble]) *)

(** [connections.some(([s, e]) => (s === a && e === id) || (s === id && e === a))] *)
Definition connectionExists (a id : string) (conns : list (string * string)) : bool :=
  existsb (fun c => (bool_decide (c.1 = a) && bool_decide (c.2 = id))
                    || (bool_decide (c.1 = id) && bool_decide (c.2 = a))) conns.

Definition handleBubbleConnect (id : string) (st : EditorState) : EditorState :=
  if bool_decide (tool st = tree) then
    match activeTreeNode (links st) with
    | None => setActiveTreeNode (Some id) st
    | Some active =>
        if bool_decide (active = id) then setActiveTreeNode None st
        else
          let st1 :=
            if connectionExists active id (connections (links st)) then st
            else setConnections (connections (links st) ++ [(active, id)]) st in
          setActiveTreeNode (Some id) st1
    end
  else st.

Definition handleDeleteBubble (id : string) (st : EditorState) : EditorState :=
  let newBubbles := filter (fun b => bubble_id b <> id) (bubbles st) in
  let st1 := addToHistory newBubbles st in
  setConnections
    (filter (fun c => c.1 <> id /\ c.2 <> id) (connections (links st1))) st1.

(** ** Chain decomposition (first half of [handleRetranslateLinked]) *)

(** One step of the [forEach] that builds the adjacency list. *)
Definition adjStep (adj : gmap string (list string)) (c : string * string)
  : gmap string (list string) :=
  let '(from, to) := c in
  let adj1 := match adj !! from with None => <[from := []]> adj | Some _ => adj end in
  let adj2 := match adj1 !! to with None => <[to := []]> adj1 | Some _ => adj1 end in
  <[from := default [] (adj2 !! from) ++ [to]]> adj2.

Definition buildAdj (conns : list (string * string)) : gmap string (list string) :=
  foldl adjStep ∅ conns.

(** [Set.add] on a set whose iteration order is used. *)
Definition setAdd (x : string) (s : list string) : list string :=
  if bool_decide (x ∈ s) then s else s ++ [x].

Definition nodesOf (conns : list (string * string)) : list string :=
  foldl (fun ns c => setAdd c.2 (setAdd c.1 ns)) [] conns.

Definition inDegreeOf (conns : list (string * string)) (nodes : list string)
  : gmap string nat :=
  foldl (fun d c => <[c.2 := default 0 (d !! c.2) + 1]> d)
        (foldl (fun d n => <[n := 0]> d) ∅ nodes) conns.

Definition startsOf (conns : list (string * string)) : list string :=
  let nodes := nodesOf conns in
  let inDegree := inDegreeOf conns nodes in
  filter (fun n => inDegree !! n = Some 0) nodes.

(** The [while] loop of [getChain].  Each turn of the loop costs one unit of
    fuel; [None] means the fuel ran out before the loop exited. *)
Fixpoint getChainLoop (fuel : nat) (adj : gmap string (list string))
    (visited : gset string) (path : list string) (curr : string)
  : option (list string * gset string) :=
  match fuel with
  | 0 => None
  | S fuel' =>
      match adj !! curr with
      | Some (n0 :: ns) =>
          match List.find (fun n => negb (bool_decide (n ∈ visited))) (n0 :: ns) with
          | Some next =>
              if truthy (Some next) then
                getChainLoop fuel' adj ({[next]} ∪ visited) (path ++ [next]) next
              else Some (path, visited)
          | None => Some (path, visited)
          end
      | _ => Some (path, visited)
      end
  end.

Definition getChain (fuel : nat) (adj : gmap string (list string))
    (visited : gset string) (startNode : string)
  : option (list string * gset string) :=
  getChainLoop fuel adj ({[startNode]} ∪ visited) [startNode] startNode.

(** Body of the two [forEach] loops that collect chains. *)
Definition visitNode (fuel : nat) (adj : gmap string (list string))
    (acc : option (gset string * list (list string))) (n : string)
  : option (gset string * list (list string)) :=
  match acc with
  | None => None
  | Some (visited, chains) =>
      if bool_decide (n ∈ visited) then Some (visited, chains)
      else
        match getChain fuel adj visited n with
        | Some (path, visited') => Some (visited', chains ++ [path])
        | None => None
        end
  end.

Definition decomposeWith (fuel : nat) (conns : list (string * string))
  : option (list (list string)) :=
  let adj := buildAdj conns in
  let nodes := nodesOf conns in
  let starts := startsOf conns in
  let acc1 := foldl (visitNode fuel adj) (Some (∅, [])) starts in
  let acc2 := foldl (visitNode fuel adj) acc1 nodes in
  snd <$> acc2.

(** Fuel that always suffices: a walk visits each node at most once. *)
Definition walkFuel (conns : list (string * string)) : nat :=
  S (length (nodesOf conns)).

Definition decompose (conns : list (string * string)) : option (list (list string)) :=
  decomposeWith (walkFuel conns) conns.

(** ** Context retranslation ([retranslateContextAware] and the second half
    of [handleRetranslateLinked]) *)

Record ChainItem := {
  ci_id : string;
  ci_text : string;
  ci_originalText : option string
}.

Record RawTranslation := { raw_id : string; translated_text : string }.

Record Translation := { tr_id : string; tr_text : string }.

(** What [ai.models.generateContent] followed by [JSON.parse] can do: throw,
    or give an object whose [translations] field is absent or a list. *)
Inductive GenerateOutcome :=
  | Throws
  | Parsed (translations : option (list RawTranslation)).

Definition retranslateContextAware
    (generate : list ChainItem -> GenerateOutcome) (items : list ChainItem)
  : list Translation :=
  match items with
  | [] => []
  | _ =>
      match generate items with
      | Throws => []                                   (* catch: return [] *)
      | Parsed None => []
      | Parsed (Some ts) =>
          map (fun t => {| tr_id := raw_id t; tr_text := translated_text t |}) ts
      end
  end.

Definition setText (s : string) (b : TextBubble) : TextBubble :=
  {| bubble_id := bubble_id b; text := s; originalText := originalText b;
     box := box b; isManual := isManual b; textColor := textColor b;
     backgroundColor := backgroundColor b; shape := shape b;
     fontSizeScale := fontSizeScale b; fontFamily := fontFamily b |}.

Definition findBubble (id : string) (bs : list TextBubble) : option TextBubble :=
  List.find (fun b => bool_decide (bubble_id b = id)) bs.

Definition chainDataOf (bs : list TextBubble) (chainIds : list string) : list ChainItem :=
  omap (fun id =>
          (fun b => {| ci_id := bubble_id b; ci_text := text b;
                       ci_originalText := originalText b |}) <$> findBubble id bs)
       chainIds.

(** [findIndex] then in-place update of [updatedBubbles]. *)
Definition applyTranslation (updated : list TextBubble) (t : Translation)
  : list TextBubble :=
  match list_find (fun b => bubble_id b = tr_id t) updated with
  | Some (idx, b) => <[idx := setText (tr_text t) b]> updated
  | None => updated
  end.

(** Body of [for (const chainIds of chains)]. *)
Definition processChain (generate : list ChainItem -> GenerateOutcome)
    (bs : list TextBubble) (updated : list TextBubble) (chainIds : list string)
  : list TextBubble :=
  if bool_decide (length chainIds < 2) then updated
  else foldl applyTranslation updated
         (retranslateContextAware generate (chainDataOf bs chainIds)).

Definition processChains (generate : list ChainItem -> GenerateOutcome)
    (bs : list TextBubble) (chains : list (list string)) : list TextBubble :=
  foldl (processChain generate bs) bs chains.

(** The end of the pass, after its last [await].  [click] is the state of
    the render in which the button was pressed: the handler closed over its
    [connections], its [bubbles] and its [addToHistory]; [st] is the state
    the continuation finds.  [None] only if the chain walk ran out of
    fuel. *)
Definition retranslateFinished (generate : list ChainItem -> GenerateOutcome)
    (click st : EditorState) : option EditorState :=
  match decompose (connections (links click)) with
  | None => None
  | Some chains =>
      let updatedBubbles := processChains generate (bubbles click) chains in
      Some (setIsProcessing false
              (addToHistoryFrom (historyIndex click) updatedBubbles st))
  end.

(** The whole handler when no other event arrives while it awaits: the
    continuation finds the state the click left. *)
Definition handleRetranslateLinked (generate : list ChainItem -> GenerateOutcome)
    (st : EditorState) : option EditorState :=
  match connections (links st) with
  | [] => Some st
  | _ => retranslateFinished generate st (setIsProcessing true st)
  end.

(** ** Font sizing ([calculateBaseFontSize] and its two call sites) *)

Definition calculateBaseFontSize (textLength : nat) (boxWidth boxHeight : R) : R :=
  let area := (boxWidth * boxHeight)%R in
  let divisor := if bool_decide (textLength = 0) then 1 else textLength in
  let charArea := (area / INR divisor)%R in
  let size := sqrt charArea in
  Rmin (Rmax (size * 0.6) 10) 50.

(** [b.fontSizeScale || 1] *)
Definition scaleOrOne (o : option R) : R :=
  match o with
  | Some s => if bool_decide (s = 0%R) then 1%R else s
  | None => 1%R
  end.

Definition baseFontSizeOf (b : TextBubble) : R :=
  calculateBaseFontSize (String.length (text b))
    (xmax (box b) - xmin (box b))%R (ymax (box b) - ymin (box b))%R.

(** [scaledFontSize] in [handleDownload]. *)
Definition exportFontSize (naturalWidth : R) (b : TextBubble) : R :=
  (baseFontSizeOf b * (naturalWidth / 1000) * scaleOrOne (fontSizeScale b))%R.

(** [realFontSizePx] in the bubble overlay; [img] is [imgRef.current]'s
    [naturalWidth], when the image element is mounted. *)
Definition previewFontSize (img : option R) (b : TextBubble) : R :=
  let scaleFactor := match img with Some w => (w / 1000)%R | None => 1%R end in
  (baseFontSizeOf b * scaleFactor * scaleOrOne (fontSizeScale b))%R.

(** ** Pointer handlers *)

Record DOMRect := {
  rect_left : R;
  rect_top : R;
  rect_width : R;
  rect_height : R
}.

(** The fields of a mouse event the handlers read.  [targetHandle] and
    [targetBubbleId] are the target's [data-handle] and [data-bubble-id]
    attributes; the two flags say whether the target lies inside the editing
    toolbar or the editing bubble. *)
Record MouseEvent := {
  clientX : R;
  clientY : R;
  button : nat;
  buttons : nat;
  targetHandle : option string;
  targetBubbleId : option string;
  inEditingToolbar : bool;
  inEditingBubble : bool
}.

(** [rect] is [contentRef.current.getBoundingClientRect()], when mounted.
    Over exact reals; [Doubles.getRelativeCoords] is the same expression in
    binary64. *)
Definition getRelativeCoords (rect : option DOMRect) (e : MouseEvent) : Point :=
  match rect with
  | None => origin
  | Some r =>
      {| pt_x := Rmax 0 (Rmin 1 ((clientX e - rect_left r) / rect_width r));
         pt_y := Rmax 0 (Rmin 1 ((clientY e - rect_top r) / rect_height r)) |}
  end.

Definition setBox (bx : BoundingBox) (b : TextBubble) : TextBubble :=
  {| bubble_id := bubble_id b; text := text b; originalText := originalText b;
     box := bx; isManual := isManual b; textColor := textColor b;
     backgroundColor := backgroundColor b; shape := shape b;
     fontSizeScale := fontSizeScale b; fontFamily := fontFamily b |}.

(** The new box of the resized bubble (body of the resizing branch). *)
Definition resizeBox (handle : string) (coords : Point) (b : BoundingBox) : BoundingBox :=
  let currentX := (pt_x coords * 1000)%R in
  let currentY := (pt_y coords * 1000)%R in
  if String.eqb handle "nw" then
    {| xmin := Rmin currentX (xmax b - 10); ymin := Rmin currentY (ymax b - 10);
       xmax := xmax b; ymax := ymax b |}
  else if String.eqb handle "ne" then
    {| xmax := Rmax currentX (xmin b + 10); ymin := Rmin currentY (ymax b - 10);
       xmin := xmin b; ymax := ymax b |}
  else if String.eqb handle "sw" then
    {| xmin := Rmin currentX (xmax b - 10); ymax := Rmax currentY (ymin b + 10);
       xmax := xmax b; ymin := ymin b |}
  else if String.eqb handle "se" then
    {| xmax := Rmax currentX (xmin b + 10); ymax := Rmax currentY (ymin b + 10);
       xmin := xmin b; ymin := ymin b |}
  else
    {| xmin := xmin b; ymin := ymin b; xmax := xmax b; ymax := ymax b |}.

(** The new box of the dragged bubble (body of the dragging branch), over
    exact reals; [Doubles.dragBox] is the same expression in binary64. *)
Definition dragBox (off coords : Point) (b : BoundingBox) : BoundingBox :=
  let width := (xmax b - xmin b)%R in
  let height := (ymax b - ymin b)%R in
  let newXmin := ((pt_x coords - pt_x off) * 1000)%R in
  let newYmin := ((pt_y coords - pt_y off) * 1000)%R in
  {| xmin := newXmin; ymin := newYmin;
     xmax := newXmin + width; ymax := newYmin + height |}.

Definition setOffset (p : Point) (st : EditorState) : EditorState :=
  setView {| scale := scale (view st); offset := p; isPanning := isPanning (view st);
             panStart := panStart (view st);
             isSpacePressed := isSpacePressed (view st) |} st.

Definition setIsPanning (p : bool) (st : EditorState) : EditorState :=
  setView {| scale := scale (view st); offset := offset (view st); isPanning := p;
             panStart := panStart (view st);
             isSpacePressed := isSpacePressed (view st) |} st.

Definition setPanStart (p : Point) (st : EditorState) : EditorState :=
  setView {| scale := scale (view st); offset := offset (view st);
             isPanning := isPanning (view st); panStart := p;
             isSpacePressed := isSpacePressed (view st) |} st.

Definition setIsDragging (d : bool) (st : EditorState) : EditorState :=
  setGesture {| drawSelection := drawSelection (gesture st);
                draggingId := draggingId (gesture st);
                resizingId := resizingId (gesture st);
                resizeHandle := resizeHandle (gesture st);
                dragOffset := dragOffset (gesture st); isDragging := d |} st.

Definition setDrawSelection (d : option (Point * Point)) (st : EditorState) : EditorState :=
  setGesture {| drawSelection := d;
                draggingId := draggingId (gesture st);
                resizingId := resizingId (gesture st);
                resizeHandle := resizeHandle (gesture st);
                dragOffset := dragOffset (gesture st);
                isDragging := isDragging (gesture st) |} st.

(** [setDraggingId] and [setDragOffset] are always called together. *)
Definition setDragging (i : option string) (off : option Point) (st : EditorState)
  : EditorState :=
  setGesture {| drawSelection := drawSelection (gesture st);
                draggingId := i;
                resizingId := resizingId (gesture st);
                resizeHandle := resizeHandle (gesture st);
                dragOffset := off;
                isDragging := isDragging (gesture st) |} st.

(** [setResizingId] and [setResizeHandle] are always called together. *)
Definition setResizing (i h : option string) (st : EditorState) : EditorState :=
  setGesture {| drawSelection := drawSelection (gesture st);
                draggingId := draggingId (gesture st);
                resizingId := i;
                resizeHandle := h;
                dragOffset := dragOffset (gesture st);
                isDragging := isDragging (gesture st) |} st.

Definition handleMouseMove (rect : option DOMRect) (e : MouseEvent) (st : EditorState)
  : EditorState :=
  if isPanning (view st) then
    setOffset {| pt_x := clientX e - pt_x (panStart (view st));
                 pt_y := clientY e - pt_y (panStart (view st)) |} st
  else
    let coords := getRelativeCoords rect e in
    let g := gesture st in
    if truthy (resizingId g) && truthy (resizeHandle g) then
      setBubbles
        (map (fun b => if bool_decide (Some (bubble_id b) <> resizingId g) then b
                       else setBox (resizeBox (default "" (resizeHandle g)) coords (box b)) b)
             (bubbles st)) st
    else
      match dragOffset g with
      | Some off =>
          if truthy (draggingId g) then
            setBubbles
              (map (fun b => if bool_decide (Some (bubble_id b) <> draggingId g) then b
                             else setBox (dragBox off coords (box b)) b)
                   (bubbles st)) (setIsDragging true st)
          else
            match drawSelection g with
            | Some (start, _) => setDrawSelection (Some (start, coords)) st
            | None => st
            end
      | None =>
          match drawSelection g with
          | Some (start, _) => setDrawSelection (Some (start, coords)) st
          | None => st
          end
      end.

(** ** Editing ([saveEdit]) *)

Definition applyEdit (e : Editing) (b : TextBubble) : TextBubble :=
  {| bubble_id := bubble_id b; text := editText e; originalText := originalText b;
     box := box b; isManual := isManual b; textColor := Some (editTextColor e);
     backgroundColor := Some (editBgColor e); shape := shape b;
     fontSizeScale := fontSizeScale b; fontFamily := Some (editFontFamily e) |}.

Definition saveEdit (st : EditorState) : EditorState :=
  let e := edit st in
  if truthy (editingId e) then
    let eid := default "" (editingId e) in
    let st1 :=
      match findBubble eid (bubbles st) with
      | Some currentBubble =>
          let hasChanged :=
            bool_decide (text currentBubble <> editText e)
            || bool_decide (textColor currentBubble <> Some (editTextColor e))
            || bool_decide (backgroundColor currentBubble <> Some (editBgColor e))
            || bool_decide (fontFamily currentBubble <> Some (editFontFamily e)) in
          if hasChanged then
            addToHistory
              (map (fun b => if bool_decide (bubble_id b = eid) then applyEdit e b else b)
                   (bubbles st)) st
          else st
      | None => st
      end in
    setEditingId None st1
  else st.

(** The hit test of [handleMouseDown], on the bubbles of the current render. *)
Definition hitTest (coords : Point) (b : TextBubble) : bool :=
  let bx := (xmin (box b) / 1000)%R in
  let by_ := (ymin (box b) / 1000)%R in
  let bw := ((xmax (box b) - xmin (box b)) / 1000)%R in
  let bh := ((ymax (box b) - ymin (box b)) / 1000)%R in
  bool_decide (pt_x coords >= bx)%R && bool_decide (pt_x coords <= bx + bw)%R
  && bool_decide (pt_y coords >= by_)%R && bool_decide (pt_y coords <= by_ + bh)%R.

Definition handleMouseDown (rect : option DOMRect) (e : MouseEvent) (st : EditorState)
  : EditorState :=
  if bool_decide (tool st = pan) || bool_decide (button e = 1)
     || (bool_decide (buttons e = 1) && isSpacePressed (view st)) then
    setPanStart {| pt_x := clientX e - pt_x (offset (view st));
                   pt_y := clientY e - pt_y (offset (view st)) |}
      (setIsPanning true st)
  else if truthy (editingId (edit st)) && (inEditingToolbar e || inEditingBubble e) then
    st
  else
    let st1 := if truthy (editingId (edit st)) then saveEdit st else st in
    if bool_decide (tool st = select) && truthy (targetHandle e)
       && truthy (targetBubbleId e) then
      setIsDragging false (setResizing (targetBubbleId e) (targetHandle e) st1)
    else
      let coords := getRelativeCoords rect e in
      let startDraw (s : EditorState) :=
        if bool_decide (tool st = draw) then setDrawSelection (Some (coords, coords)) s
        else s in
      if bool_decide (tool st = select) || bool_decide (tool st = tree) then
        match List.find (hitTest coords) (reverse (bubbles st)) with
        | Some clickedBubble =>
            if bool_decide (tool st = tree) then
              handleBubbleConnect (bubble_id clickedBubble) st1
            else
              setIsDragging false
                (setDragging (Some (bubble_id clickedBubble))
                   (Some {| pt_x := pt_x coords - xmin (box clickedBubble) / 1000;
                            pt_y := pt_y coords - ymin (box clickedBubble) / 1000 |})
                   st1)
        | None =>
            let st2 := setEditingId None st1 in
            startDraw (if bool_decide (tool st = tree) then setActiveTreeNode None st2
                       else st2)
        end
      else startDraw st1.

(** [handleMouseUp], up to the optimistic insert of the drawn bubble; the
    continuation that awaits the translation of the drawn region is
    [regionResolved] and [regionFailed] below.  [imgReady] is
    [imgRef.current && image.file]; [now] is [Date.now().toString()]. *)
Definition handleMouseUp (imgReady : bool) (now : string) (st : EditorState)
  : EditorState :=
  let g := gesture st in
  if isPanning (view st) then setIsPanning false st
  else if truthy (resizingId g) then
    setResizing None None (addToHistory (bubbles st) st)
  else if truthy (draggingId g) then
    let st1 := if isDragging g then addToHistory (bubbles st) st else st in
    setIsDragging false (setDragging None None st1)
  else
    match drawSelection g with
    | Some (start, current) =>
        if imgReady then
          let x1 := Rmin (pt_x start) (pt_x current) in
          let x2 := Rmax (pt_x start) (pt_x current) in
          let y1 := Rmin (pt_y start) (pt_y current) in
          let y2 := Rmax (pt_y start) (pt_y current) in
          if bool_decide (x2 - x1 < 0.01)%R || bool_decide (y2 - y1 < 0.01)%R then
            setDrawSelection None st
          else
            let tempBubble :=
              {| bubble_id := now; text := "..."; originalText := None;
                 box := {| ymin := y1 * 1000; xmin := x1 * 1000;
                           ymax := y2 * 1000; xmax := x2 * 1000 |};
                 isManual := Some true; textColor := Some "#000000";
                 backgroundColor := Some "#FFFFFF"; shape := Some (drawShape st);
                 fontSizeScale := Some 1%R; fontFamily := Some "Comic Neue" |} in
            setDrawSelection None (setBubbles (bubbles st ++ [tempBubble]) st)
        else setDrawSelection None st
    | None => setDrawSelection None st
    end.

(** ** Predicates and runs used in the statements *)

(** The box invariant of the data model. *)
Definition boxOrdered (b : BoundingBox) : Prop :=
  (xmin b < xmax b)%R /\ (ymin b < ymax b)%R.

Definition boxInRange (b : BoundingBox) : Prop :=
  (0 <= xmin b <= 1000)%R /\ (0 <= xmax b <= 1000)%R /\
  (0 <= ymin b <= 1000)%R /\ (0 <= ymax b <= 1000)%R.

Definition boxInvariant (b : BoundingBox) : Prop :=
  boxOrdered b /\ boxInRange b.

(** One pointer-move frame, as it acts on the box of the bubble it targets. *)
Inductive BoxMove :=
  | ResizeMove (handle : string) (coords : Point)
  | DragMove (off coords : Point).

Definition applyMove (b : BoundingBox) (m : BoxMove) : BoundingBox :=
  match m with
  | ResizeMove h c => resizeBox h c b
  | DragMove off c => dragBox off c b
  end.

Definition applyMoves (ms : list BoxMove) (b : BoundingBox) : BoundingBox :=
  foldl applyMove b ms.

(** A run of pointer-move events, each with the content rectangle of its
    render. *)
Definition moveFrames (frames : list (option DOMRect * MouseEvent)) (st : EditorState)
  : EditorState :=
  foldl (fun s f => handleMouseMove f.1 f.2 s) st frames.

(** Coordinates that [getRelativeCoords] can return. *)
Definition inUnitSquare (p : Point) : Prop :=
  (0 <= pt_x p <= 1)%R /\ (0 <= pt_y p <= 1)%R.

(** A drag gesture is in progress: what [handleMouseUp] and
    [handleMouseMove] test before they take their dragging branches. *)
Definition dragActive (st : EditorState) : Prop :=
  isPanning (view st) = false /\
  truthy (resizingId (gesture st)) = false /\
  truthy (draggingId (gesture st)) = true /\
  is_Some (dragOffset (gesture st)).

(** Events that can change the link set or the active node: a click of the
    link tool on a bubble or on empty space, any pointer-down as the
    component receives it, a deletion, a change of tool. *)
Inductive LinkEvent :=
  | ClickBubble (id : string)
  | ClickEmpty
  | PointerDown (rect : option DOMRect) (e : MouseEvent)
  | DeleteBubble (id : string)
  | SelectTool (t : Tool).

Definition linkStep (st : EditorState) (ev : LinkEvent) : EditorState :=
  match ev with
  | ClickBubble id => handleBubbleConnect id st
  | ClickEmpty => if bool_decide (tool st = tree) then setActiveTreeNode None st else st
  | PointerDown rect e => handleMouseDown rect e st
  | DeleteBubble id => handleDeleteBubble id st
  | SelectTool t => setTool t st
  end.

Definition runLinks (evs : list LinkEvent) (st : EditorState) : EditorState :=
  foldl linkStep st evs.

Definition noSelfLoop (conns : list (string * string)) : Prop :=
  forall a b, (a, b) ∈ conns -> a <> b.

(** At most one link per unordered pair: a pair occurs once, and never
    together with its reverse. *)
Definition onePerPair (conns : list (string * string)) : Prop :=
  NoDup conns /\ forall a b, (a, b) ∈ conns -> (b, a) ∈ conns -> a = b.

Definition linksOk (conns : list (string * string)) : Prop :=
  noSelfLoop conns /\ onePerPair conns.

(** The targets of the links that leave [k], in the order the links were
    made, and the number of links that arrive at [k]. *)
Definition outNeighbours (conns : list (string * string)) (k : string) : list string :=
  map snd (List.filter (fun c => String.eqb c.1 k) conns).

Definition inDegreeCount (conns : list (string * string)) (k : string) : nat :=
  length (List.filter (fun c => String.eqb c.2 k) conns).

(** Every neighbour listed in the adjacency list is one of [nodes]. *)
Definition adjClosed (adj : gmap string (list string)) (nodes : gset string) : Prop :=
  forall k outs n, adj !! k = Some outs -> n ∈ outs -> n ∈ nodes.

(** No bubble id occurs in two chains. *)
Definition chainsDisjoint (chains : list (list string)) : Prop :=
  forall i j c1 c2 x,
    chains !! i = Some c1 -> chains !! j = Some c2 -> x ∈ c1 -> x ∈ c2 -> i = j.

(** What the chain walk keeps true of the visited set and the chains. *)
Definition chainsInv (nodes : gset string) (acc : gset string * list (list string))
  : Prop :=
  (forall c x, c ∈ acc.2 -> x ∈ c -> x ∈ acc.1) /\
  chainsDisjoint acc.2 /\
  Forall (fun c => NoDup c /\ c <> []) acc.2.

(** A collaborator that answers only about the bubbles it was asked
    about. *)
Definition answersOnlyRequested (generate : list ChainItem -> GenerateOutcome) : Prop :=
  forall items ts t,
    generate items = Parsed (Some ts) -> t ∈ ts -> raw_id t ∈ map ci_id items.

(** The formula of the font-sizing engine, written as the specification
    words it: [sqrt((W*H) / max(N,1)) * 0.6] clamped to [[10, 50]]. *)
Definition clamp (lo hi x : R) : R :=
  if bool_decide (x < lo)%R then lo else if bool_decide (hi < x)%R then hi else x.

Definition specBaseSize (N : nat) (W H : R) : R :=
  clamp 10 50 (sqrt ((W * H) / INR (Nat.max N 1)) * 0.6).

(** ** A concrete session, used to evaluate the handlers

    One detected bubble with box (0,0)-(100,100), the select tool, and a
    content rectangle of 1000 by 1000 pixels at the window origin. *)
Definition demoBubble : TextBubble :=
  {| bubble_id := "auto-0-1"; text := "Hello"; originalText := None;
     box := {| ymin := 0; xmin := 0; ymax := 100; xmax := 100 |};
     isManual := Some false; textColor := Some "#000000";
     backgroundColor := Some "#FFFFFF"; shape := Some rectangle;
     fontSizeScale := Some 1%R; fontFamily := Some "Comic Neue" |}.

Definition demoState : EditorState :=
  setTool select (addToHistory [demoBubble] initialState).

Definition demoRect : option DOMRect :=
  Some {| rect_left := 0; rect_top := 0; rect_width := 1000; rect_height := 1000 |}.

(** A left-button event at window position [(x, y)], on no handle. *)
Definition mouseAt (x y : R) : MouseEvent :=
  {| clientX := x; clientY := y; button := 0; buttons := 1;
     targetHandle := None; targetBubbleId := None;
     inEditingToolbar := false; inEditingBubble := false |}.

(** A left-button event on the resize handle [h] of bubble [id]. *)
Definition mouseOnHandle (h id : string) (x y : R) : MouseEvent :=
  {| clientX := x; clientY := y; button := 0; buttons := 1;
     targetHandle := Some h; targetBubbleId := Some id;
     inEditingToolbar := false; inEditingBubble := false |}.

(** The grab offset recorded by a pointer-down at (50, 50) on [demoBubble]. *)
Definition demoGrab : Point :=
  {| pt_x := 50 / 1000 - 0 / 1000; pt_y := 50 / 1000 - 0 / 1000 |}.

(** The session after that pointer-down. *)
Definition demoGrabbed : EditorState :=
  handleMouseDown demoRect (mouseAt 50 50) demoState.

(** Where the box of [demoBubble] is after the grab point has been dragged
    to the corner (0, 0) of the canvas. *)
Definition demoDraggedOut : BoundingBox :=
  {| ymin := -50; xmin := -50; ymax := 50; xmax := 50 |}.

(** ** A concrete retranslation pass

    Four bubbles a, b, c, d with links a -> b and c -> d, and a collaborator
    that answers, for the chain that starts with a, each text followed by an
    exclamation mark, and throws for any other chain. *)
Definition plainBubble (id txt : string) : TextBubble :=
  {| bubble_id := id; text := txt; originalText := None;
     box := {| ymin := 0; xmin := 0; ymax := 100; xmax := 100 |};
     isManual := Some false; textColor := Some "#000000";
     backgroundColor := Some "#FFFFFF"; shape := Some rectangle;
     fontSizeScale := Some 1%R; fontFamily := Some "Comic Neue" |}.

Definition demoLinked : EditorState :=
  setConnections [("a", "b"); ("c", "d")]
    (setTool tree
       (addToHistory [plainBubble "a" "one"; plainBubble "b" "two";
                      plainBubble "c" "three"; plainBubble "d" "four"]
          initialState)).

Definition demoGenerate (items : list ChainItem) : GenerateOutcome :=
  match items with
  | item :: _ =>
      if String.eqb (ci_id item) "a" then
        Parsed (Some (map (fun it => {| raw_id := ci_id it;
                                        translated_text := String.append (ci_text it) "!" |})
                          items))
      else Throws
  | [] => Throws
  end.

(** A collaborator that answers the chain that starts with a by a text for
    bubble c, which it was not asked about, and throws for any other
    chain. *)
Definition leakGenerate (items : list ChainItem) : GenerateOutcome :=
  match items with
  | item :: _ =>
      if String.eqb (ci_id item) "a" then
        Parsed (Some [{| raw_id := "c"; translated_text := "LEAK" |}])
      else Throws
  | [] => Throws
  end.

(** A box of 5 by 5 units in the corner of the canvas. *)
Definition demoSmallBox : BoundingBox :=
  {| ymin := 0; xmin := 0; ymax := 5; xmax := 5 |}.

(** ** Further handlers of the component *)

(** *** Shape and font scale of a bubble *)

Definition setShape (s : Shape) (b : TextBubble) : TextBubble :=
  {| bubble_id := bubble_id b; text := text b; originalText := originalText b;
     box := box b; isManual := isManual b; textColor := textColor b;
     backgroundColor := backgroundColor b; shape := Some s;
     fontSizeScale := fontSizeScale b; fontFamily := fontFamily b |}.

Definition setFontSizeScale (r : R) (b : TextBubble) : TextBubble :=
  {| bubble_id := bubble_id b; text := text b; originalText := originalText b;
     box := box b; isManual := isManual b; textColor := textColor b;
     backgroundColor := backgroundColor b; shape := shape b;
     fontSizeScale := Some r; fontFamily := fontFamily b |}.

Definition updateBubbleShape (id : string) (s : Shape) (st : EditorState) : EditorState :=
  addToHistory
    (map (fun b => if bool_decide (bubble_id b = id) then setShape s b else b)
         (bubbles st)) st.

(** The new scale is [Math.max(0.5, Math.min(3, (b.fontSizeScale || 1) + delta))]. *)
Definition updateBubbleFontScale (id : string) (delta : R) (st : EditorState)
  : EditorState :=
  addToHistory
    (map (fun b =>
            if bool_decide (bubble_id b = id) then
              setFontSizeScale
                (Rmax 0.5 (Rmin 3 (scaleOrOne (fontSizeScale b) + delta))) b
            else b)
         (bubbles st)) st.

(** The shape the toggle button of the editing toolbar asks for:
    [bubble.shape === 'ellipse' ? 'rectangle' : 'ellipse']. *)
Definition toggledShape (b : TextBubble) : Shape :=
  match shape b with
  | Some ellipse => rectangle
  | _ => ellipse
  end.

(** *** Viewport: wheel, zoom buttons, leaving the canvas *)

Definition setScale (s : R) (st : EditorState) : EditorState :=
  setView {| scale := s; offset := offset (view st); isPanning := isPanning (view st);
             panStart := panStart (view st);
             isSpacePressed := isSpacePressed (view st) |} st.

Definition setIsSpacePressed (p : bool) (st : EditorState) : EditorState :=
  setView {| scale := scale (view st); offset := offset (view st);
             isPanning := isPanning (view st); panStart := panStart (view st);
             isSpacePressed := p |} st.

Definition handleWheel (deltaY : R) (st : EditorState) : EditorState :=
  let delta := (- deltaY * 0.001)%R in
  setScale (Rmin (Rmax 0.5 (scale (view st) + delta)) 5) st.

Definition zoomOut (st : EditorState) : EditorState :=
  setScale (Rmax 0.5 (scale (view st) - 0.25)) st.

Definition zoomIn (st : EditorState) : EditorState :=
  setScale (Rmin 5 (scale (view st) + 0.25)) st.

(** [onMouseLeave] of the editor area. *)
Definition handleMouseLeave (st : EditorState) : EditorState :=
  setDrawSelection None (setIsPanning false st).

(** *** Editing session *)

(** [o || d] for a [string | undefined]. *)
Definition orDefault (o : option string) (d : string) : string :=
  if truthy o then default d o else d.

Definition startEditing (b : TextBubble) (st : EditorState) : EditorState :=
  setEdit {| editingId := Some (bubble_id b);
             editText := text b;
             editTextColor := orDefault (textColor b) "#000000";
             editBgColor := orDefault (backgroundColor b) "#FFFFFF";
             editFontFamily := orDefault (fontFamily b) "Comic Neue" |} st.

(** [onDoubleClick] of a bubble. *)
Definition handleDoubleClick (b : TextBubble) (st : EditorState) : EditorState :=
  if bool_decide (tool st = select) then startEditing b st else st.

(** What the inputs of the editing toolbar and the editable text set. *)
Inductive EditInput :=
  | InputText (s : string)
  | InputTextColor (s : string)
  | InputBgColor (s : string)
  | InputFontFamily (s : string).

Definition handleEditInput (i : EditInput) (st : EditorState) : EditorState :=
  let e := edit st in
  match i with
  | InputText s =>
      setEdit {| editingId := editingId e; editText := s;
                 editTextColor := editTextColor e; editBgColor := editBgColor e;
                 editFontFamily := editFontFamily e |} st
  | InputTextColor s =>
      setEdit {| editingId := editingId e; editText := editText e;
                 editTextColor := s; editBgColor := editBgColor e;
                 editFontFamily := editFontFamily e |} st
  | InputBgColor s =>
      setEdit {| editingId := editingId e; editText := editText e;
                 editTextColor := editTextColor e; editBgColor := s;
                 editFontFamily := editFontFamily e |} st
  | InputFontFamily s =>
      setEdit {| editingId := editingId e; editText := editText e;
                 editTextColor := editTextColor e; editBgColor := editBgColor e;
                 editFontFamily := s |} st
  end.

(** *** Keyboard shortcuts *)

Record KeyEvent := {
  metaKey : bool;
  ctrlKey : bool;
  shiftKey : bool;
  key : string;
  code : string;
  isRepeat : bool           (* repeat *)
}.

Definition handleKeyDown (e : KeyEvent) (st : EditorState) : option EditorState :=
  if (metaKey e || ctrlKey e) && String.eqb (key e) "z" then
    if shiftKey e then Some (handleRedo st) else handleUndo st
  else if (metaKey e || ctrlKey e) && String.eqb (key e) "y" then Some (handleRedo st)
  else if String.eqb (code e) "Space" && negb (truthy (editingId (edit st))) then
    Some (if negb (isRepeat e) then setIsSpacePressed true st else st)
  else Some st.

Definition handleKeyUp (e : KeyEvent) (st : EditorState) : EditorState :=
  if String.eqb (code e) "Space" then setIsSpacePressed false st else st.

(** *** Full-image scan ([handleAutoScan]) *)

(** The defaults the scan gives every detected bubble. *)
Definition processDetected (b : TextBubble) : TextBubble :=
  {| bubble_id := bubble_id b; text := text b; originalText := originalText b;
     box := box b; isManual := isManual b; textColor := textColor b;
     backgroundColor := backgroundColor b; shape := Some rectangle;
     fontSizeScale := Some 1%R; fontFamily := Some "Comic Neue" |}.

(** The end of the scan, after its two [await]s.  [click] is the state of
    the render in which the button was pressed, whose [bubbles] and
    [addToHistory] the handler closed over; [detected] is what the awaited
    calls give: the detected bubbles, or [None] when one of them throws;
    [st] is the state the continuation finds. *)
Definition scanFinished (click : EditorState) (detected : option (list TextBubble))
    (st : EditorState) : EditorState :=
  match detected with
  | Some detectedBubbles =>
      let newBubbleState := bubbles click ++ map processDetected detectedBubbles in
      setIsProcessing false
        (setTool select (addToHistoryFrom (historyIndex click) newBubbleState st))
  | None => setIsProcessing false st
  end.

(** The whole handler when no other event arrives while it awaits;
    [hasFile] is [image.file]. *)
Definition handleAutoScan (hasFile : bool) (detected : option (list TextBubble))
    (st : EditorState) : EditorState :=
  if hasFile then scanFinished st detected (setIsProcessing true st) else st.

(** *** Region translation ([translateRegion] and the tail of
    [handleMouseUp]) *)

Record RegionResult := {
  rr_text : string;
  rr_textColor : string;
  rr_backgroundColor : string
}.

(** What [generateContent] followed by [JSON.parse] can do for a region:
    throw, or give an object with some of the three fields. *)
Inductive RegionOutcome :=
  | RegionThrows
  | RegionParsed (translated_text text_color background_color : option string).

Definition translateRegion (o : RegionOutcome) : RegionResult :=
  match o with
  | RegionThrows =>
      {| rr_text := "Error"; rr_textColor := "#000000";
         rr_backgroundColor := "#FFFFFF" |}
  | RegionParsed t c b =>
      {| rr_text := orDefault t "Error"; rr_textColor := orDefault c "#000000";
         rr_backgroundColor := orDefault b "#FFFFFF" |}
  end.

(** The placeholder bubble [handleMouseUp] inserts for a drawn rectangle. *)
Definition drawnBox (start current : Point) : BoundingBox :=
  {| ymin := Rmin (pt_y start) (pt_y current) * 1000;
     xmin := Rmin (pt_x start) (pt_x current) * 1000;
     ymax := Rmax (pt_y start) (pt_y current) * 1000;
     xmax := Rmax (pt_x start) (pt_x current) * 1000 |}.

Definition tempBubbleOf (now : string) (sh : Shape) (start current : Point)
  : TextBubble :=
  {| bubble_id := now; text := "..."; originalText := None;
     box := drawnBox start current;
     isManual := Some true; textColor := Some "#000000";
     backgroundColor := Some "#FFFFFF"; shape := Some sh;
     fontSizeScale := Some 1%R; fontFamily := Some "Comic Neue" |}.

Definition resolvedBubbleOf (tempBubble : TextBubble) (r : RegionResult) : TextBubble :=
  {| bubble_id := bubble_id tempBubble; text := rr_text r;
     originalText := originalText tempBubble; box := box tempBubble;
     isManual := isManual tempBubble; textColor := Some (rr_textColor r);
     backgroundColor := Some (rr_backgroundColor r); shape := shape tempBubble;
     fontSizeScale := fontSizeScale tempBubble; fontFamily := fontFamily tempBubble |}.

(** The answer arrives: the placeholder is replaced where it stands and the
    result is committed.  [closureIndex] is the [historyIndex] of the render
    in which the pointer was released. *)
Definition regionResolved (closureIndex : nat) (tempBubble : TextBubble)
    (r : RegionResult) (st : EditorState) : EditorState :=
  let updated :=
    map (fun b => if bool_decide (bubble_id b = bubble_id tempBubble)
                  then resolvedBubbleOf tempBubble r else b) (bubbles st) in
  addToHistoryFrom closureIndex updated st.

(** The [catch] of the tail: the placeholder is removed.  It is reached
    when a call before the answer throws (the canvas calls that crop the
    region); [translateRegion] never throws. *)
Definition regionFailed (tempId : string) (st : EditorState) : EditorState :=
  setBubbles (filter (fun b => bubble_id b <> tempId) (bubbles st)) st.

(** *** Events of a session

    Every synchronous handler of the component, and the two handlers that
    await a collaborator taken as one step each. *)
Inductive EditorEvent :=
  | EvMouseDown (rect : option DOMRect) (e : MouseEvent)
  | EvMouseMove (rect : option DOMRect) (e : MouseEvent)
  | EvMouseUp (imgReady : bool) (now : string)
  | EvMouseLeave
  | EvKeyDown (e : KeyEvent)
  | EvKeyUp (e : KeyEvent)
  | EvWheel (deltaY : R)
  | EvZoomIn
  | EvZoomOut
  | EvSetTool (t : Tool)
  | EvUndo
  | EvRedo
  | EvDelete (id : string)
  | EvShape (id : string) (s : Shape)
  | EvFontScale (id : string) (delta : R)
  | EvDoubleClick (b : TextBubble)
  | EvEditInput (i : EditInput)
  | EvSaveEdit
  | EvAutoScan (hasFile : bool) (detected : option (list TextBubble))
  | EvRetranslate (generate : list ChainItem -> GenerateOutcome)
  | EvRegionFailed (tempId : string).

Definition editorStep (st : EditorState) (ev : EditorEvent) : option EditorState :=
  match ev with
  | EvMouseDown rect e => Some (handleMouseDown rect e st)
  | EvMouseMove rect e => Some (handleMouseMove rect e st)
  | EvMouseUp imgReady now => Some (handleMouseUp imgReady now st)
  | EvMouseLeave => Some (handleMouseLeave st)
  | EvKeyDown e => handleKeyDown e st
  | EvKeyUp e => Some (handleKeyUp e st)
  | EvWheel deltaY => Some (handleWheel deltaY st)
  | EvZoomIn => Some (zoomIn st)
  | EvZoomOut => Some (zoomOut st)
  | EvSetTool t => Some (setTool t st)
  | EvUndo => handleUndo st
  | EvRedo => Some (handleRedo st)
  | EvDelete id => Some (handleDeleteBubble id st)
  | EvShape id s => Some (updateBubbleShape id s st)
  | EvFontScale id delta => Some (updateBubbleFontScale id delta st)
  | EvDoubleClick b => Some (handleDoubleClick b st)
  | EvEditInput i => Some (handleEditInput i st)
  | EvSaveEdit => Some (saveEdit st)
  | EvAutoScan hasFile detected => Some (handleAutoScan hasFile detected st)
  | EvRetranslate generate => handleRetranslateLinked generate st
  | EvRegionFailed tempId => Some (regionFailed tempId st)
  end.

(** [None]: a render threw, or the chain walk ran out of fuel (it never
    does, [decompose_total]). *)
Fixpoint runEditor (evs : list EditorEvent) (st : EditorState) : option EditorState :=
  match evs with
  | [] => Some st
  | ev :: evs' => editorStep st ev ≫= runEditor evs'
  end.

(** What every reachable state satisfies. *)
Definition editorInv (st : EditorState) : Prop :=
  history_wf st /\
  history st !! 0 = Some [] /\
  (0.5 <= scale (view st) <= 5)%R /\
  linksOk (connections (links st)).

(** What makes a pointer-down start a pan: the pan tool, the middle button,
    or the left button with the space bar held. *)
Definition panTriggered (e : MouseEvent) (st : EditorState) : Prop :=
  tool st = pan \/ button e = 1 \/ (buttons e = 1 /\ isSpacePressed (view st) = true).

(** One of the four edited fields differs from the bubble's ([hasChanged]
    of [saveEdit]). *)
Definition editChanged (e : Editing) (b : TextBubble) : Prop :=
  text b <> editText e \/ textColor b <> Some (editTextColor e) \/
  backgroundColor b <> Some (editBgColor e) \/ fontFamily b <> Some (editFontFamily e).



(** Each bubble of the chain is linked to the next one. *)
Definition linkedPath (conns : list (string * string)) (c : list string) : Prop :=
  forall k a b, c !! k = Some a -> c !! S k = Some b -> (a, b) ∈ conns.

(** [ext] is a walk along the adjacency list that leaves [curr]. *)
Fixpoint followsAdj (adj : gmap string (list string)) (curr : string)
    (ext : list string) : Prop :=
  match ext with
  | [] => True
  | n :: ext' =>
      (exists outs, adj !! curr = Some outs /\ n ∈ outs) /\ followsAdj adj n ext'
  end.

(** What the chain walk keeps true besides [chainsInv]: every visited node
    is in a chain, and every chain starts at a node and follows the
    adjacency list. *)
Definition chainsCover (adj : gmap string (list string)) (nodes : list string)
    (acc : gset string * list (list string)) : Prop :=
  (forall x, x ∈ acc.1 -> exists c, c ∈ acc.2 /\ x ∈ c) /\
  (forall c, c ∈ acc.2 ->
     exists a ext, c = a :: ext /\ a ∈ nodes /\ followsAdj adj a ext).

(** ** Text layout of the exported image ([handleDownload]) *)

(** [s.split(' ')]: the pieces between the spaces, empty pieces included. *)
Fixpoint splitSpaces (s : string) : list string :=
  match s with
  | EmptyString => [""]
  | String c rest =>
      if Ascii.eqb c Ascii.Space then "" :: splitSpaces rest
      else match splitSpaces rest with
           | w :: ws => String c w :: ws
           | [] => [String c ""]
           end
  end.





(** The [for] loop over the words; [n] is the index of the first of
    [words], [measureText] is [ctx.measureText(_).width] under the font set
    before the loop.  Returns the last [line] and the [lines] pushed. *)
Fixpoint wrapLoop (measureText : string -> R) (maxWidth : R) (n : nat)
    (words : list string) (line : string) (lines : list string)
  : string * list string :=
  match words with
  | [] => (line, lines)
  | w :: rest =>
      let testLine := (line +:+ w) +:+ " " in
      if bool_decide (measureText testLine > maxWidth)%R && bool_decide (0 < n) then
        wrapLoop measureText maxWidth (S n) rest (w +:+ " ") (lines ++ [line])
      else
        wrapLoop measureText maxWidth (S n) rest testLine lines
  end.

Definition wrapLines (measureText : string -> R) (maxWidth : R) (txt : string)
  : list string :=
  let r := wrapLoop measureText maxWidth 0 (splitSpaces txt) "" [] in
  r.2 ++ [r.1].



(** The line the loop builds from a group of words: each word followed by
    one space. *)
Definition lineOf (g : list string) : string :=
  foldl (fun l w => (l +:+ w) +:+ " ") "" g.

Definition joinLines (ls : list string) : string :=
  foldr String.append "" ls.

(** ** Detection of all bubbles ([autoDetectAndTranslate]) *)

(** One element of [result.bubbles], with the fields the response schema
    requires; [det_box_2d] is [[ymin, xmin, ymax, xmax]]. *)
Record DetectedItem := {
  det_translated_text : string;
  det_original_text : option string;
  det_box_2d : R * R * R * R;
  det_text_color : string;
  det_background_color : string
}.

(** What [generateContent] followed by [JSON.parse] can do: throw (also
    for an empty response), or give an object whose [bubbles] field is
    absent or a list. *)
Inductive DetectOutcome :=
  | DetectThrows
  | DetectParsed (detected : option (list DetectedItem)).

(** [`auto-${index}-${Date.now()}`] *)
Definition autoId (index : nat) (now : N) : string :=
  "auto-" +:+ pretty index +:+ "-" +:+ pretty now.

(** [now index] is what [Date.now()] gives when element [index] is mapped.
    [None] stands for the rethrown error. *)
Definition autoDetectAndTranslate (now : nat -> N) (o : DetectOutcome)
  : option (list TextBubble) :=
  match o with
  | DetectThrows => None
  | DetectParsed None => Some []
  | DetectParsed (Some items) =>
      Some (imap (fun index b =>
                    {| bubble_id := autoId index (now index);
                       text := det_translated_text b;
                       originalText := det_original_text b;
                       box := {| ymin := (det_box_2d b).1.1.1;
                                 xmin := (det_box_2d b).1.1.2;
                                 ymax := (det_box_2d b).1.2;
                                 xmax := (det_box_2d b).2 |};
                       isManual := Some false;
                       textColor := Some (det_text_color b);
                       backgroundColor := Some (det_background_color b);
                       shape := None; fontSizeScale := None; fontFamily := None |})
                 items)
  end.

(** No character of the string is a dash. *)
Definition noDash (s : string) : Prop :=
  forall k, String.get k s <> String.get 0 "-".

(** ** End points of the link lines ([getBubbleCenter]) *)

(** In percent of the canvas; the corner (0, 0) when no bubble has the id. *)
Definition getBubbleCenter (id : string) (bs : list TextBubble) : Point :=
  match findBubble id bs with
  | None => {| pt_x := 0; pt_y := 0 |}
  | Some b => {| pt_x := (xmin (box b) + xmax (box b)) / 2 / 10;
                 pt_y := (ymin (box b) + ymax (box b)) / 2 / 10 |}
  end.

(** ** The pointer arithmetic in IEEE doubles

    The expressions of [getRelativeCoords], of the grab offset that
    [handleMouseDown] records, of the dragging branch of [handleMouseMove]
    and of the size test of [handleMouseUp], evaluated in binary64 with
    round-to-nearest, as the program evaluates them. *)
Module Doubles.
Import PrimFloat.

(** [Math.max] and [Math.min] of two numbers. *)
Definition max (a b : float) : float :=
  if is_nan a || is_nan b then nan
  else if (a <? b)%float then b
  else if (b <? a)%float then a
  else if get_sign a then b else a.

Definition min (a b : float) : float :=
  if is_nan a || is_nan b then nan
  else if (a <? b)%float then a
  else if (b <? a)%float then b
  else if get_sign a then a else b.

Record BoundingBox := { ymin : float; xmin : float; ymax : float; xmax : float }.

Record Point := { pt_x : float; pt_y : float }.

Record DOMRect := {
  rect_left : float; rect_top : float; rect_width : float; rect_height : float
}.

Definition getRelativeCoords (rect : DOMRect) (clientX clientY : float) : Point :=
  {| pt_x := max 0 (min 1 ((clientX - rect_left rect) / rect_width rect));
     pt_y := max 0 (min 1 ((clientY - rect_top rect) / rect_height rect)) |}.

(** The argument of [setDragOffset] in [handleMouseDown]. *)
Definition grabOffset (coords : Point) (b : BoundingBox) : Point :=
  {| pt_x := pt_x coords - xmin b / 1000;
     pt_y := pt_y coords - ymin b / 1000 |}.

(** The new box of the dragged bubble. *)
Definition dragBox (off coords : Point) (b : BoundingBox) : BoundingBox :=
  let width := (xmax b - xmin b)%float in
  let height := (ymax b - ymin b)%float in
  let newXmin := ((pt_x coords - pt_x off) * 1000)%float in
  let newYmin := ((pt_y coords - pt_y off) * 1000)%float in
  {| xmin := newXmin; ymin := newYmin;
     xmax := newXmin + width; ymax := newYmin + height |}.

(** [(x2 - x1) < 0.01 || (y2 - y1) < 0.01] in [handleMouseUp]. *)
Definition belowThreshold (start current : Point) : bool :=
  let x1 := min (pt_x start) (pt_x current) in
  let x2 := max (pt_x start) (pt_x current) in
  let y1 := min (pt_y start) (pt_y current) in
  let y2 := max (pt_y start) (pt_y current) in
  (x2 - x1 <? 0.01)%float || (y2 - y1 <? 0.01)%float.

(** A content rectangle of 1000 by 1000 pixels at the window origin and a
    box of 200 by 200 units at (100, 100). *)
Definition demoRect : DOMRect :=
  {| rect_left := 0; rect_top := 0; rect_width := 1000; rect_height := 1000 |}.

Definition demoBox : BoundingBox :=
  {| ymin := 100; xmin := 100; ymax := 300; xmax := 300 |}.

End Doubles.

(** The session [demoState] with the draw tool, after a rectangle has been
    drawn from (100, 100) to (500, 500): the placeholder is in the store,
    nothing is committed. *)
Definition demoDrawn : EditorState :=
  handleMouseUp true "1700000000000"
    (moveFrames [(demoRect, mouseAt 500 500)]
       (handleMouseDown demoRect (mouseAt 100 100) (setTool draw demoState))).

(** * Theorems *)

(** ** History manager *)

Section History.

Implicit Types (st : EditorState) (s : list TextBubble).

Lemma addToHistory_wf st s : history_wf st -> history_wf (addToHistory s st).
Proof.
unfold history_wf; simpl. rewrite length_app, length_take; simpl. lia.
Qed.

(** What an undo that does not throw gives. *)
Lemma handleUndo_Some st st' :
  handleUndo st = Some st' ->
  history st' = history st /\ historyIndex st' = historyIndex st - 1 /\
  (0 < historyIndex st ->
     history st !! (historyIndex st - 1) = Some (bubbles st') /\
     st' = setBubbles (bubbles st') (setHistoryIndex (historyIndex st - 1) st)) /\
  (historyIndex st = 0 -> st' = st).
Proof.
unfold handleUndo. case_bool_decide as Hpos.
- destruct (history st !! (historyIndex st - 1)) as [snap|] eqn:Hl; [|done].
  intros [= <-]. simpl. split; [done|]. split; [done|]. split; [done|lia].
- intros [= <-]. split; [done|]. split; [lia|]. split; [lia|done].
Qed.

(** An undo throws exactly when the index is two or more past the last
    entry of the history. *)
Lemma handleUndo_None st :
  handleUndo st = None <->
  0 < historyIndex st /\ length (history st) <= historyIndex st - 1.
Proof.
unfold handleUndo. case_bool_decide as Hpos.
- destruct (history st !! (historyIndex st - 1)) as [snap|] eqn:Hl.
  + apply lookup_lt_Some in Hl. split; [done|lia].
  + apply lookup_ge_None in Hl. split; [done|]. intros _. done.
- split; [done|lia].
Qed.

Lemma handleUndo_defined st : history_wf st -> is_Some (handleUndo st).
Proof.
unfold history_wf. intros Hwf.
destruct (handleUndo st) as [st'|] eqn:Hu; [by eexists|].
apply handleUndo_None in Hu. lia.
Qed.

Lemma handleUndo_wf st st' :
  history_wf st -> handleUndo st = Some st' -> history_wf st'.
Proof.
unfold history_wf. intros Hwf Hu.
apply handleUndo_Some in Hu as (-> & -> & _). lia.
Qed.

(** Under the guard of [handleRedo] the entry at the new index exists. *)
Lemma handleRedo_lookup st :
  historyIndex st < length (history st) - 1 ->
  exists snap, history st !! (historyIndex st + 1) = Some snap /\
    handleRedo st = setBubbles snap (setHistoryIndex (historyIndex st + 1) st).
Proof.
intros Hguard.
destruct (lookup_lt_is_Some_2 (history st) (historyIndex st + 1)) as [snap Hl]; [lia|].
exists snap. split; [done|]. unfold handleRedo.
by rewrite bool_decide_eq_true_2, Hl.
Qed.

Lemma handleRedo_history st : history (handleRedo st) = history st.
Proof.
unfold handleRedo. case_bool_decide; [|done].
by destruct (history st !! (historyIndex st + 1)).
Qed.

Lemma handleRedo_wf st : history_wf st -> history_wf (handleRedo st).
Proof.
unfold history_wf, handleRedo. case_bool_decide; [|done].
destruct (history st !! (historyIndex st + 1)); simpl; lia.
Qed.

Lemma addToHistory_in_sync st s :
  history_wf st -> in_sync (addToHistory s st).
Proof.
unfold history_wf, in_sync; simpl. intros Hwf.
rewrite lookup_app_r; rewrite length_take; [|lia].
replace (_ - _) with 0 by lia. reflexivity.
Qed.

Lemma handleUndo_in_sync st st' :
  in_sync st -> handleUndo st = Some st' -> in_sync st'.
Proof.
unfold in_sync. intros Hs Hu.
destruct (decide (0 < historyIndex st)) as [Hpos|Hzero].
- apply handleUndo_Some in Hu as (-> & -> & Hsnap & _).
  by destruct (Hsnap Hpos) as [-> _].
- apply handleUndo_Some in Hu as (_ & _ & _ & Hsame).
  by rewrite Hsame by lia.
Qed.

Lemma handleRedo_in_sync st :
  in_sync st -> in_sync (handleRedo st).
Proof.
unfold in_sync. intros Hs.
destruct (decide (historyIndex st < length (history st) - 1)) as [Hguard|Hend].
- destruct (handleRedo_lookup st Hguard) as (snap & Hl & ->). done.
- unfold handleRedo. by rewrite bool_decide_eq_false_2.
Qed.

(** A run of commits of the current render, undos, redos and previews
    never throws and keeps the index inside the history. *)
Lemma runHistory_wf ops st :
  history_wf st -> exists st', runHistory ops st = Some st' /\ history_wf st'.
Proof.
revert st. induction ops as [|op ops IH]; intros st Hwf; [by exists st|].
cbn [runHistory]. destruct op; cbn [historyStep mbind option_bind].
- apply IH. by apply addToHistory_wf.
- destruct (handleUndo_defined st Hwf) as [st1 Hu]. rewrite Hu. simpl.
  apply IH. by eapply handleUndo_wf.
- apply IH. by apply handleRedo_wf.
- by apply IH.
Qed.

Lemma runHistory_in_sync ops st st' :
  forallb (fun op => negb (isLiveEdit op)) ops = true ->
  history_wf st -> in_sync st -> runHistory ops st = Some st' -> in_sync st'.
Proof.
revert st. induction ops as [|op ops IH]; intros st Hno Hwf Hs Hrun.
{ by injection Hrun as <-. }
simpl in Hno. apply andb_prop in Hno as [Hop Hno].
cbn [runHistory] in Hrun.
destruct op; cbn [historyStep mbind option_bind] in Hrun; try discriminate.
- apply (IH (addToHistory snapshot st));
    [done|by apply addToHistory_wf|by apply addToHistory_in_sync|done].
- destruct (handleUndo st) as [st1|] eqn:Hu; [|done]. simpl in Hrun.
  apply (IH st1); [done|by eapply handleUndo_wf|by eapply handleUndo_in_sync|done].
- apply (IH (handleRedo st));
    [done|by apply handleRedo_wf|by apply handleRedo_in_sync|done].
Qed.

Lemma initialState_wf : history_wf initialState.
Proof. unfold history_wf; simpl; lia. Qed.

Lemma initialState_in_sync : in_sync initialState.
Proof. reflexivity. Qed.

(** At the last index a commit appends. *)
Lemma commits_at_end snaps st :
  historyIndex st + 1 = length (history st) ->
  history (commits snaps st) = history st ++ snaps /\
  historyIndex (commits snaps st) = historyIndex st + length snaps.
Proof.
revert st. induction snaps as [|b snaps IH]; intros st Hend; simpl.
- rewrite app_nil_r. split; [reflexivity|lia].
- destruct (IH (addToHistory b st)) as [Hh Hi].
  + simpl. rewrite length_app, length_take. simpl. lia.
  + unfold commits in *. rewrite Hh, Hi. simpl.
    rewrite Hend, firstn_all, <- app_assoc. simpl. split; [reflexivity|lia].
Qed.

(** [k] undos from a state whose index is inside the history. *)
Lemma undos_wf k st :
  history_wf st ->
  exists st', undos k st = Some st' /\
    history st' = history st /\ historyIndex st' = historyIndex st - k /\
    (0 < k -> k <= historyIndex st ->
     history st !! (historyIndex st - k) = Some (bubbles st')).
Proof.
revert st. induction k as [|k IH]; intros st Hwf.
{ exists st. split; [done|]. split; [done|]. split; [lia|lia]. }
destruct (handleUndo_defined st Hwf) as [st1 Hu].
cbn [undos]. rewrite Hu. cbn [mbind option_bind].
pose proof (handleUndo_wf st st1 Hwf Hu) as Hwf1.
destruct (IH st1 Hwf1) as (st' & Hrun & Hh & Hi & Hb).
apply handleUndo_Some in Hu as (Hh1 & Hi1 & Hsnap & _).
exists st'. split; [done|]. split; [by rewrite Hh|]. split; [lia|].
intros _ Hle. destruct k as [|k].
- injection Hrun as <-. by destruct (Hsnap ltac:(lia)) as [Hs1 _].
- rewrite Hh1, Hi1 in Hb. rewrite <- (Hb ltac:(lia) ltac:(lia)).
  f_equal. lia.
Qed.

(** Redo does nothing in a state whose index is the last one. *)
Lemma handleRedo_at_end st :
  historyIndex st + 1 = length (history st) -> handleRedo st = st.
Proof.
intros Hend. unfold handleRedo. case_bool_decide; [lia|reflexivity].
Qed.

(** The linear-undo law for a commit made by a handler of the current
    render: after N such commits and k undos (k <= N) a new one keeps the
    history up to the current index, drops everything after it, appends the
    new snapshot and advances the index to the last position; redo then
    changes nothing. *)
Lemma commit_discards_redo_branch
    (snaps : list (list TextBubble)) (k : nat) (s : list TextBubble) :
  k <= length snaps ->
  exists st,
    undos k (commits snaps initialState) = Some st /\
    let st' := addToHistory s st in
    history st = [] :: snaps /\
    historyIndex st = length snaps - k /\
    history st' = take (historyIndex st + 1) (history st) ++ [s] /\
    history st' = ([] :: take (length snaps - k) snaps) ++ [s] /\
    historyIndex st' = historyIndex st + 1 /\
    historyIndex st' + 1 = length (history st') /\
    bubbles st' = s /\
    handleRedo st' = st'.
Proof.
intros Hk.
destruct (commits_at_end snaps initialState eq_refl) as [Hh Hi].
assert (Hwf : history_wf (commits snaps initialState)).
{ unfold history_wf. rewrite Hh, Hi. simpl. lia. }
destruct (undos_wf k _ Hwf) as (st & Hrun & Hhist & Hidx & _).
exists st. split; [done|]. intros st'.
rewrite Hh in Hhist. rewrite Hi in Hidx. simpl in Hhist, Hidx.
assert (Hend : historyIndex st' + 1 = length (history st')).
{ unfold st'; simpl. rewrite length_app, length_take, Hhist, Hidx. simpl. lia. }
split; [done|]. split; [lia|]. split; [done|]. split.
{ unfold st'; simpl. rewrite Hhist, Hidx.
  replace (length snaps - k + 1) with (S (length snaps - k)) by lia.
  reflexivity. }
split; [done|]. split; [done|]. split; [done|].
by apply handleRedo_at_end.
Qed.

(** C2 (the code misses the claim): three commits, a click on Scan, two
    undos while the scan is awaited, then the scan's answer.  The commit of
    the answer slices the history at the index the click closed over (3)
    and increments the current index (1): the history keeps the two
    snapshots that were undone and gets a fifth entry, the index is 2, it no
    longer points at the snapshot the store shows, and redo is available and
    brings back the third of the old commits. *)
Theorem stale_commit_keeps_redo_branch :
  let one := [plainBubble "a" "one"] in
  let two := [plainBubble "a" "one"; plainBubble "b" "two"] in
  let three := [plainBubble "a" "one"; plainBubble "b" "two"; plainBubble "c" "three"] in
  let click := commits [one; two; three] initialState in
  exists st,
    undos 2 (setIsProcessing true click) = Some st /\
    historyIndex click = 3 /\ historyIndex st = 1 /\ bubbles st = one /\
    let st' := scanFinished click (Some [demoBubble]) st in
    history st' = [[]; one; two; three; three ++ [processDetected demoBubble]] /\
    historyIndex st' = 2 /\
    bubbles st' = three ++ [processDetected demoBubble] /\
    history st' !! historyIndex st' = Some two /\
    historyIndex (handleRedo st') = 3 /\
    bubbles (handleRedo st') = three /\
    history (addToHistory (bubbles st') st)
    = [[]; one; three ++ [processDetected demoBubble]].
Proof.
intros one two three click.
eexists. split; [reflexivity|]. repeat split.
Qed.

(** C3 (amended): in every state reached from the initial one by commits of
  the current render, undos, redos and uncommitted previews, no undo
  throws, and if the index is above 0 then undo followed by redo gives back
  the history and the index and shows the snapshot stored at that index;
  the store before the undo is given back when it showed that snapshot (no
  uncommitted preview), and then the whole state is restored. *)
Theorem undo_then_redo_restores (ops : list HistoryOp) (st : EditorState) :
  runHistory ops initialState = Some st ->
  0 < historyIndex st ->
  exists st1,
    handleUndo st = Some st1 /\
    let st' := handleRedo st1 in
    history st' = history st /\
    historyIndex st' = historyIndex st /\
    history st !! historyIndex st = Some (bubbles st') /\
    (in_sync st -> st' = st) /\
    (forallb (fun op => negb (isLiveEdit op)) ops = true -> st' = st).
Proof.
intros Hrun Hpos.
destruct (runHistory_wf ops initialState initialState_wf) as (st0 & Hrun0 & Hwf).
rewrite Hrun in Hrun0. injection Hrun0 as <-.
destruct (handleUndo_defined st Hwf) as [st1 Hu].
exists st1. split; [done|]. intros st'.
pose proof (handleUndo_Some st st1 Hu) as (Hh1 & Hi1 & Hsnap & _).
destruct (Hsnap Hpos) as [_ Hst1].
unfold history_wf in Hwf.
destruct (lookup_lt_is_Some_2 (history st) (historyIndex st) Hwf) as [cur Hcur].
assert (Hst' : st' = setBubbles cur st).
{ unfold st'.
  destruct (handleRedo_lookup st1) as (snap & Hl & ->); [rewrite Hh1, Hi1; lia|].
  rewrite Hh1, Hi1 in Hl.
  replace (historyIndex st - 1 + 1) with (historyIndex st) in * by lia.
  rewrite Hcur in Hl. injection Hl as <-.
  rewrite Hst1. unfold setBubbles, setHistoryIndex; simpl.
  replace (historyIndex st - 1 + 1) with (historyIndex st) by lia.
  reflexivity. }
assert (Hsync : in_sync st -> st' = st).
{ unfold in_sync. intros Hs. rewrite Hst'.
  rewrite Hcur in Hs. injection Hs as ->. by destruct st. }
rewrite Hst'. simpl. split; [done|]. split; [done|]. split; [done|].
rewrite <- Hst'. split; [done|].
intros Hno. apply Hsync.
eapply runHistory_in_sync; [done|apply initialState_wf|apply initialState_in_sync|done].
Qed.

Lemma undo_then_redo_restores_witness :
  runHistory [Commit []; Commit []; Undo] initialState
  = Some (setBubbles [] (setHistoryIndex 1 (commits [[]; []] initialState))) /\
  0 < historyIndex (setBubbles [] (setHistoryIndex 1 (commits [[]; []] initialState))) /\
  exists st1,
    handleUndo (setBubbles [] (setHistoryIndex 1 (commits [[]; []] initialState)))
    = Some st1 /\
    handleRedo st1 = setBubbles [] (setHistoryIndex 1 (commits [[]; []] initialState)).
Proof.
assert (H1 : runHistory [Commit []; Commit []; Undo] initialState
             = Some (setBubbles [] (setHistoryIndex 1 (commits [[]; []] initialState))))
  by reflexivity.
assert (H2 : 0 < historyIndex
                   (setBubbles [] (setHistoryIndex 1 (commits [[]; []] initialState))))
  by (simpl; lia).
split; [exact H1|]. split; [exact H2|].
destruct (undo_then_redo_restores [Commit []; Commit []; Undo] _ H1 H2)
  as (st1 & Hu & _ & _ & _ & _ & Hall).
exists st1. split; [exact Hu|exact (Hall eq_refl)].
Defined.

End History.

(** ** Pointer gestures: resize and drag *)

Ltac solve_minmax :=
unfold Rmin, Rmax; repeat (destruct (Rle_dec _ _)); simpl; lra.

Section Gestures.

Implicit Types (st : EditorState) (b : BoundingBox) (tb : TextBubble).

Lemma resizeBox_ordered h c b : boxOrdered b -> boxOrdered (resizeBox h c b).
Proof.
unfold boxOrdered, resizeBox. intros [Hx Hy].
repeat (destruct (String.eqb h _)); simpl; split; solve_minmax.
Qed.

Lemma dragBox_ordered off c b : boxOrdered b -> boxOrdered (dragBox off c b).
Proof.
unfold boxOrdered, dragBox. intros [Hx Hy]. simpl. split; lra.
Qed.

Lemma applyMove_ordered b m : boxOrdered b -> boxOrdered (applyMove b m).
Proof.
destruct m; simpl; [apply resizeBox_ordered|apply dragBox_ordered].
Qed.

Lemma dragBox_size off c b :
  (xmax (dragBox off c b) - xmin (dragBox off c b) = xmax b - xmin b)%R /\
  (ymax (dragBox off c b) - ymin (dragBox off c b) = ymax b - ymin b)%R.
Proof. unfold dragBox; simpl. split; lra. Qed.

(** The boxes of a frame: each bubble keeps its box or gets the box one
    [BoxMove] gives it. *)
Lemma handleMouseMove_boxes rect e st i tb :
  bubbles st !! i = Some tb ->
  exists tb', bubbles (handleMouseMove rect e st) !! i = Some tb' /\
    (box tb' = box tb \/ exists m, box tb' = applyMove (box tb) m).
Proof.
intros Hi. unfold handleMouseMove.
destruct (isPanning (view st)); [eauto|].
destruct (truthy (resizingId (gesture st)) && truthy (resizeHandle (gesture st))).
{ simpl. rewrite list_lookup_fmap, Hi. simpl. eexists; split; [reflexivity|].
  case_bool_decide; [by left|]. right.
  by exists (ResizeMove (default "" (resizeHandle (gesture st)))
                        (getRelativeCoords rect e)). }
destruct (dragOffset (gesture st)) as [off|].
- destruct (truthy (draggingId (gesture st))).
  + simpl. rewrite list_lookup_fmap, Hi. simpl. eexists; split; [reflexivity|].
    case_bool_decide; [by left|]. right.
    by exists (DragMove off (getRelativeCoords rect e)).
  + destruct (drawSelection (gesture st)) as [[? ?]|]; eauto.
- destruct (drawSelection (gesture st)) as [[? ?]|]; eauto.
Qed.

Lemma handleMouseMove_length rect e st :
  length (bubbles (handleMouseMove rect e st)) = length (bubbles st).
Proof.
unfold handleMouseMove.
repeat (match goal with
        | |- context [if ?c then _ else _] => destruct c
        | |- context [match ?c with _ => _ end] => destruct c
        end; simpl; rewrite ?length_map; try reflexivity).
Qed.

(** Pointer-move frames never touch the history. *)
Lemma handleMouseMove_history rect e st :
  history (handleMouseMove rect e st) = history st /\
  historyIndex (handleMouseMove rect e st) = historyIndex st.
Proof.
unfold handleMouseMove.
repeat (match goal with
        | |- context [if ?c then _ else _] => destruct c
        | |- context [match ?c with _ => _ end] => destruct c
        end; simpl; try (split; reflexivity)).
Qed.

Lemma moveFrames_history frames st :
  history (moveFrames frames st) = history st /\
  historyIndex (moveFrames frames st) = historyIndex st.
Proof.
revert st. induction frames as [|f frames IH]; intros st; [done|].
simpl. destruct (IH (handleMouseMove f.1 f.2 st)) as [-> ->].
apply handleMouseMove_history.
Qed.

Lemma handleMouseMove_all_ordered rect e st :
  Forall (fun tb => boxOrdered (box tb)) (bubbles st) ->
  Forall (fun tb => boxOrdered (box tb)) (bubbles (handleMouseMove rect e st)).
Proof.
rewrite !Forall_lookup. intros Hall i tb' Hi'.
assert (Hlt : i < length (bubbles st)).
{ rewrite <- (handleMouseMove_length rect e). by eapply lookup_lt_Some. }
destruct (lookup_lt_is_Some_2 _ _ Hlt) as [tb Hi].
destruct (handleMouseMove_boxes rect e st i tb Hi) as (tb2 & Hi2 & Hbox).
rewrite Hi' in Hi2. injection Hi2 as <-.
specialize (Hall i tb Hi). simpl in Hall.
destruct Hbox as [-> | [m ->]]; [done|by apply applyMove_ordered].
Qed.

(** C1 (amended): resize and drag frames keep every box ordered, at the
  level of one box under any sequence of frames and at the level of the
  store under any sequence of pointer-move events; nothing keeps the
  coordinates inside [0, 1000]. *)
Theorem moves_keep_box_ordered
    (ms : list BoxMove) (b : BoundingBox)
    (frames : list (option DOMRect * MouseEvent)) (st : EditorState) :
  boxOrdered b ->
  Forall (fun tb => boxOrdered (box tb)) (bubbles st) ->
  boxOrdered (applyMoves ms b) /\
  Forall (fun tb => boxOrdered (box tb)) (bubbles (moveFrames frames st)).
Proof.
intros Hb Hst. split.
- revert b Hb. induction ms as [|m ms IH]; intros b Hb; [done|].
  simpl. apply IH. by apply applyMove_ordered.
- revert st Hst. induction frames as [|f frames IH]; intros st Hst; [done|].
  simpl. apply IH. by apply handleMouseMove_all_ordered.
Qed.

End Gestures.

Section GestureCommits.

Implicit Types (st : EditorState) (tb : TextBubble).

(** Pointer-down on the body of a bubble with the select tool, outside any
    editing session: the drag gesture starts, nothing is committed. *)
Lemma handleMouseDown_starts_drag rect e st tb :
  tool st = select ->
  button e <> 1 ->
  isSpacePressed (view st) = false ->
  truthy (editingId (edit st)) = false ->
  truthy (targetHandle e) = false ->
  List.find (hitTest (getRelativeCoords rect e)) (reverse (bubbles st)) = Some tb ->
  handleMouseDown rect e st =
    setIsDragging false
      (setDragging (Some (bubble_id tb))
         (Some {| pt_x := pt_x (getRelativeCoords rect e) - xmin (box tb) / 1000;
                  pt_y := pt_y (getRelativeCoords rect e) - ymin (box tb) / 1000 |})
         st).
Proof.
intros Htool Hbtn Hspace Hedit Hhandle Hfind. unfold handleMouseDown.
rewrite Htool, Hspace, Hedit, Hhandle, Hfind.
rewrite (bool_decide_eq_false_2 (button e = 1)) by done.
rewrite andb_false_r. reflexivity.
Qed.

(** The state pointer-down leaves: a drag gesture in progress with
    [isDragging] cleared, and the history as it was. *)
Lemma handleMouseDown_drag_state rect e st tb :
  tool st = select ->
  button e <> 1 ->
  isSpacePressed (view st) = false ->
  truthy (editingId (edit st)) = false ->
  truthy (targetHandle e) = false ->
  List.find (hitTest (getRelativeCoords rect e)) (reverse (bubbles st)) = Some tb ->
  isPanning (view st) = false ->
  truthy (resizingId (gesture st)) = false ->
  bubble_id tb <> "" ->
  let st1 := handleMouseDown rect e st in
  dragActive st1 /\ isDragging (gesture st1) = false /\
  history st1 = history st /\ historyIndex st1 = historyIndex st /\
  bubbles st1 = bubbles st.
Proof.
intros Htool Hbtn Hspace Hedit Hhandle Hfind Hpan Hres Hid st1. subst st1.
rewrite (handleMouseDown_starts_drag rect e st tb) by done.
unfold dragActive; simpl. repeat split; try done.
by destruct (String.eqb_spec (bubble_id tb) "").
Qed.

(** Pointer-down on a resize handle with the select tool. *)
Lemma handleMouseDown_starts_resize rect e st :
  tool st = select ->
  button e <> 1 ->
  isSpacePressed (view st) = false ->
  truthy (editingId (edit st)) = false ->
  truthy (targetHandle e) = true ->
  truthy (targetBubbleId e) = true ->
  handleMouseDown rect e st =
    setIsDragging false (setResizing (targetBubbleId e) (targetHandle e) st).
Proof.
intros Htool Hbtn Hspace Hedit Hhandle Hid. unfold handleMouseDown.
rewrite Htool, Hspace, Hedit, Hhandle, Hid.
rewrite (bool_decide_eq_false_2 (button e = 1)) by done.
rewrite andb_false_r. reflexivity.
Qed.

(** A pointer-move frame of a drag gesture. *)
Lemma handleMouseMove_drag rect e st off :
  dragActive st ->
  dragOffset (gesture st) = Some off ->
  handleMouseMove rect e st =
    setBubbles
      (map (fun tb =>
              if bool_decide (Some (bubble_id tb) <> draggingId (gesture st)) then tb
              else setBox (dragBox off (getRelativeCoords rect e) (box tb)) tb)
           (bubbles st))
      (setIsDragging true st).
Proof.
intros (Hpan & Hres & Hdrag & _) Hoff. unfold handleMouseMove.
rewrite Hpan, Hres, Hoff, Hdrag. reflexivity.
Qed.

Lemma handleMouseMove_dragActive rect e st :
  dragActive st -> dragActive (handleMouseMove rect e st).
Proof.
intros Hact. destruct (Hact) as (Hpan & Hres & Hdrag & [off Hoff]).
rewrite (handleMouseMove_drag rect e st off Hact Hoff).
unfold dragActive; simpl. rewrite Hoff. eauto.
Qed.

Lemma handleMouseMove_sets_isDragging rect e st :
  dragActive st -> isDragging (gesture (handleMouseMove rect e st)) = true.
Proof.
intros Hact. destruct (Hact) as (Hpan & Hres & Hdrag & [off Hoff]).
by rewrite (handleMouseMove_drag rect e st off Hact Hoff).
Qed.

Lemma moveFrames_dragActive frames st :
  dragActive st -> dragActive (moveFrames frames st).
Proof.
revert st. induction frames as [|f frames IH]; intros st Hact; [done|].
simpl. apply IH. by apply handleMouseMove_dragActive.
Qed.

Lemma moveFrames_isDragging frames st :
  dragActive st ->
  isDragging (gesture (moveFrames frames st)) =
    match frames with [] => isDragging (gesture st) | _ => true end.
Proof.
revert st. induction frames as [|f frames IH]; intros st Hact; [done|].
simpl. rewrite IH by (by apply handleMouseMove_dragActive).
destruct frames; [|reflexivity].
by apply handleMouseMove_sets_isDragging.
Qed.

(** Pointer-up of a drag gesture commits exactly when [isDragging] is set. *)
Lemma handleMouseUp_drag img now st :
  dragActive st ->
  handleMouseUp img now st =
    setIsDragging false
      (setDragging None None
         (if isDragging (gesture st) then addToHistory (bubbles st) st else st)).
Proof.
intros (Hpan & Hres & Hdrag & _). unfold handleMouseUp.
rewrite Hpan, Hres, Hdrag. reflexivity.
Qed.

(** Pointer-up of a resize gesture commits whatever the box is. *)
Lemma handleMouseUp_resize img now st :
  isPanning (view st) = false ->
  truthy (resizingId (gesture st)) = true ->
  handleMouseUp img now st =
    setResizing None None (addToHistory (bubbles st) st).
Proof.
intros Hpan Hres. unfold handleMouseUp. rewrite Hpan, Hres. reflexivity.
Qed.

(** C6 (amended): pointer-move frames never commit; in a drag gesture, which
  pointer-down leaves with [isDragging] cleared, pointer-up commits the
  store exactly when at least one pointer-move frame arrived in between,
  and leaves the history alone when none did. *)
Theorem drag_commits_iff_moved
    (frames : list (option DOMRect * MouseEvent)) (img : bool) (now : string)
    (st : EditorState) :
  dragActive st ->
  isDragging (gesture st) = false ->
  let st2 := moveFrames frames st in
  let st3 := handleMouseUp img now st2 in
  (history st2 = history st /\ historyIndex st2 = historyIndex st) /\
  (frames = [] ->
     history st3 = history st /\ historyIndex st3 = historyIndex st /\
     bubbles st3 = bubbles st) /\
  (frames <> [] ->
     history st3 = take (historyIndex st + 1) (history st) ++ [bubbles st2] /\
     historyIndex st3 = historyIndex st + 1 /\
     bubbles st3 = bubbles st2).
Proof.
intros Hact Hnot st2 st3.
pose proof (moveFrames_history frames st) as [Hh Hi].
pose proof (moveFrames_dragActive frames st Hact) as Hact2.
pose proof (moveFrames_isDragging frames st Hact) as Hflag.
subst st2 st3. split; [done|].
rewrite (handleMouseUp_drag img now _ Hact2), Hflag. split.
- intros ->. simpl. rewrite Hnot. done.
- intros Hne. destruct frames as [|f frames]; [done|].
  cbn [setIsDragging setDragging setGesture addToHistory addToHistoryFrom history historyIndex bubbles].
  rewrite Hh, Hi. done.
Qed.

End GestureCommits.

Section DragFrame.

Implicit Types (st : EditorState) (tb : TextBubble).

Lemma setBox_same tb : setBox (box tb) tb = tb.
Proof. by destruct tb. Qed.

(** C10 (amended): a pointer-move frame of a drag gesture moves the box of
  the dragged bubble to the pointer and sets its xmax and ymax to the new
  xmin plus the old width and the new ymin plus the old height, so that in
  exact arithmetic, which is what this theorem is about, the width and the
  height are kept (in the doubles of the program they are kept up to the
  rounding of these sums, and not exactly: [drag_rounds_width]); the frame
  changes nothing but the box in the dragged bubble, leaves every bubble
  with another id as it was, and leaves the history, the links, the editing
  session, the viewport and the tool alone. *)
Theorem drag_frame_effect (rect : option DOMRect) (e : MouseEvent) (st : EditorState) :
  dragActive st ->
  let st' := handleMouseMove rect e st in
  length (bubbles st') = length (bubbles st) /\
  (forall i tb, bubbles st !! i = Some tb ->
     exists tb', bubbles st' !! i = Some tb' /\
       (xmax (box tb') - xmin (box tb') = xmax (box tb) - xmin (box tb))%R /\
       (ymax (box tb') - ymin (box tb') = ymax (box tb) - ymin (box tb))%R /\
       tb' = setBox (box tb') tb /\
       (Some (bubble_id tb) <> draggingId (gesture st) -> tb' = tb)) /\
  history st' = history st /\ historyIndex st' = historyIndex st /\
  links st' = links st /\ edit st' = edit st /\ view st' = view st /\
  tool st' = tool st.
Proof.
intros Hact st'. subst st'.
destruct (Hact) as (_ & _ & _ & [off Hoff]).
rewrite (handleMouseMove_drag rect e st off Hact Hoff). simpl.
split; [by rewrite length_map|]. split; [|done].
intros i tb Hi. rewrite list_lookup_fmap, Hi. simpl.
eexists; split; [reflexivity|]. case_bool_decide as Hid.
- rewrite setBox_same. done.
- destruct (dragBox_size off (getRelativeCoords rect e) (box tb)) as [Hw Hh].
  simpl. repeat split; try done.
Qed.

End DragFrame.

(** ** The concrete session *)

Section Demo.

Lemma demo_coords x y :
  (0 <= x <= 1000)%R -> (0 <= y <= 1000)%R ->
  getRelativeCoords demoRect (mouseAt x y)
  = {| pt_x := x / 1000; pt_y := y / 1000 |}.
Proof.
intros Hx Hy. unfold getRelativeCoords, demoRect, mouseAt; simpl.
f_equal; solve_minmax.
Qed.

(** Pointer-down at (50, 50) grabs the bubble. *)
Lemma demo_down :
  demoGrabbed
  = setIsDragging false
      (setDragging (Some "auto-0-1") (Some demoGrab) demoState).
Proof.
unfold demoGrabbed.
rewrite (handleMouseDown_starts_drag _ _ _ demoBubble); try done.
- rewrite demo_coords by lra. reflexivity.
- rewrite demo_coords by lra. simpl. unfold hitTest; simpl.
  rewrite !bool_decide_eq_true_2 by lra. reflexivity.
Qed.

Lemma demo_dragActive : dragActive demoGrabbed.
Proof. rewrite demo_down. unfold dragActive; simpl. eauto. Qed.

Lemma demo_boxOrdered : boxOrdered (box demoBubble).
Proof. unfold boxOrdered; simpl. lra. Qed.

(** One drag frame of the session: the bubble follows the pointer. *)
Lemma demo_drag_frame x y st :
  (0 <= x <= 1000)%R -> (0 <= y <= 1000)%R ->
  dragActive st ->
  draggingId (gesture st) = Some "auto-0-1" ->
  dragOffset (gesture st) = Some demoGrab ->
  forall bx, bubbles st = [setBox bx demoBubble] ->
  bubbles (handleMouseMove demoRect (mouseAt x y) st)
  = [setBox (dragBox demoGrab {| pt_x := x / 1000; pt_y := y / 1000 |} bx)
       demoBubble].
Proof.
intros Hx Hy Hact Hid Hoff bx Hbs.
rewrite (handleMouseMove_drag _ _ _ demoGrab Hact Hoff).
rewrite demo_coords by done. simpl. rewrite Hbs, Hid. reflexivity.
Qed.

Lemma demo_bubbles : bubbles demoGrabbed = [setBox (box demoBubble) demoBubble].
Proof. rewrite demo_down. reflexivity. Qed.

(** C1, as stated, fails: the bubble with box (0,0)-(100,100), grabbed at
  (50,50) and dragged to the corner (0,0) of the canvas, gets the box
  (-50,-50)-(50,50), which leaves the range [0, 1000]. *)
Lemma drag_leaves_canvas :
  boxInvariant (box demoBubble) /\
  map box (bubbles (handleMouseMove demoRect (mouseAt 0 0) demoGrabbed))
  = [demoDraggedOut] /\
  ~ boxInvariant demoDraggedOut.
Proof.
split; [|split].
- unfold boxInvariant, boxOrdered, boxInRange; simpl. lra.
- rewrite (demo_drag_frame 0 0 demoGrabbed) with (bx := box demoBubble);
    [|lra|lra|apply demo_dragActive|by rewrite demo_down
     |by rewrite demo_down|apply demo_bubbles].
  simpl. unfold dragBox; simpl. do 2 f_equal; lra.
- unfold boxInvariant, boxInRange; simpl. lra.
Qed.

Lemma moves_keep_box_ordered_witness :
  boxOrdered (box demoBubble) /\
  Forall (fun tb => boxOrdered (box tb)) (bubbles demoGrabbed) /\
  boxOrdered
    (applyMoves [DragMove demoGrab origin;
                 ResizeMove "nw" {| pt_x := 1; pt_y := 1 |}] (box demoBubble)) /\
  Forall (fun tb => boxOrdered (box tb))
    (bubbles (moveFrames [(demoRect, mouseAt 0 0)] demoGrabbed)).
Proof.
assert (H1 : boxOrdered (box demoBubble)) by apply demo_boxOrdered.
assert (H2 : Forall (fun tb => boxOrdered (box tb)) (bubbles demoGrabbed)).
{ rewrite demo_bubbles. repeat constructor; simpl; lra. }
split; [exact H1|]. split; [exact H2|].
exact (moves_keep_box_ordered
         [DragMove demoGrab origin; ResizeMove "nw" {| pt_x := 1; pt_y := 1 |}]
         (box demoBubble) [(demoRect, mouseAt 0 0)] demoGrabbed H1 H2).
Defined.

(** C6, as stated, fails: the bubble is grabbed at (50,50), moved to (60,50)
  and back to (50,50), and released; its box is the one it had at
  pointer-down, yet pointer-up adds a history entry. *)
Lemma unchanged_drag_commits :
  let st2 := moveFrames [(demoRect, mouseAt 60 50); (demoRect, mouseAt 50 50)]
               demoGrabbed in
  let st3 := handleMouseUp true "1700000000000" st2 in
  bubbles st2 = bubbles demoGrabbed /\
  length (history demoGrabbed) = 2 /\
  length (history st3) = 3 /\
  historyIndex st3 = historyIndex demoGrabbed + 1.
Proof.
intros st2 st3.
pose proof (moveFrames_history
              [(demoRect, mouseAt 60 50); (demoRect, mouseAt 50 50)]
              demoGrabbed) as [Hh Hi].
pose proof (moveFrames_dragActive
              [(demoRect, mouseAt 60 50); (demoRect, mouseAt 50 50)]
              demoGrabbed demo_dragActive) as Hact2.
pose proof (moveFrames_isDragging
              [(demoRect, mouseAt 60 50); (demoRect, mouseAt 50 50)]
              demoGrabbed demo_dragActive) as Hflag.
fold st2 in Hh, Hi, Hact2, Hflag.
assert (Hst2 : bubbles st2 = bubbles demoGrabbed).
{ unfold st2, moveFrames; simpl.
  pose proof (handleMouseMove_dragActive demoRect (mouseAt 60 50) _
                demo_dragActive) as Hact1.
  pose proof (demo_drag_frame 60 50 demoGrabbed) as Hb1.
  specialize (Hb1 ltac:(lra) ltac:(lra) demo_dragActive).
  rewrite demo_down in Hb1 at 1 2. specialize (Hb1 eq_refl eq_refl _ demo_bubbles).
  rewrite (demo_drag_frame 50 50 _ ltac:(lra) ltac:(lra) Hact1) with (bx :=
    dragBox demoGrab {| pt_x := 60 / 1000; pt_y := 50 / 1000 |} (box demoBubble)).
  - rewrite demo_bubbles. unfold dragBox, setBox, demoBubble; simpl.
    do 2 f_equal. f_equal; lra.
  - rewrite (handleMouseMove_drag _ _ _ demoGrab demo_dragActive);
      by rewrite demo_down.
  - rewrite (handleMouseMove_drag _ _ _ demoGrab demo_dragActive);
      by rewrite demo_down.
  - exact Hb1. }
split; [exact Hst2|]. unfold st3.
rewrite (handleMouseUp_drag true "1700000000000" st2 Hact2), Hflag.
cbn [setIsDragging setDragging setGesture addToHistory addToHistoryFrom history historyIndex].
rewrite Hh, Hi, demo_down. simpl. done.
Qed.

Lemma drag_commits_iff_moved_witness :
  dragActive demoGrabbed /\ isDragging (gesture demoGrabbed) = false /\
  history (handleMouseUp true "1700000000000" (moveFrames [] demoGrabbed))
  = history demoGrabbed.
Proof.
assert (H1 : dragActive demoGrabbed) by apply demo_dragActive.
assert (H2 : isDragging (gesture demoGrabbed) = false) by (by rewrite demo_down).
split; [exact H1|]. split; [exact H2|].
exact (proj1 (proj1 (proj2 (drag_commits_iff_moved [] true "1700000000000"
                               demoGrabbed H1 H2)) eq_refl)).
Defined.

Lemma drag_frame_effect_witness :
  dragActive demoGrabbed /\
  history (handleMouseMove demoRect (mouseAt 60 50) demoGrabbed)
  = history demoGrabbed.
Proof.
assert (H1 : dragActive demoGrabbed) by apply demo_dragActive.
split; [exact H1|].
exact (proj1 (proj2 (proj2 (drag_frame_effect demoRect (mouseAt 60 50)
                               demoGrabbed H1)))).
Defined.

(** The pointer always lies in the unit square. *)
Lemma getRelativeCoords_inUnitSquare rect e :
  inUnitSquare (getRelativeCoords rect e).
Proof.
unfold inUnitSquare, getRelativeCoords, origin.
destruct rect as [r|]; simpl; [|lra]. split; solve_minmax.
Qed.

(** A resize can leave the canvas as well: the minimum size of 10 pushes the
    moved edge of a smaller box past 0. *)
Example resize_leaves_canvas :
  boxInvariant demoSmallBox /\
  inUnitSquare {| pt_x := 0.003; pt_y := 0.003 |} /\
  xmin (resizeBox "nw" {| pt_x := 0.003; pt_y := 0.003 |} demoSmallBox) = (-5)%R /\
  ~ boxInRange (resizeBox "nw" {| pt_x := 0.003; pt_y := 0.003 |} demoSmallBox).
Proof.
assert (Hx : xmin (resizeBox "nw" {| pt_x := 0.003; pt_y := 0.003 |} demoSmallBox)
             = (-5)%R).
{ unfold resizeBox, demoSmallBox; simpl. solve_minmax. }
split; [unfold boxInvariant, boxOrdered, boxInRange; simpl; lra|].
split; [unfold inUnitSquare; simpl; lra|].
split; [exact Hx|].
unfold boxInRange. rewrite Hx. lra.
Qed.

(** Pointer-down on a resize handle followed at once by pointer-up: no
    bubble has changed, and the history has one more entry. *)
Example resize_click_commits :
  let st1 := handleMouseDown demoRect (mouseOnHandle "se" "auto-0-1" 100 100)
               demoState in
  let st2 := handleMouseUp true "1700000000000" st1 in
  bubbles st2 = bubbles demoState /\
  length (history st2) = S (length (history demoState)).
Proof.
intros st1 st2.
assert (Hst1 : st1 = setIsDragging false
                       (setResizing (Some "auto-0-1") (Some "se") demoState)).
{ unfold st1. by rewrite handleMouseDown_starts_resize. }
unfold st2. rewrite Hst1. by rewrite handleMouseUp_resize.
Qed.

End Demo.

(** ** Font sizing *)

Section FontSize.

Lemma clamp_min_max (x : R) : Rmin (Rmax x 10) 50 = clamp 10 50 x.
Proof.
unfold clamp. repeat case_bool_decide; solve_minmax.
Qed.

Lemma divisor_max (N : nat) : (if bool_decide (N = 0) then 1 else N) = Nat.max N 1.
Proof. case_bool_decide; lia. Qed.

Lemma calculateBaseFontSize_spec (N : nat) (W H : R) :
  calculateBaseFontSize N W H = specBaseSize N W H.
Proof.
unfold calculateBaseFontSize, specBaseSize.
by rewrite divisor_max, clamp_min_max.
Qed.

Lemma calculateBaseFontSize_range (N : nat) (W H : R) :
  (10 <= calculateBaseFontSize N W H <= 50)%R.
Proof. unfold calculateBaseFontSize. solve_minmax. Qed.

(** The preview and the export give a bubble the same pixel font size once
    the image element is mounted. *)
Remark preview_export_same_font_size (naturalWidth : R) (b : TextBubble) :
  previewFontSize (Some naturalWidth) b = exportFontSize naturalWidth b.
Proof. reflexivity. Qed.

(** C9: for a text of length N in a box of width W and height H (of
    non-negative area, where the square root is defined) the base size is
    sqrt((W*H) / max(N,1)) * 0.6 clamped to [10, 50]; for a bubble with that
    text and box whose font scale is a non-zero s, the exported pixel size
    is the base size times (targetPixelWidth / 1000) times s. *)
Theorem font_size_formula
    (N : nat) (W H : R) (b : TextBubble) (targetPixelWidth s : R) :
  (0 <= W * H)%R ->
  String.length (text b) = N ->
  (xmax (box b) - xmin (box b))%R = W ->
  (ymax (box b) - ymin (box b))%R = H ->
  fontSizeScale b = Some s ->
  s <> 0%R ->
  calculateBaseFontSize N W H = specBaseSize N W H /\
  (10 <= calculateBaseFontSize N W H <= 50)%R /\
  exportFontSize targetPixelWidth b
  = (specBaseSize N W H * (targetPixelWidth / 1000) * s)%R.
Proof.
intros _ HN HW HH Hs Hs0. split; [apply calculateBaseFontSize_spec|].
split; [apply calculateBaseFontSize_range|].
unfold exportFontSize, baseFontSizeOf. rewrite HN, HW, HH, Hs. simpl.
rewrite bool_decide_eq_false_2 by done.
by rewrite calculateBaseFontSize_spec.
Qed.

Lemma font_size_formula_witness :
  (0 <= 100 * 100)%R /\
  exportFontSize 2000 demoBubble = (specBaseSize 5 100 100 * (2000 / 1000) * 1)%R.
Proof.
split; [lra|].
apply (font_size_formula 5 100 100 demoBubble 2000 1).
- lra.
- reflexivity.
- simpl; lra.
- simpl; lra.
- reflexivity.
- lra.
Defined.

End FontSize.

Example base_size_30 : calculateBaseFontSize 4 100 100 = 30%R.
Proof.
unfold calculateBaseFontSize. simpl.
replace (100 * 100 / (1 + 1 + 1 + 1))%R with (50 * 50)%R by lra.
rewrite sqrt_square by lra. solve_minmax.
Qed.

Example base_size_empty_text : calculateBaseFontSize 0 1000 1000 = 50%R.
Proof.
unfold calculateBaseFontSize. simpl.
replace (1000 * 1000 / 1)%R with (1000 * 1000)%R by lra.
rewrite sqrt_square by lra. solve_minmax.
Qed.

(** ** Link tool *)

Section Links.

Implicit Types (st : EditorState) (conns : list (string * string)).

Lemma connectionExists_false a id conns :
  connectionExists a id conns = false ->
  ((a, id) ∉ conns) /\ ((id, a) ∉ conns).
Proof.
unfold connectionExists. intros Hex.
assert (Hall : forall c, c ∈ conns ->
          (bool_decide (c.1 = a) && bool_decide (c.2 = id))
          || (bool_decide (c.1 = id) && bool_decide (c.2 = a)) = false).
{ intros c Hc. apply not_true_is_false. intros Hf.
  apply not_true_iff_false in Hex. apply Hex, existsb_exists.
  exists c. split; [by apply list_elem_of_In|exact Hf]. }
split; intros Hin; specialize (Hall _ Hin); simpl in Hall;
  rewrite (bool_decide_eq_true_2 (a = a)), (bool_decide_eq_true_2 (id = id)) in Hall
    by done;
  simpl in Hall; rewrite ?orb_true_r in Hall; done.
Qed.

Lemma linksOk_nil : linksOk [].
Proof.
repeat split.
- intros a b Hin. by apply elem_of_nil in Hin.
- constructor.
- intros a b Hin. by apply elem_of_nil in Hin.
Qed.

Lemma linksOk_snoc conns a id :
  linksOk conns -> a <> id -> (a, id) ∉ conns -> (id, a) ∉ conns ->
  linksOk (conns ++ [(a, id)]).
Proof.
intros (Hloop & Hnd & Hpair) Hne Hn1 Hn2. repeat split.
- intros x y Hin. apply elem_of_app in Hin as [Hin|Hin]; [by apply Hloop|].
  apply list_elem_of_singleton in Hin. by simplify_eq.
- apply NoDup_app. repeat split; [done| |apply NoDup_singleton].
  intros c Hc Hc'. apply list_elem_of_singleton in Hc'. by subst.
- intros x y Hxy Hyx.
  apply elem_of_app in Hxy as [Hxy|Hxy]; apply elem_of_app in Hyx as [Hyx|Hyx];
    rewrite ?list_elem_of_singleton in *; simplify_eq; try done.
  by apply Hpair.
Qed.

Lemma linksOk_filter (P : string * string -> Prop) `{forall c, Decision (P c)} conns :
  linksOk conns -> linksOk (filter P conns).
Proof.
intros (Hloop & Hnd & Hpair). repeat split.
- intros a b Hin. apply list_elem_of_filter in Hin as [_ Hin]. by apply Hloop.
- by apply NoDup_filter.
- intros a b Hab Hba. apply list_elem_of_filter in Hab as [_ Hab].
  apply list_elem_of_filter in Hba as [_ Hba]. by apply Hpair.
Qed.

Lemma handleBubbleConnect_ok id st :
  linksOk (connections (links st)) ->
  linksOk (connections (links (handleBubbleConnect id st))).
Proof.
intros Hok. unfold handleBubbleConnect.
case_bool_decide; [|done].
destruct (activeTreeNode (links st)) as [active|]; [|done].
case_bool_decide as Hne; [done|].
destruct (connectionExists active id (connections (links st))) eqn:Hex; [done|].
simpl. apply connectionExists_false in Hex as [Hn1 Hn2].
by apply linksOk_snoc.
Qed.

Lemma handleBubbleConnect_tool id st : tool (handleBubbleConnect id st) = tool st.
Proof.
unfold handleBubbleConnect.
repeat (match goal with
        | |- context [if ?c then _ else _] => destruct c
        | |- context [match ?c with _ => _ end] => destruct c
        end; simpl; try reflexivity).
Qed.

(** The four cases of a click with the link tool. *)
Lemma connect_first id st :
  tool st = tree -> activeTreeNode (links st) = None ->
  handleBubbleConnect id st = setActiveTreeNode (Some id) st.
Proof. intros Ht Ha. unfold handleBubbleConnect. by rewrite Ht, Ha. Qed.

Lemma connect_same id st :
  tool st = tree -> activeTreeNode (links st) = Some id ->
  handleBubbleConnect id st = setActiveTreeNode None st.
Proof.
intros Ht Ha. unfold handleBubbleConnect. rewrite Ht, Ha; simpl.
by rewrite bool_decide_eq_true_2.
Qed.

Lemma connect_new a id st :
  tool st = tree -> activeTreeNode (links st) = Some a -> a <> id ->
  connectionExists a id (connections (links st)) = false ->
  handleBubbleConnect id st
  = setActiveTreeNode (Some id)
      (setConnections (connections (links st) ++ [(a, id)]) st).
Proof.
intros Ht Ha Hne Hex. unfold handleBubbleConnect. rewrite Ht, Ha, Hex; simpl.
by rewrite bool_decide_eq_false_2.
Qed.

Lemma connect_existing a id st :
  tool st = tree -> activeTreeNode (links st) = Some a -> a <> id ->
  connectionExists a id (connections (links st)) = true ->
  handleBubbleConnect id st = setActiveTreeNode (Some id) st.
Proof.
intros Ht Ha Hne Hex. unfold handleBubbleConnect. rewrite Ht, Ha, Hex; simpl.
by rewrite bool_decide_eq_false_2.
Qed.

Lemma saveEdit_links st : links (saveEdit st) = links st.
Proof.
unfold saveEdit.
repeat (match goal with
        | |- context [if ?c then _ else _] => destruct c
        | |- context [match ?c with _ => _ end] => destruct c
        end; simpl; try reflexivity).
Qed.

(** A pointer-down with the link tool on a bubble is a click on it, and on
    empty space it clears the active node. *)
Lemma handleMouseDown_link_click rect e st tb :
  tool st = tree ->
  button e <> 1 ->
  isSpacePressed (view st) = false ->
  truthy (editingId (edit st)) = false ->
  List.find (hitTest (getRelativeCoords rect e)) (reverse (bubbles st)) = Some tb ->
  handleMouseDown rect e st = handleBubbleConnect (bubble_id tb) st.
Proof.
intros Htool Hbtn Hspace Hedit Hfind. unfold handleMouseDown.
rewrite Htool, Hspace, Hedit, Hfind.
rewrite (bool_decide_eq_false_2 (button e = 1)) by done.
rewrite andb_false_r. reflexivity.
Qed.

Lemma handleMouseDown_link_empty rect e st :
  tool st = tree ->
  button e <> 1 ->
  isSpacePressed (view st) = false ->
  truthy (editingId (edit st)) = false ->
  List.find (hitTest (getRelativeCoords rect e)) (reverse (bubbles st)) = None ->
  handleMouseDown rect e st = setActiveTreeNode None (setEditingId None st).
Proof.
intros Htool Hbtn Hspace Hedit Hfind. unfold handleMouseDown.
rewrite Htool, Hspace, Hedit, Hfind.
rewrite (bool_decide_eq_false_2 (button e = 1)) by done.
rewrite andb_false_r. reflexivity.
Qed.

Lemma handleMouseDown_linksOk rect e st :
  linksOk (connections (links st)) ->
  linksOk (connections (links (handleMouseDown rect e st))).
Proof.
intros Hok. unfold handleMouseDown.
destruct (_ || _ || _); [done|].
assert (Hsaved : linksOk (connections (links (saveEdit st))))
  by (by rewrite saveEdit_links).
destruct (truthy (editingId (edit st))); cbn [andb].
- destruct (inEditingToolbar e || inEditingBubble e); [done|].
  destruct (_ && _ && _); [done|].
  destruct (_ || _).
  + destruct (List.find _ _) as [tb|].
    * case_bool_decide; [by apply handleBubbleConnect_ok|done].
    * by repeat case_bool_decide.
  + by case_bool_decide.
- destruct (_ && _ && _); [done|].
  destruct (_ || _).
  + destruct (List.find _ _) as [tb|].
    * case_bool_decide; [by apply handleBubbleConnect_ok|done].
    * by repeat case_bool_decide.
  + by case_bool_decide.
Qed.

Lemma linkStep_ok st ev :
  linksOk (connections (links st)) ->
  linksOk (connections (links (linkStep st ev))).
Proof.
intros Hok. destruct ev as [id| |rect e|id|t]; simpl.
- by apply handleBubbleConnect_ok.
- by case_bool_decide.
- by apply handleMouseDown_linksOk.
- by apply linksOk_filter.
- done.
Qed.

Lemma runLinks_ok evs st :
  linksOk (connections (links st)) ->
  linksOk (connections (links (runLinks evs st))).
Proof.
revert st. induction evs as [|ev evs IH]; intros st Hok; [done|].
simpl. apply IH. by apply linkStep_ok.
Qed.

(** C7: whatever is clicked, pressed, deleted or selected, starting from no
    links, the link set has no self-loop and at most one link per unordered
    pair;
    clicking three different bubbles A, B, C with the link tool gives
    [(A,B),(B,C)], and after the active node is cleared (a click on empty
    space, or a second click on C) clicking A and then B adds nothing. *)
Theorem link_set_invariant (evs : list LinkEvent) (A B C : string) :
  A <> B -> B <> C -> A <> C ->
  let st0 := setTool tree initialState in
  let st3 := runLinks [ClickBubble A; ClickBubble B; ClickBubble C] st0 in
  (noSelfLoop (connections (links (runLinks evs initialState))) /\
   onePerPair (connections (links (runLinks evs initialState)))) /\
  (connections (links st3) = [(A, B); (B, C)] /\
   activeTreeNode (links st3) = Some C) /\
  connections (links (runLinks [ClickEmpty; ClickBubble A; ClickBubble B] st3))
  = [(A, B); (B, C)] /\
  connections (links (runLinks [ClickBubble C; ClickBubble A; ClickBubble B] st3))
  = [(A, B); (B, C)].
Proof.
intros HAB HBC HAC st0 st3. split; [apply runLinks_ok, linksOk_nil|].
assert (Hex : connectionExists A B [(A, B); (B, C)] = true).
{ unfold connectionExists; simpl. by rewrite !bool_decide_eq_true_2 by done. }
assert (Hst3 : st3 = setLinks {| connections := [(A, B); (B, C)];
                                 activeTreeNode := Some C |} st0).
{ unfold st3, runLinks; simpl.
  rewrite (connect_first A st0) by done.
  rewrite (connect_new A B) by done.
  rewrite (connect_new B C); try done.
  unfold connectionExists; simpl.
  rewrite (bool_decide_eq_false_2 (A = B)), (bool_decide_eq_false_2 (A = C)) by done.
  reflexivity. }
split; [by rewrite Hst3|]. rewrite Hst3. unfold runLinks; simpl. split.
- rewrite (connect_first A) by done.
  by rewrite (connect_existing A B).
- rewrite (connect_same C) by done.
  rewrite (connect_first A) by done.
  by rewrite (connect_existing A B).
Qed.

Lemma link_set_invariant_witness :
  ("a" <> "b") /\ ("b" <> "c") /\ ("a" <> "c") /\
  connections
    (links (runLinks [ClickBubble "a"; ClickBubble "b"; ClickBubble "c"]
              (setTool tree initialState)))
  = [("a", "b"); ("b", "c")].
Proof.
assert (H1 : "a" <> "b") by discriminate.
assert (H2 : "b" <> "c") by discriminate.
assert (H3 : "a" <> "c") by discriminate.
repeat (split; [done|]).
exact (proj1 (proj1 (proj2 (link_set_invariant [] "a" "b" "c" H1 H2 H3)))).
Defined.

End Links.

(** ** Chain decomposition *)

Section Chains.

Implicit Types (conns : list (string * string)) (adj : gmap string (list string))
  (visited nodes : gset string) (path : list string).

Lemma elem_of_setAdd x y (s : list string) : y ∈ setAdd x s <-> y = x \/ y ∈ s.
Proof.
unfold setAdd. case_bool_decide.
- split; [by right|]. intros [->|]; done.
- rewrite elem_of_app, list_elem_of_singleton. tauto.
Qed.

Lemma NoDup_setAdd x (s : list string) : NoDup s -> NoDup (setAdd x s).
Proof.
intros Hnd. unfold setAdd. case_bool_decide; [done|].
apply NoDup_app. repeat split; [done| |apply NoDup_singleton].
intros y Hy Hy'. apply list_elem_of_singleton in Hy'. by subst.
Qed.

Lemma nodesOf_snoc conns c :
  nodesOf (conns ++ [c]) = setAdd c.2 (setAdd c.1 (nodesOf conns)).
Proof. unfold nodesOf. by rewrite foldl_app. Qed.

Lemma NoDup_nodesOf conns : NoDup (nodesOf conns).
Proof.
induction conns as [|c conns IH] using rev_ind; [constructor|].
rewrite nodesOf_snoc. by do 2 apply NoDup_setAdd.
Qed.

Lemma elem_of_nodesOf conns x :
  x ∈ nodesOf conns <-> exists c, c ∈ conns /\ (x = c.1 \/ x = c.2).
Proof.
induction conns as [|c conns IH] using rev_ind.
- split; [intros H; by apply elem_of_nil in H|].
  intros (c & Hc & _). by apply elem_of_nil in Hc.
- rewrite nodesOf_snoc, !elem_of_setAdd, IH. split.
  + intros [->|[->|(c' & Hc' & Hx)]].
    * exists c. split; [apply elem_of_app; right; by apply list_elem_of_singleton|tauto].
    * exists c. split; [apply elem_of_app; right; by apply list_elem_of_singleton|tauto].
    * exists c'. split; [apply elem_of_app; by left|done].
  + intros (c' & Hc' & Hx). apply elem_of_app in Hc' as [Hc'|Hc'].
    * right; right. by exists c'.
    * apply list_elem_of_singleton in Hc'. subst c'. tauto.
Qed.

(** Lookups in the adjacency list after one more link. *)
Lemma adjStep_lookup adj from to k outs n :
  adjStep adj (from, to) !! k = Some outs -> n ∈ outs ->
  n = to \/ exists outs', adj !! k = Some outs' /\ n ∈ outs'.
Proof.
unfold adjStep.
set (adj1 := match adj !! from with None => <[from := []]> adj | Some _ => adj end).
set (adj2 := match adj1 !! to with None => <[to := []]> adj1 | Some _ => adj1 end).
assert (H1 : forall k' outs', adj1 !! k' = Some outs' -> n ∈ outs' ->
               exists outs'', adj !! k' = Some outs'' /\ n ∈ outs'').
{ intros k' outs' Hl Hin. unfold adj1 in Hl.
  destruct (adj !! from) eqn:Hf; [eauto|].
  destruct (decide (from = k')) as [->|Hne].
  - rewrite lookup_insert_eq in Hl. injection Hl as <-. by apply elem_of_nil in Hin.
  - rewrite lookup_insert_ne in Hl by done. eauto. }
assert (H2 : forall k' outs', adj2 !! k' = Some outs' -> n ∈ outs' ->
               exists outs'', adj !! k' = Some outs'' /\ n ∈ outs'').
{ intros k' outs' Hl Hin. unfold adj2 in Hl.
  destruct (adj1 !! to) eqn:Ht; [eauto|].
  destruct (decide (to = k')) as [->|Hne].
  - rewrite lookup_insert_eq in Hl. injection Hl as <-. by apply elem_of_nil in Hin.
  - rewrite lookup_insert_ne in Hl by done. eauto. }
intros Hl Hin. destruct (decide (from = k)) as [->|Hne].
- rewrite lookup_insert_eq in Hl. injection Hl as <-.
  apply elem_of_app in Hin as [Hin|Hin].
  + right. destruct (adj2 !! k) as [outs2|] eqn:Hk; simpl in Hin.
    * by apply (H2 k outs2).
    * by apply elem_of_nil in Hin.
  + left. by apply list_elem_of_singleton in Hin.
- rewrite lookup_insert_ne in Hl by done. right. by apply (H2 k outs).
Qed.

Lemma buildAdj_snoc conns c : buildAdj (conns ++ [c]) = adjStep (buildAdj conns) c.
Proof. unfold buildAdj. by rewrite foldl_app. Qed.

Lemma buildAdj_targets conns k outs n :
  buildAdj conns !! k = Some outs -> n ∈ outs -> exists c, c ∈ conns /\ n = c.2.
Proof.
revert k outs. induction conns as [|[from to] conns IH] using rev_ind; intros k outs.
- unfold buildAdj; simpl. by rewrite lookup_empty.
- rewrite buildAdj_snoc. intros Hl Hin.
  destruct (adjStep_lookup _ _ _ _ _ _ Hl Hin) as [->|(outs' & Hl' & Hin')].
  + exists (from, to). split; [|done].
    apply elem_of_app; right. by apply list_elem_of_singleton.
  + destruct (IH _ _ Hl' Hin') as (c & Hc & ->).
    exists c. split; [apply elem_of_app; by left|done].
Qed.

Lemma buildAdj_closed conns :
  adjClosed (buildAdj conns) (list_to_set (nodesOf conns)).
Proof.
intros k outs n Hl Hin.
destruct (buildAdj_targets _ _ _ _ Hl Hin) as (c & Hc & ->).
apply elem_of_list_to_set, elem_of_nodesOf. exists c. tauto.
Qed.

Lemma find_unvisited visited (outs : list string) next :
  List.find (fun n => negb (bool_decide (n ∈ visited))) outs = Some next ->
  next ∈ outs /\ next ∉ visited.
Proof.
intros Hf. apply find_some in Hf as [Hin Hb]. split; [by apply list_elem_of_In|].
apply negb_true_iff in Hb. by apply bool_decide_eq_false in Hb.
Qed.

(** The walk ends before the fuel does, and extends the path by nodes that
    were not visited before, each once. *)
Lemma getChainLoop_spec adj nodes fuel visited path curr :
  adjClosed adj nodes ->
  size (nodes ∖ visited) < fuel ->
  exists ext,
    getChainLoop fuel adj visited path curr
    = Some (path ++ ext, list_to_set ext ∪ visited) /\
    NoDup ext /\ (forall x, x ∈ ext -> x ∉ visited).
Proof.
intros Hclosed. revert visited path curr.
induction fuel as [|fuel IH]; intros visited path curr Hsize; [lia|].
assert (Hstop : exists ext,
          Some (path, visited) = Some (path ++ ext, list_to_set ext ∪ visited) /\
          NoDup ext /\ (forall x, x ∈ ext -> x ∉ visited)).
{ exists []. rewrite app_nil_r. split; [|split; [constructor|]].
  - do 2 f_equal. set_solver.
  - intros x Hx. by apply elem_of_nil in Hx. }
cbn [getChainLoop]. destruct (adj !! curr) as [[|n0 ns]|] eqn:Hadj; [done| |done].
destruct (List.find (fun n => negb (bool_decide (n ∈ visited))) (n0 :: ns))
  as [next|] eqn:Hfind; [|done].
destruct (truthy (Some next)); [|done].
apply find_unvisited in Hfind as [Hin Hnew].
assert (Hnode : next ∈ nodes) by (by eapply Hclosed).
destruct (IH ({[next]} ∪ visited) (path ++ [next]) next) as (ext & Hrun & Hnd & Hfresh).
{ assert (Hsub : nodes ∖ ({[next]} ∪ visited) ⊂ nodes ∖ visited) by set_solver.
  apply subset_size in Hsub. lia. }
exists (next :: ext). rewrite Hrun. split; [|split].
- rewrite <- app_assoc. simpl. do 2 f_equal. set_solver.
- constructor; [|done]. intros Hin'. apply Hfresh in Hin'. set_solver.
- intros x Hx. apply elem_of_cons in Hx as [->|Hx]; [done|].
  apply Hfresh in Hx. set_solver.
Qed.

Lemma getChain_spec adj nodes fuel visited startNode :
  adjClosed adj nodes ->
  size nodes < fuel ->
  startNode ∉ visited ->
  exists ext,
    getChain fuel adj visited startNode
    = Some (startNode :: ext, list_to_set (startNode :: ext) ∪ visited) /\
    NoDup (startNode :: ext) /\ (forall x, x ∈ startNode :: ext -> x ∉ visited).
Proof.
intros Hclosed Hsize Hnew. unfold getChain.
destruct (getChainLoop_spec adj nodes fuel ({[startNode]} ∪ visited) [startNode]
            startNode Hclosed) as (ext & Hrun & Hnd & Hfresh).
{ assert (Hle : size (nodes ∖ ({[startNode]} ∪ visited)) <= size nodes).
  { apply subseteq_size. set_solver. }
  lia. }
exists ext. rewrite Hrun. split; [|split].
- simpl. do 2 f_equal. set_solver.
- constructor; [|done]. intros Hin. apply Hfresh in Hin. set_solver.
- intros x Hx. apply elem_of_cons in Hx as [->|Hx]; [done|].
  apply Hfresh in Hx. set_solver.
Qed.

Lemma chainsDisjoint_snoc (chains : list (list string)) path :
  chainsDisjoint chains ->
  (forall c x, c ∈ chains -> x ∈ c -> x ∉ path) ->
  chainsDisjoint (chains ++ [path]).
Proof.
intros Hdis Hfresh i j c1 c2 x Hi Hj Hx1 Hx2.
apply lookup_snoc_Some in Hi as [[Hilt Hi]|[-> <-]];
  apply lookup_snoc_Some in Hj as [[Hjlt Hj]|[-> <-]].
- by eapply Hdis.
- exfalso. eapply Hfresh; [|exact Hx1|exact Hx2]. by eapply list_elem_of_lookup_2.
- exfalso. eapply Hfresh; [|exact Hx2|exact Hx1]. by eapply list_elem_of_lookup_2.
- done.
Qed.

Lemma visitNode_spec adj nodes fuel acc n :
  adjClosed adj nodes -> size nodes < fuel -> chainsInv nodes acc ->
  exists acc', visitNode fuel adj (Some acc) n = Some acc' /\ chainsInv nodes acc'.
Proof.
intros Hclosed Hsize (Hvis & Hdis & Hall). destruct acc as [visited chains].
simpl in *. case_bool_decide as Hn.
- eexists; split; [reflexivity|]. by repeat split.
- destruct (getChain_spec adj nodes fuel visited n Hclosed Hsize Hn)
    as (ext & -> & Hnd & Hfresh).
  eexists; split; [reflexivity|]. repeat split; cbn [fst snd].
  + intros c x Hc Hx. apply elem_of_app in Hc as [Hc|Hc].
    * apply elem_of_union; right. by eapply Hvis.
    * apply list_elem_of_singleton in Hc. subst c.
      apply elem_of_union; left. by apply elem_of_list_to_set.
  + apply chainsDisjoint_snoc; [done|].
    intros c x Hc Hx Hx'. apply Hfresh in Hx'. apply Hx'. by eapply Hvis.
  + apply Forall_app. split; [done|]. apply Forall_singleton. by split.
Qed.

Lemma visitNodes_spec adj nodes fuel (ns : list string) acc :
  adjClosed adj nodes -> size nodes < fuel -> chainsInv nodes acc ->
  exists acc', foldl (visitNode fuel adj) (Some acc) ns = Some acc' /\
               chainsInv nodes acc'.
Proof.
intros Hclosed Hsize. revert acc.
induction ns as [|n ns IH]; intros acc Hinv; [by exists acc|].
destruct (visitNode_spec adj nodes fuel acc n Hclosed Hsize Hinv) as (acc1 & Hrun & Hinv1).
cbn [foldl]. rewrite Hrun. by apply IH.
Qed.

(** The decomposition terminates on every link set, within [walkFuel], and
    its chains are non-empty, without repetition and pairwise disjoint. *)
Lemma decompose_total conns :
  exists chains,
    decompose conns = Some chains /\ chainsDisjoint chains /\
    Forall (fun c => NoDup c /\ c <> []) chains.
Proof.
unfold decompose, decomposeWith.
set (nodes := list_to_set (nodesOf conns) : gset string).
assert (Hclosed : adjClosed (buildAdj conns) nodes) by apply buildAdj_closed.
assert (Hsize : size nodes < walkFuel conns).
{ unfold nodes, walkFuel. rewrite size_list_to_set by apply NoDup_nodesOf. lia. }
assert (Hinit : chainsInv nodes (∅, [])).
{ repeat split; simpl.
  - intros c x Hc. by apply elem_of_nil in Hc.
  - intros i j c1 c2 x Hi. by rewrite lookup_nil in Hi.
  - constructor. }
destruct (visitNodes_spec _ nodes _ (startsOf conns) _ Hclosed Hsize Hinit)
  as (acc1 & -> & Hinv1).
destruct (visitNodes_spec _ nodes _ (nodesOf conns) _ Hclosed Hsize Hinv1)
  as (acc2 & -> & (_ & Hdis & Hall)).
exists acc2.2. by repeat split.
Qed.

(** More fuel does not change the result of a walk that ended. *)
Lemma getChainLoop_mono adj fuel fuel' visited path curr r :
  getChainLoop fuel adj visited path curr = Some r ->
  fuel <= fuel' ->
  getChainLoop fuel' adj visited path curr = Some r.
Proof.
revert fuel' visited path curr.
induction fuel as [|fuel IH]; intros fuel' visited path curr Hrun Hle; [done|].
destruct fuel' as [|fuel']; [lia|].
cbn [getChainLoop] in *.
destruct (adj !! curr) as [[|n0 ns]|]; [done| |done].
destruct (List.find (fun n => negb (bool_decide (n ∈ visited))) (n0 :: ns))
  as [next|]; [|done].
destruct (truthy (Some next)); [|done].
apply IH; [done|lia].
Qed.

Lemma visitNode_mono adj fuel fuel' acc n r :
  visitNode fuel adj acc n = Some r ->
  fuel <= fuel' ->
  visitNode fuel' adj acc n = Some r.
Proof.
intros Hrun Hle. destruct acc as [[visited chains]|]; [|done].
unfold visitNode, getChain in *. case_bool_decide; [done|].
destruct (getChainLoop fuel adj _ _ _) as [[p v]|] eqn:Hloop; [|done].
by rewrite (getChainLoop_mono _ _ fuel' _ _ _ _ Hloop Hle).
Qed.

Lemma visitNodes_None adj fuel (ns : list string) :
  foldl (visitNode fuel adj) None ns = None.
Proof. induction ns as [|n ns IH]; [done|]. exact IH. Qed.

Lemma visitNodes_mono adj fuel fuel' (ns : list string) acc r :
  foldl (visitNode fuel adj) acc ns = Some r ->
  fuel <= fuel' ->
  foldl (visitNode fuel' adj) acc ns = Some r.
Proof.
intros Hrun Hle. revert acc Hrun.
induction ns as [|n ns IH]; intros acc Hrun; [done|].
cbn [foldl] in *.
destruct (visitNode fuel adj acc n) as [acc1|] eqn:Hstep.
- rewrite (visitNode_mono _ _ fuel' _ _ _ Hstep Hle). by apply IH.
- by rewrite visitNodes_None in Hrun.
Qed.

Lemma decomposeWith_enough_fuel conns fuel :
  walkFuel conns <= fuel -> decomposeWith fuel conns = decompose conns.
Proof.
intros Hle. destruct (decompose_total conns) as (chains & Hdec & _).
rewrite Hdec. unfold decompose, decomposeWith in *.
destruct (foldl (visitNode (walkFuel conns) (buildAdj conns))
            (foldl (visitNode (walkFuel conns) (buildAdj conns)) (Some (∅, []))
               (startsOf conns)) (nodesOf conns)) as [acc2|] eqn:H2; [|done].
destruct (foldl (visitNode (walkFuel conns) (buildAdj conns)) (Some (∅, []))
            (startsOf conns)) as [acc1|] eqn:H1;
  [|by rewrite visitNodes_None in H2].
rewrite (visitNodes_mono _ _ fuel _ _ _ H1 Hle).
by rewrite (visitNodes_mono _ _ fuel _ _ _ H2 Hle).
Qed.

Lemma adjStep_lookup_eq (adj : gmap string (list string)) f t k :
  adjStep adj (f, t) !! k =
    if decide (k = f) then Some (default [] (adj !! f) ++ [t])
    else if decide (k = t) then Some (default [] (adj !! t))
    else adj !! k.
Proof.
unfold adjStep.
destruct (adj !! f) as [outsF|] eqn:Hf.
- destruct (adj !! t) as [outsT|] eqn:Ht.
  + repeat case_decide; simplify_map_eq; done.
  + repeat case_decide; simplify_map_eq; done.
- destruct (decide (f = t)) as [->|Hft].
  + rewrite lookup_insert_eq. repeat case_decide; simplify_map_eq; done.
  + rewrite (lookup_insert_ne adj f t) by done.
    destruct (adj !! t) as [outsT|] eqn:Ht; repeat case_decide; simplify_map_eq; done.
Qed.

Lemma outNeighbours_snoc conns f t k :
  outNeighbours (conns ++ [(f, t)]) k
  = outNeighbours conns k ++ (if String.eqb f k then [t] else []).
Proof.
unfold outNeighbours. rewrite List.filter_app, map_app. simpl.
by destruct (String.eqb f k).
Qed.

Lemma outNeighbours_not_node conns k :
  k ∉ nodesOf conns -> outNeighbours conns k = [].
Proof.
intros Hk. unfold outNeighbours.
induction conns as [|[f t] conns IH]; [done|]. simpl.
destruct (String.eqb_spec f k) as [->|Hne].
- exfalso. apply Hk, elem_of_nodesOf. exists (k, t). split; [by left|by left].
- apply IH. intros Hin. apply Hk. apply elem_of_nodesOf in Hin as (c & Hc & Hx).
  apply elem_of_nodesOf. exists c. split; [by right|done].
Qed.

(** The adjacency list: a node's neighbours are the targets of its links,
    in the order the links were made. *)
Lemma buildAdj_lookup conns k :
  buildAdj conns !! k
  = if bool_decide (k ∈ nodesOf conns) then Some (outNeighbours conns k) else None.
Proof.
revert k. induction conns as [|[f t] conns IH] using rev_ind; intros k.
- unfold buildAdj, nodesOf. cbn [foldl]. rewrite lookup_empty.
  case_bool_decide as Hin; [|done]. by apply elem_of_nil in Hin.
- assert (Hdef : forall x, default [] (buildAdj conns !! x) = outNeighbours conns x).
  { intros x. rewrite IH. case_bool_decide; [done|].
    simpl. symmetry. by apply outNeighbours_not_node. }
  rewrite buildAdj_snoc, adjStep_lookup_eq, !Hdef, nodesOf_snoc, outNeighbours_snoc.
  cbn [fst snd].
  destruct (decide (k = f)) as [->|Hkf].
  + rewrite String.eqb_refl. rewrite bool_decide_eq_true_2; [done|].
    apply elem_of_setAdd. right. apply elem_of_setAdd. by left.
  + rewrite (proj2 (String.eqb_neq f k)) by done. rewrite app_nil_r.
    destruct (decide (k = t)) as [->|Hkt].
    * rewrite bool_decide_eq_true_2; [done|]. apply elem_of_setAdd. by left.
    * rewrite IH.
      rewrite (bool_decide_ext (k ∈ setAdd t (setAdd f (nodesOf conns)))
                 (k ∈ nodesOf conns)); [done|].
      rewrite !elem_of_setAdd. naive_solver.
Qed.

Lemma zeroDegrees_lookup (nodes : list string) k :
  foldl (fun d n => <[n := 0]> d) (∅ : gmap string nat) nodes !! k
  = if bool_decide (k ∈ nodes) then Some 0 else None.
Proof.
induction nodes as [|n nodes IH] using rev_ind.
- cbn [foldl]. rewrite lookup_empty. case_bool_decide as Hin; [|done].
  by apply elem_of_nil in Hin.
- rewrite foldl_app. cbn [foldl]. destruct (decide (n = k)) as [->|Hne].
  + rewrite lookup_insert_eq. rewrite bool_decide_eq_true_2; [done|].
    apply elem_of_app; right. by apply list_elem_of_singleton.
  + rewrite lookup_insert_ne by done. rewrite IH.
    apply (f_equal (fun b : bool => if b then Some 0 else None)).
    apply bool_decide_ext. rewrite elem_of_app, list_elem_of_singleton. naive_solver.
Qed.

Lemma inDegreeCount_snoc conns f t k :
  inDegreeCount (conns ++ [(f, t)]) k
  = inDegreeCount conns k + (if String.eqb t k then 1 else 0).
Proof.
unfold inDegreeCount. rewrite List.filter_app, length_app. simpl.
by destruct (String.eqb t k).
Qed.

(** The in-degree table over a start table [d0]. *)
Lemma countDegrees_lookup conns (d0 : gmap string nat) k :
  foldl (fun d c => <[c.2 := default 0 (d !! c.2) + 1]> d) d0 conns !! k
  = if bool_decide (inDegreeCount conns k = 0) then d0 !! k
    else Some (default 0 (d0 !! k) + inDegreeCount conns k).
Proof.
revert k. induction conns as [|[f t] conns IH] using rev_ind; intros k.
- done.
- rewrite foldl_app. cbn [foldl snd]. rewrite inDegreeCount_snoc.
  destruct (decide (t = k)) as [->|Hne].
  + rewrite lookup_insert_eq, String.eqb_refl, IH.
    rewrite (bool_decide_eq_false_2 (_ + 1 = 0)) by lia.
    case_bool_decide as Hz.
    * rewrite Hz. done.
    * simpl. f_equal. lia.
  + rewrite lookup_insert_ne by done.
    rewrite (proj2 (String.eqb_neq t k)) by done. rewrite Nat.add_0_r. apply IH.
Qed.

Lemma inDegreeOf_lookup conns k :
  k ∈ nodesOf conns ->
  inDegreeOf conns (nodesOf conns) !! k = Some (inDegreeCount conns k).
Proof.
intros Hk. unfold inDegreeOf. rewrite countDegrees_lookup, zeroDegrees_lookup.
rewrite (bool_decide_eq_true_2 (k ∈ nodesOf conns)) by done.
case_bool_decide as Hz; [by rewrite Hz|done].
Qed.

(** The chain starts are the nodes no link points to, in discovery order. *)
Lemma startsOf_spec conns :
  startsOf conns
  = List.filter (fun n => Nat.eqb (inDegreeCount conns n) 0) (nodesOf conns).
Proof.
unfold startsOf.
assert (Hall : forall n, n ∈ nodesOf conns ->
          inDegreeOf conns (nodesOf conns) !! n = Some (inDegreeCount conns n))
  by (intros; by apply inDegreeOf_lookup).
revert Hall. generalize (inDegreeOf conns (nodesOf conns)) as d.
generalize (nodesOf conns) as ns. intros ns d Hall.
induction ns as [|n ns IH]; [done|].
rewrite filter_cons. cbn [List.filter].
rewrite Hall by (by left).
rewrite IH by (intros; apply Hall; by right).
destruct (Nat.eqb_spec (inDegreeCount conns n) 0) as [Hz|Hnz].
- rewrite decide_True; [done|]. by rewrite Hz.
- rewrite decide_False; [done|]. congruence.
Qed.

(** *** Evaluating the walk on named bubbles *)

Lemma mem_cons_eqb (x y : string) (l : list string)
    `{!Decision (x ∈ y :: l)} :
  bool_decide (x ∈ y :: l) = String.eqb x y || bool_decide (x ∈ l).
Proof.
destruct (String.eqb_spec x y) as [->|Hne]; simpl.
- apply bool_decide_eq_true_2. by left.
- apply bool_decide_ext. rewrite elem_of_cons. naive_solver.
Qed.

Lemma mem_nil (x : string) `{!Decision (x ∈ @nil string)} :
  bool_decide (x ∈ @nil string) = false.
Proof. apply bool_decide_eq_false_2. by intros H%elem_of_nil. Qed.

Lemma gmem_union (x y : string) (s : gset string)
    `{!Decision (x ∈ {[y]} ∪ s)} :
  bool_decide (x ∈ {[y]} ∪ s) = String.eqb x y || bool_decide (x ∈ s).
Proof.
destruct (String.eqb_spec x y) as [->|Hne]; simpl.
- apply bool_decide_eq_true_2. set_solver.
- apply bool_decide_ext. set_solver.
Qed.

Lemma gmem_empty (x : string) `{!Decision (x ∈ (∅ : gset string))} :
  bool_decide (x ∈ (∅ : gset string)) = false.
Proof. apply bool_decide_eq_false_2. set_solver. Qed.

Ltac str_eqb :=
  rewrite ?String.eqb_refl;
  repeat match goal with
         | H : ?x <> ?y |- _ =>
             progress (rewrite ?(proj2 (String.eqb_neq x y) H),
                               ?(proj2 (String.eqb_neq y x) (not_eq_sym H)))
         end.

Ltac walk_step :=
  progress (cbn [foldl fst snd app orb andb negb length List.find List.filter map
                 Nat.eqb visitNode getChain truthy option_fmap fmap
                 option_map];
            rewrite ?mem_cons_eqb, ?mem_nil, ?gmem_union, ?gmem_empty;
            str_eqb).

Lemma getChainLoop_S fuel adj visited path curr :
  getChainLoop (S fuel) adj visited path curr =
    match adj !! curr with
    | Some (n0 :: ns) =>
        match List.find (fun n => negb (bool_decide (n ∈ visited))) (n0 :: ns) with
        | Some next =>
            if truthy (Some next) then
              getChainLoop fuel adj ({[next]} ∪ visited) (path ++ [next]) next
            else Some (path, visited)
        | None => Some (path, visited)
        end
    | _ => Some (path, visited)
    end.
Proof. reflexivity. Qed.

Ltac chain_walk :=
  repeat first
    [ walk_step
    | progress (repeat match goal with
                       | H : _ !! _ = Some _ |- _ => rewrite H
                       end)
    | progress unfold getChain
    | rewrite getChainLoop_S ].

Ltac adj_lookup Hnodes :=
  rewrite buildAdj_lookup, Hnodes; unfold outNeighbours;
  repeat walk_step; reflexivity.

Lemma NoDup_neq (l : list string) i j x y :
  NoDup l -> l !! i = Some x -> l !! j = Some y -> i <> j -> x <> y.
Proof. intros Hnd Hi Hj Hij ->. apply Hij. by eapply NoDup_lookup. Qed.

Section NamedBubbles.

Variables A B C D E : string.
Hypothesis HAB : A <> B.
Hypothesis HAC : A <> C.
Hypothesis HAD : A <> D.
Hypothesis HAE : A <> E.
Hypothesis HBC : B <> C.
Hypothesis HBD : B <> D.
Hypothesis HBE : B <> E.
Hypothesis HCD : C <> D.
Hypothesis HCE : C <> E.
Hypothesis HDE : D <> E.
Hypothesis HB : B <> "".
Hypothesis HC : C <> "".
Hypothesis HE : E <> "".

Lemma two_chains_nodes : nodesOf [(A, B); (B, C); (D, E)] = [A; B; C; D; E].
Proof. unfold nodesOf, setAdd. repeat walk_step. reflexivity. Qed.

Lemma two_chains_starts : startsOf [(A, B); (B, C); (D, E)] = [A; D].
Proof.
rewrite startsOf_spec, two_chains_nodes. unfold inDegreeCount.
repeat walk_step. reflexivity.
Qed.

Lemma two_chains : decompose [(A, B); (B, C); (D, E)] = Some [[A; B; C]; [D; E]].
Proof.
unfold decompose, decomposeWith, walkFuel.
rewrite two_chains_nodes, two_chains_starts.
assert (HadjA : buildAdj [(A, B); (B, C); (D, E)] !! A = Some [B])
  by adj_lookup two_chains_nodes.
assert (HadjB : buildAdj [(A, B); (B, C); (D, E)] !! B = Some [C])
  by adj_lookup two_chains_nodes.
assert (HadjC : buildAdj [(A, B); (B, C); (D, E)] !! C = Some [])
  by adj_lookup two_chains_nodes.
assert (HadjD : buildAdj [(A, B); (B, C); (D, E)] !! D = Some [E])
  by adj_lookup two_chains_nodes.
assert (HadjE : buildAdj [(A, B); (B, C); (D, E)] !! E = Some [])
  by adj_lookup two_chains_nodes.
revert HadjA HadjB HadjC HadjD HadjE.
generalize (buildAdj [(A, B); (B, C); (D, E)]) as adj.
intros adj HadjA HadjB HadjC HadjD HadjE.
chain_walk. reflexivity.
Qed.

Lemma cycle_nodes : nodesOf [(A, B); (B, C); (C, A)] = [A; B; C].
Proof. unfold nodesOf, setAdd. repeat walk_step. reflexivity. Qed.

(** Every node of the cycle has a link pointing to it: there is no start. *)
Lemma cycle_starts : startsOf [(A, B); (B, C); (C, A)] = [].
Proof.
rewrite startsOf_spec, cycle_nodes. unfold inDegreeCount.
repeat walk_step. reflexivity.
Qed.

Lemma cycle_chain : decompose [(A, B); (B, C); (C, A)] = Some [[A; B; C]].
Proof.
unfold decompose, decomposeWith, walkFuel.
rewrite cycle_nodes, cycle_starts.
assert (HadjA : buildAdj [(A, B); (B, C); (C, A)] !! A = Some [B])
  by adj_lookup cycle_nodes.
assert (HadjB : buildAdj [(A, B); (B, C); (C, A)] !! B = Some [C])
  by adj_lookup cycle_nodes.
assert (HadjC : buildAdj [(A, B); (B, C); (C, A)] !! C = Some [A])
  by adj_lookup cycle_nodes.
revert HadjA HadjB HadjC.
generalize (buildAdj [(A, B); (B, C); (C, A)]) as adj.
intros adj HadjA HadjB HadjC.
chain_walk. reflexivity.
Qed.

End NamedBubbles.

(** C4: for any five different bubbles A, B, C, D, E (with non-empty ids)
    the links [(A,B),(B,C),(D,E)] decompose into [[A,B,C],[D,E]] and the
    3-cycle [(A,B),(B,C),(C,A)] decomposes into the single chain [A,B,C];
    on every link set the walk ends within the fuel [walkFuel] allots, and
    more fuel gives the same chains. *)
Theorem chain_decomposition_examples (A B C D E : string) :
  NoDup [A; B; C; D; E] ->
  Forall (fun id => id <> "") [A; B; C; D; E] ->
  decompose [(A, B); (B, C); (D, E)] = Some [[A; B; C]; [D; E]] /\
  decompose [(A, B); (B, C); (C, A)] = Some [[A; B; C]] /\
  (forall conns fuel,
     is_Some (decompose conns) /\
     (walkFuel conns <= fuel -> decomposeWith fuel conns = decompose conns)).
Proof.
intros Hnd Hne.
assert (Hneq : forall i j x y, [A; B; C; D; E] !! i = Some x ->
                 [A; B; C; D; E] !! j = Some y -> i <> j -> x <> y)
  by (intros i j x y; by apply NoDup_neq).
assert (Hnonempty : forall i x, [A; B; C; D; E] !! i = Some x -> x <> "")
  by (intros i x Hi; by eapply (proj1 (Forall_lookup _ _) Hne)).
split; [|split].
- apply two_chains;
    first [ by apply (Hnonempty 1) | by apply (Hnonempty 2) | by apply (Hnonempty 4)
          | by apply (Hneq 0 1) | by apply (Hneq 0 2) | by apply (Hneq 0 3)
          | by apply (Hneq 0 4) | by apply (Hneq 1 2) | by apply (Hneq 1 3)
          | by apply (Hneq 1 4) | by apply (Hneq 2 3) | by apply (Hneq 2 4)
          | by apply (Hneq 3 4) ].
- apply cycle_chain;
    first [ by apply (Hnonempty 1) | by apply (Hnonempty 2)
          | by apply (Hneq 0 1) | by apply (Hneq 0 2) | by apply (Hneq 1 2) ].
- intros conns fuel. split.
  + destruct (decompose_total conns) as (chains & -> & _). by eexists.
  + apply decomposeWith_enough_fuel.
Qed.

Example two_chains_evaluated :
  decompose [("A", "B"); ("B", "C"); ("D", "E")]
  = Some [["A"; "B"; "C"]; ["D"; "E"]].
Proof. by vm_compute. Qed.

Example cycle_evaluated :
  decompose [("A", "B"); ("B", "C"); ("C", "A")] = Some [["A"; "B"; "C"]].
Proof. by vm_compute. Qed.

(** A node with two outgoing links: the walk follows the first, and the
    other branch starts a chain of its own. *)
Example branch_evaluated :
  decompose [("A", "B"); ("A", "C"); ("C", "D")] = Some [["A"; "B"]; ["C"; "D"]].
Proof. by vm_compute. Qed.

Lemma chain_decomposition_examples_witness :
  NoDup ["A"; "B"; "C"; "D"; "E"] /\
  Forall (fun id => id <> "") ["A"; "B"; "C"; "D"; "E"] /\
  decompose [("A", "B"); ("B", "C"); ("C", "A")] = Some [["A"; "B"; "C"]].
Proof.
assert (H1 : NoDup ["A"; "B"; "C"; "D"; "E"]).
{ apply (bool_decide_unpack (NoDup ["A"; "B"; "C"; "D"; "E"])). by vm_compute. }
assert (H2 : Forall (fun id => id <> "") ["A"; "B"; "C"; "D"; "E"]).
{ repeat constructor; discriminate. }
split; [exact H1|]. split; [exact H2|].
exact (proj1 (proj2 (chain_decomposition_examples "A" "B" "C" "D" "E" H1 H2))).
Defined.

End Chains.

(** ** Context retranslation *)

Section Retranslate.

Variable generate : list ChainItem -> GenerateOutcome.

Implicit Types (bs updated : list TextBubble) (t : Translation)
  (c : list string) (chains : list (list string)).

Lemma applyTranslation_other updated t i b :
  updated !! i = Some b -> bubble_id b <> tr_id t ->
  applyTranslation updated t !! i = Some b.
Proof.
intros Hi Hne. unfold applyTranslation.
destruct (list_find _ updated) as [[idx b']|] eqn:Hfind; [|done].
apply list_find_Some in Hfind as (Hidx & Hid & _).
rewrite list_lookup_insert_ne; [done|]. intros ->. congruence.
Qed.

Lemma applyTranslation_ids updated t :
  map bubble_id (applyTranslation updated t) = map bubble_id updated.
Proof.
unfold applyTranslation.
destruct (list_find _ updated) as [[idx b']|] eqn:Hfind; [|done].
apply list_find_Some in Hfind as (Hidx & Hid & _).
change (map bubble_id ?l) with (bubble_id <$> l).
rewrite list_fmap_insert. apply list_insert_id.
by rewrite list_lookup_fmap, Hidx.
Qed.

Lemma applyTranslation_hit updated t i b :
  NoDup (map bubble_id updated) ->
  updated !! i = Some b -> bubble_id b = tr_id t ->
  applyTranslation updated t !! i = Some (setText (tr_text t) b).
Proof.
intros Hnd Hi Hid. unfold applyTranslation.
destruct (list_find _ updated) as [[idx b']|] eqn:Hfind.
- apply list_find_Some in Hfind as (Hidx & Hid' & _).
  assert (idx = i) as ->.
  { eapply (NoDup_lookup (map bubble_id updated)); [done| |].
    - change (map bubble_id updated) with (bubble_id <$> updated).
      by rewrite list_lookup_fmap, Hidx.
    - change (map bubble_id updated) with (bubble_id <$> updated).
      rewrite list_lookup_fmap, Hi. simpl. congruence. }
  assert (b' = b) as -> by congruence.
  apply list_lookup_insert_eq. by eapply lookup_lt_Some.
- apply list_find_None in Hfind. rewrite Forall_lookup in Hfind.
  by destruct (Hfind i b Hi).
Qed.

Lemma applyTranslations_other (ts : list Translation) updated i b :
  updated !! i = Some b ->
  (forall t, t ∈ ts -> bubble_id b <> tr_id t) ->
  foldl applyTranslation updated ts !! i = Some b.
Proof.
revert updated. induction ts as [|t ts IH]; intros updated Hi Hne; [done|].
cbn [foldl]. apply IH.
- apply applyTranslation_other; [done|]. apply Hne. by left.
- intros t' Ht'. apply Hne. by right.
Qed.

Lemma applyTranslations_ids (ts : list Translation) updated :
  map bubble_id (foldl applyTranslation updated ts) = map bubble_id updated.
Proof.
revert updated. induction ts as [|t ts IH]; intros updated; [done|].
cbn [foldl]. by rewrite IH, applyTranslation_ids.
Qed.

Lemma applyTranslations_hit (ts : list Translation) updated t i b :
  NoDup (map tr_id ts) -> NoDup (map bubble_id updated) ->
  t ∈ ts -> updated !! i = Some b -> bubble_id b = tr_id t ->
  foldl applyTranslation updated ts !! i = Some (setText (tr_text t) b).
Proof.
revert updated. induction ts as [|t0 ts IH]; intros updated Hts Hbs Hin Hi Hid.
{ by apply elem_of_nil in Hin. }
cbn [foldl]. cbn [map] in Hts. apply NoDup_cons in Hts as [Hfresh Hts].
apply elem_of_cons in Hin as [<-|Hin].
- apply applyTranslations_other; [by apply applyTranslation_hit|].
  intros t' Ht' Heq. apply Hfresh. simpl in Heq. rewrite <- Hid, Heq.
  change (map tr_id ts) with (tr_id <$> ts). by apply list_elem_of_fmap_2.
- apply IH; [done|by rewrite applyTranslation_ids|done| |done].
  apply applyTranslation_other; [done|]. intros Heq. apply Hfresh.
  rewrite <- Heq, Hid.
  change (map tr_id ts) with (tr_id <$> ts). by apply list_elem_of_fmap_2.
Qed.

Lemma findBubble_id id bs b : findBubble id bs = Some b -> bubble_id b = id.
Proof.
unfold findBubble. intros Hf. apply find_some in Hf as [_ Hb].
by apply bool_decide_eq_true in Hb.
Qed.

(** The items sent for a chain are bubbles of that chain. *)
Lemma chainDataOf_ids bs c item :
  item ∈ chainDataOf bs c -> ci_id item ∈ c.
Proof.
unfold chainDataOf. intros Hin.
apply list_elem_of_omap in Hin as (id & Hid & Hsome).
destruct (findBubble id bs) as [b|] eqn:Hf; [|done].
simpl in Hsome. injection Hsome as <-. simpl.
by rewrite (findBubble_id _ _ _ Hf).
Qed.

Lemma retranslate_ids (items : list ChainItem) t :
  answersOnlyRequested generate ->
  t ∈ retranslateContextAware generate items -> tr_id t ∈ map ci_id items.
Proof.
intros Hwb. unfold retranslateContextAware.
destruct items as [|item items]; [intros H; by apply elem_of_nil in H|].
destruct (generate (item :: items)) as [|[ts|]] eqn:Hgen;
  try (intros H; by apply elem_of_nil in H).
intros Hin. change (map ?f ts) with (f <$> ts) in Hin.
apply list_elem_of_fmap in Hin as (raw & -> & Hraw).
exact (Hwb _ _ _ Hgen Hraw).
Qed.

(** A chain whose request throws leaves the store as it is. *)
Lemma processChain_throws bs updated c :
  generate (chainDataOf bs c) = Throws ->
  processChain generate bs updated c = updated.
Proof.
intros Hgen. unfold processChain. case_bool_decide; [done|].
unfold retranslateContextAware. rewrite Hgen. by destruct (chainDataOf bs c).
Qed.

Lemma processChain_other bs updated c i b :
  answersOnlyRequested generate ->
  updated !! i = Some b -> bubble_id b ∉ c ->
  processChain generate bs updated c !! i = Some b.
Proof.
intros Hwb Hi Hnot. unfold processChain. case_bool_decide; [done|].
apply applyTranslations_other; [done|].
intros t Ht Heq. apply Hnot. rewrite Heq.
apply retranslate_ids in Ht; [|done].
change (map ci_id ?l) with (ci_id <$> l) in Ht.
apply list_elem_of_fmap in Ht as (item & -> & Hitem).
by eapply chainDataOf_ids.
Qed.

Lemma processChain_ids bs updated c :
  map bubble_id (processChain generate bs updated c) = map bubble_id updated.
Proof.
unfold processChain. case_bool_decide; [done|]. apply applyTranslations_ids.
Qed.

Lemma processChains_from_ids bs updated chains :
  map bubble_id (foldl (processChain generate bs) updated chains)
  = map bubble_id updated.
Proof.
revert updated. induction chains as [|c chains IH]; intros updated; [done|].
cbn [foldl]. by rewrite IH, processChain_ids.
Qed.

Lemma processChains_unchanged bs updated chains i b :
  answersOnlyRequested generate ->
  updated !! i = Some b ->
  (forall c, c ∈ chains ->
     generate (chainDataOf bs c) = Throws \/ bubble_id b ∉ c) ->
  foldl (processChain generate bs) updated chains !! i = Some b.
Proof.
intros Hwb. revert updated.
induction chains as [|c chains IH]; intros updated Hi Hall; [done|].
cbn [foldl]. apply IH; [|intros c' Hc'; apply Hall; by right].
destruct (Hall c) as [Hthrow|Hnot]; [by left| |].
- by rewrite processChain_throws.
- by apply processChain_other.
Qed.

Lemma elem_of_take_lookup chains k c :
  c ∈ take k chains -> exists j, j < k /\ chains !! j = Some c.
Proof.
intros Hin. apply list_elem_of_lookup in Hin as [j Hj].
apply lookup_take_Some in Hj as [Hj Hlt]. eauto.
Qed.

Lemma elem_of_drop_lookup chains k c :
  c ∈ drop (S k) chains -> exists j, k < j /\ chains !! j = Some c.
Proof.
intros Hin. apply list_elem_of_lookup in Hin as [j Hj].
rewrite lookup_drop in Hj. exists (S k + j). split; [lia|done].
Qed.

(** A chain whose request throws keeps its bubbles, whatever the other
    chains of the pass receive. *)
Lemma processChains_isolation bs chains k c i b :
  answersOnlyRequested generate ->
  chainsDisjoint chains ->
  chains !! k = Some c ->
  generate (chainDataOf bs c) = Throws ->
  bs !! i = Some b -> bubble_id b ∈ c ->
  processChains generate bs chains !! i = Some b.
Proof.
intros Hwb Hdis Hk Hthrow Hi Hin. unfold processChains.
apply processChains_unchanged; [done|done|].
intros c' Hc'. apply list_elem_of_lookup in Hc' as [j Hj].
destruct (decide (j = k)) as [->|Hne].
- left. congruence.
- right. intros Hin'. apply Hne. by eapply (Hdis j k c' c (bubble_id b)).
Qed.

(** The answer to a chain of two or more bubbles reaches the store, whatever
    happens to the other chains of the pass. *)
Lemma processChains_applied bs chains k c ts raw i b :
  answersOnlyRequested generate ->
  chainsDisjoint chains ->
  NoDup (map bubble_id bs) ->
  chains !! k = Some c -> 2 <= length c ->
  generate (chainDataOf bs c) = Parsed (Some ts) ->
  NoDup (map raw_id ts) -> raw ∈ ts ->
  bs !! i = Some b -> bubble_id b = raw_id raw ->
  processChains generate bs chains !! i = Some (setText (translated_text raw) b).
Proof.
intros Hwb Hdis Hnd Hk Hlen Hgen Hts Hraw Hi Hid.
assert (Hinc : bubble_id b ∈ c).
{ pose proof (Hwb _ _ _ Hgen Hraw) as Hreq.
  change (map ci_id ?l) with (ci_id <$> l) in Hreq.
  apply list_elem_of_fmap in Hreq as (item & Hitem & Hin).
  rewrite Hid, Hitem. by eapply chainDataOf_ids. }
unfold processChains. rewrite <- (take_drop_middle chains k c Hk).
rewrite foldl_app. cbn [foldl].
set (pre := foldl (processChain generate bs) bs (take k chains)).
assert (Hpre : pre !! i = Some b).
{ apply processChains_unchanged; [done|done|].
  intros c' Hc'. right. intros Hin'.
  apply elem_of_take_lookup in Hc' as (j & Hlt & Hj).
  assert (j = k) by (by eapply (Hdis j k c' c (bubble_id b))). lia. }
assert (Hmid : processChain generate bs pre c !! i
               = Some (setText (translated_text raw) b)).
{ unfold processChain. rewrite bool_decide_eq_false_2 by lia.
  unfold retranslateContextAware. rewrite Hgen.
  destruct (chainDataOf bs c) as [|item items] eqn:Hdata.
  { pose proof (Hwb _ _ _ Hgen Hraw) as Hreq. by apply elem_of_nil in Hreq. }
  apply (applyTranslations_hit _ _
           {| tr_id := raw_id raw; tr_text := translated_text raw |}).
  - by rewrite map_map.
  - unfold pre. by rewrite processChains_from_ids.
  - change (map ?f ts) with (f <$> ts).
    by apply (list_elem_of_fmap_2
                (fun r : RawTranslation =>
                   {| tr_id := raw_id r; tr_text := translated_text r |})).
  - done.
  - done. }
apply processChains_unchanged; [done|done|].
intros c' Hc'. right. intros Hin'.
apply elem_of_drop_lookup in Hc' as (j & Hlt & Hj).
assert (j = k) by (by eapply (Hdis j k c' c (bubble_id b))). lia.
Qed.

(** C8 (amended): a pass over a non-empty link set ends; its continuation
    commits, with the history index of the click, the copy of the click's
    store to which the answers of all chains were applied; when no other
    event arrives while the pass awaits, that is one history entry after the
    current index, which one undo takes back.  A chain whose request throws
    changes nothing in the loop; when the collaborator answers only about
    the bubbles it was asked about, the bubbles of a chain whose request
    threw are in the committed store as they were, and the answers to every
    other chain of two or more bubbles are in it. *)
Theorem retranslation_pass_commits_once (st : EditorState) :
  connections (links st) <> [] ->
  exists chains st',
    decompose (connections (links st)) = Some chains /\
    handleRetranslateLinked generate st = Some st' /\
    let updated := processChains generate (bubbles st) chains in
    (history st' = take (historyIndex st + 1) (history st) ++ [updated] /\
     historyIndex st' = historyIndex st + 1 /\
     bubbles st' = updated /\
     isProcessing st' = false /\ links st' = links st) /\
    (forall later,
       retranslateFinished generate st later
       = Some (setIsProcessing false
                 (addToHistoryFrom (historyIndex st) updated later))) /\
    (history_wf st -> in_sync st ->
     exists st1, handleUndo st' = Some st1 /\
       bubbles st1 = bubbles st /\ historyIndex st1 = historyIndex st) /\
    (forall upd c,
       generate (chainDataOf (bubbles st) c) = Throws ->
       processChain generate (bubbles st) upd c = upd) /\
    (answersOnlyRequested generate ->
     (forall k c i b,
        chains !! k = Some c ->
        generate (chainDataOf (bubbles st) c) = Throws ->
        bubbles st !! i = Some b -> bubble_id b ∈ c ->
        updated !! i = Some b) /\
     (NoDup (map bubble_id (bubbles st)) ->
      forall k c ts raw i b,
        chains !! k = Some c -> 2 <= length c ->
        generate (chainDataOf (bubbles st) c) = Parsed (Some ts) ->
        NoDup (map raw_id ts) -> raw ∈ ts ->
        bubbles st !! i = Some b -> bubble_id b = raw_id raw ->
        updated !! i = Some (setText (translated_text raw) b))).
Proof.
intros Hne.
destruct (decompose_total (connections (links st))) as (chains & Hdec & Hdis & _).
exists chains.
exists (setIsProcessing false
          (addToHistory (processChains generate (bubbles st) chains)
             (setIsProcessing true st))).
split; [exact Hdec|]. split.
{ unfold handleRetranslateLinked, retranslateFinished. rewrite Hdec.
  by destruct (connections (links st)). }
cbn zeta. split; [done|]. split.
{ intros later. unfold retranslateFinished. by rewrite Hdec. }
split.
{ unfold history_wf, in_sync. intros Hwf Hsync. unfold handleUndo. simpl.
  rewrite bool_decide_eq_true_2 by lia. rewrite Nat.add_sub.
  rewrite lookup_app_l by (rewrite length_take; lia).
  rewrite lookup_take_lt by lia. rewrite Hsync.
  eexists. split; [reflexivity|]. done. }
split.
{ intros upd c Hthrow. by apply processChain_throws. }
intros Hwb. split.
- intros k c i b Hk Hthrow Hi Hin. by eapply processChains_isolation.
- intros Hnd k c ts raw i b Hk Hlen Hgen Hts Hraw Hi Hid.
  by eapply processChains_applied.
Qed.

End Retranslate.

Section RetranslateDemo.

Lemma demoGenerate_answersOnlyRequested : answersOnlyRequested demoGenerate.
Proof.
intros items ts t Hgen Hin. unfold demoGenerate in Hgen.
destruct items as [|item items]; [done|].
destruct (String.eqb (ci_id item) "a"); [|done].
set (answer := fun it => {| raw_id := ci_id it;
                            translated_text := String.append (ci_text it) "!" |}) in Hgen.
assert (Hts : ts = map answer (item :: items)) by congruence.
rewrite Hts in Hin. change (t ∈ answer <$> (item :: items)) in Hin.
apply list_elem_of_fmap in Hin as (it & -> & Hit).
change (ci_id it ∈ ci_id <$> (item :: items)).
by apply list_elem_of_fmap_2.
Qed.

Lemma demoLinked_chains :
  decompose (connections (links demoLinked)) = Some [["a"; "b"]; ["c"; "d"]].
Proof. by vm_compute. Qed.

Lemma retranslation_pass_commits_once_witness :
  connections (links demoLinked) <> [] /\
  answersOnlyRequested demoGenerate /\
  NoDup (map bubble_id (bubbles demoLinked)) /\
  exists st',
    handleRetranslateLinked demoGenerate demoLinked = Some st' /\
    historyIndex st' = historyIndex demoLinked + 1 /\
    bubbles st' !! 0 = Some (plainBubble "a" "one!") /\
    bubbles st' !! 2 = Some (plainBubble "c" "three").
Proof.
assert (H1 : connections (links demoLinked) <> []) by done.
assert (H2 : answersOnlyRequested demoGenerate)
  by apply demoGenerate_answersOnlyRequested.
assert (H3 : NoDup (map bubble_id (bubbles demoLinked))).
{ simpl. repeat (constructor; [set_solver|]). constructor. }
split; [exact H1|]. split; [exact H2|]. split; [exact H3|].
destruct (retranslation_pass_commits_once demoGenerate demoLinked H1)
  as (chains & st' & Hdec & Hrun & Hcommit & _ & _ & _ & Hiso).
rewrite demoLinked_chains in Hdec. injection Hdec as <-.
destruct Hcommit as (_ & Hidx & Hbs & _).
destruct (Hiso H2) as [Hfail Happ].
exists st'. split; [exact Hrun|]. split; [exact Hidx|]. rewrite Hbs. split.
- exact (Happ H3 0 ["a"; "b"] _ {| raw_id := "a"; translated_text := "one!" |}
           0 (plainBubble "a" "one") eq_refl (le_n 2) eq_refl
           ltac:(simpl; repeat (constructor; [set_solver|]); constructor)
           ltac:(by left) eq_refl eq_refl).
- exact (Hfail 1 ["c"; "d"] 2 (plainBubble "c" "three") eq_refl eq_refl eq_refl
           ltac:(by left)).
Defined.

(** C8, as stated, fails: with links a -> b and c -> d, the request for the
    chain c, d throws, yet the answer to the chain a, b names bubble c, and
    the committed store has the text of c changed. *)
Lemma failed_chain_text_changed :
  leakGenerate (chainDataOf (bubbles demoLinked) ["c"; "d"]) = Throws /\
  bubbles demoLinked !! 2 = Some (plainBubble "c" "three") /\
  exists st',
    handleRetranslateLinked leakGenerate demoLinked = Some st' /\
    bubbles st' !! 2 = Some (plainBubble "c" "LEAK") /\
    history st' !! historyIndex st' = Some (bubbles st').
Proof.
split; [reflexivity|]. split; [reflexivity|].
eexists. split.
{ unfold handleRetranslateLinked, retranslateFinished.
  rewrite demoLinked_chains. reflexivity. }
split; reflexivity.
Qed.

End RetranslateDemo.


(** ** The linear-undo law on any well-formed history *)

Section LinearUndo.

Lemma commit_then_redo (s : list TextBubble) (st : EditorState) :
  history_wf st ->
  handleRedo (addToHistory s st) = addToHistory s st /\
  exists prev,
    history st !! historyIndex st = Some prev /\
    handleUndo (addToHistory s st)
    = Some (setBubbles prev (setHistoryIndex (historyIndex st) (addToHistory s st))).
Proof.
unfold history_wf. intros Hwf. split.
- apply handleRedo_at_end. simpl. rewrite length_app, length_take. simpl. lia.
- destruct (lookup_lt_is_Some_2 (history st) (historyIndex st) Hwf) as [prev Hprev].
  exists prev. split; [done|].
  unfold handleUndo. rewrite bool_decide_eq_true_2 by (simpl; lia).
  simpl. replace (historyIndex st + 1 - 1) with (historyIndex st) by lia.
  rewrite lookup_app_l by (rewrite length_take; lia).
  rewrite lookup_take_lt by lia. by rewrite Hprev.
Qed.

End LinearUndo.

(** * Further properties of the component *)

(** ** Deleting a bubble *)

Section Delete.

(** X1: deleting a bubble removes every bubble with that id and every link
    that starts or ends at it, keeps all other bubbles and links in their
    order, and commits the new store once. *)
Theorem delete_cascades_to_links (id : string) (st : EditorState) :
  let st' := handleDeleteBubble id st in
  (forall b, b ∈ bubbles st' <-> b ∈ bubbles st /\ bubble_id b <> id) /\
  (forall c, c ∈ connections (links st') <->
             c ∈ connections (links st) /\ c.1 <> id /\ c.2 <> id) /\
  bubbles st' `sublist_of` bubbles st /\
  connections (links st') `sublist_of` connections (links st) /\
  history st' = take (historyIndex st + 1) (history st) ++ [bubbles st'] /\
  historyIndex st' = historyIndex st + 1.
Proof.
intros st'. subst st'. unfold handleDeleteBubble. simpl.
split; [|split; [|split; [|split; [|split]]]]; try done.
- intros b. rewrite list_elem_of_filter. tauto.
- intros c. rewrite list_elem_of_filter. tauto.
- apply sublist_filter.
- apply sublist_filter.
Qed.

(** X2: deleting a bubble does not clear the active node of the link tool:
    when the deleted bubble was the active node, the next click of the link
    tool on another bubble adds a link that starts at the deleted bubble. *)
Theorem delete_keeps_active_node (id other : string) (st : EditorState) :
  activeTreeNode (links st) = Some id ->
  id <> other ->
  connectionExists id other (connections (links st)) = false ->
  let st1 := handleDeleteBubble id st in
  let st2 := handleBubbleConnect other (setTool tree st1) in
  activeTreeNode (links st1) = Some id /\
  (forall b, b ∈ bubbles st2 -> bubble_id b <> id) /\
  (id, other) ∈ connections (links st2).
Proof.
intros Hact Hne Hex st1 st2. subst st1 st2. split; [exact Hact|].
assert (Hex' : connectionExists id other
                 (filter (fun c => c.1 <> id /\ c.2 <> id) (connections (links st)))
               = false).
{ apply not_true_is_false. intros Htrue. unfold connectionExists in *.
  apply existsb_exists in Htrue as (c & Hc & Hf).
  apply not_true_iff_false in Hex. apply Hex, existsb_exists. exists c.
  split; [|done]. apply list_elem_of_In in Hc. apply list_elem_of_In.
  by apply list_elem_of_filter in Hc as [_ Hc]. }
rewrite (connect_new id other); simpl; try done.
split.
- intros b Hb. by apply list_elem_of_filter in Hb as [Hb _].
- apply elem_of_app. right. by apply list_elem_of_singleton.
Qed.

End Delete.

(** ** Shape and font scale *)

Section BubbleProps.

Implicit Types (st : EditorState) (b : TextBubble).

(** X3: a font-scale step gives the bubbles with the given id a scale in
    [0.5, 3] (the old scale, or 1 when it is absent or 0, plus the step,
    clamped), changes nothing else in them, leaves every other bubble as it
    was, and commits once. *)
Theorem font_scale_step_clamped (id : string) (delta : R) (st : EditorState) :
  let st' := updateBubbleFontScale id delta st in
  length (bubbles st') = length (bubbles st) /\
  (forall i b, bubbles st !! i = Some b ->
     exists b', bubbles st' !! i = Some b' /\
       (bubble_id b <> id -> b' = b) /\
       (bubble_id b = id ->
          exists r, (0.5 <= r <= 3)%R /\ b' = setFontSizeScale r b /\
            ((0.5 <= scaleOrOne (fontSizeScale b) + delta <= 3)%R ->
             r = (scaleOrOne (fontSizeScale b) + delta)%R))) /\
  history st' = take (historyIndex st + 1) (history st) ++ [bubbles st'] /\
  historyIndex st' = historyIndex st + 1.
Proof.
intros st'. subst st'. unfold updateBubbleFontScale. simpl.
split; [by rewrite length_map|]. split; [|done].
intros i b Hi. rewrite list_lookup_fmap, Hi. simpl.
eexists. split; [reflexivity|]. case_bool_decide as Hid.
- split; [done|]. intros _. eexists. split; [|split; [reflexivity|]].
  + solve_minmax.
  + intros Hin. solve_minmax.
- split; [done|]. done.
Qed.

Lemma toggle_twice b :
  is_Some (shape b) ->
  setShape (toggledShape (setShape (toggledShape b) b)) (setShape (toggledShape b) b) = b.
Proof.
intros [s Hs]. destruct b as [i t o bx m tc bc sh fs ff]. simpl in *. subst sh.
by destruct s.
Qed.

(** X4: a shape update touches only the shape of the bubbles with the given
    id and commits once; pressing the toggle of a bubble that has a shape
    and a unique id twice gives back the store as it was. *)
Theorem shape_toggle_round_trip (st : EditorState) (i : nat) (b : TextBubble) :
  NoDup (map bubble_id (bubbles st)) ->
  bubbles st !! i = Some b ->
  is_Some (shape b) ->
  let st1 := updateBubbleShape (bubble_id b) (toggledShape b) st in
  let st2 := updateBubbleShape (bubble_id b)
               (toggledShape (setShape (toggledShape b) b)) st1 in
  bubbles st1 = <[i := setShape (toggledShape b) b]> (bubbles st) /\
  bubbles st2 = bubbles st /\
  historyIndex st2 = historyIndex st + 2.
Proof.
intros Hnd Hi Hshape st1 st2.
assert (Hmap : forall s (b0 : TextBubble) (bs : list TextBubble),
          NoDup (map bubble_id bs) -> bs !! i = Some b0 ->
          map (fun x => if bool_decide (bubble_id x = bubble_id b0)
                        then setShape s x else x) bs
          = <[i := setShape s b0]> bs).
{ intros s b0 bs Hnd' Hi'. apply list_eq. intros j.
  change (map ?f bs) with (f <$> bs). rewrite list_lookup_fmap.
  destruct (decide (j = i)) as [->|Hne].
  - rewrite list_lookup_insert_eq by (by eapply lookup_lt_Some).
    rewrite Hi'. simpl. by rewrite bool_decide_eq_true_2.
  - rewrite list_lookup_insert_ne by done.
    destruct (bs !! j) as [x|] eqn:Hj; [|done]. simpl.
    rewrite bool_decide_eq_false_2; [done|]. intros Heq. apply Hne.
    eapply (NoDup_lookup (map bubble_id bs)); [done| |].
    + change (map bubble_id bs) with (bubble_id <$> bs).
      by rewrite list_lookup_fmap, Hj.
    + change (map bubble_id bs) with (bubble_id <$> bs).
      rewrite list_lookup_fmap, Hi'. simpl. by rewrite Heq. }
assert (H1 : bubbles st1 = <[i := setShape (toggledShape b) b]> (bubbles st)).
{ unfold st1, updateBubbleShape. simpl. by apply Hmap. }
split; [exact H1|]. split; [|unfold st2, st1; simpl; lia].
unfold st2, updateBubbleShape. cbn [bubbles addToHistory addToHistoryFrom]. fold st1.
change (bubble_id b) with (bubble_id (setShape (toggledShape b) b)) at 1.
rewrite (Hmap _ (setShape (toggledShape b) b) (bubbles st1)).
- rewrite H1, list_insert_insert_eq, toggle_twice by done.
  by apply list_insert_id.
- rewrite H1. change (map bubble_id ?l) with (bubble_id <$> l).
  rewrite list_fmap_insert. simpl. rewrite list_insert_id; [done|].
  by rewrite list_lookup_fmap, Hi.
- rewrite H1. apply list_lookup_insert_eq. by eapply lookup_lt_Some.
Qed.

End BubbleProps.

(** ** Panning *)

Section Pan.

Implicit Types (st : EditorState).

Lemma handleMouseDown_pan rect e st :
  panTriggered e st ->
  handleMouseDown rect e st
  = setPanStart {| pt_x := clientX e - pt_x (offset (view st));
                   pt_y := clientY e - pt_y (offset (view st)) |}
      (setIsPanning true st).
Proof.
intros Hpan. unfold handleMouseDown.
assert (Hc : bool_decide (tool st = pan) || bool_decide (button e = 1)
             || (bool_decide (buttons e = 1) && isSpacePressed (view st)) = true).
{ destruct Hpan as [H|[H|[H1 H2]]].
  - by rewrite (bool_decide_eq_true_2 _ H).
  - rewrite (bool_decide_eq_true_2 _ H). by rewrite orb_true_r.
  - rewrite (bool_decide_eq_true_2 _ H1), H2. by rewrite orb_true_r. }
by rewrite Hc.
Qed.

Lemma handleMouseMove_pan rect e st :
  isPanning (view st) = true ->
  handleMouseMove rect e st
  = setOffset {| pt_x := clientX e - pt_x (panStart (view st));
                 pt_y := clientY e - pt_y (panStart (view st)) |} st.
Proof. intros Hpan. unfold handleMouseMove. by rewrite Hpan. Qed.

Lemma moveFrames_pan frames st :
  isPanning (view st) = true ->
  moveFrames frames st
  = match last frames with
    | Some f => setOffset {| pt_x := clientX f.2 - pt_x (panStart (view st));
                             pt_y := clientY f.2 - pt_y (panStart (view st)) |} st
    | None => st
    end.
Proof.
revert st. induction frames as [|f frames IH]; intros st Hpan; [done|].
cbn [moveFrames foldl]. fold (moveFrames frames (handleMouseMove f.1 f.2 st)).
rewrite handleMouseMove_pan by done. rewrite IH by done.
destruct frames as [|f' frames]; [done|].
rewrite last_cons_cons. destruct (last (f' :: frames)) eqn:Hl; [reflexivity|].
by apply last_None in Hl.
Qed.

(** X5: a pan gesture (pointer-down that starts a pan, any pointer-moves,
    pointer-up) changes nothing but the viewport offset: the store, the
    history, the links, the gesture and editing state, the tool and the zoom
    are as before, and the offset has moved by the displacement of the
    pointer between pointer-down and the last move. *)
Theorem pan_gesture_moves_only_viewport
    (rect : option DOMRect) (e0 : MouseEvent)
    (frames : list (option DOMRect * MouseEvent)) (img : bool) (now : string)
    (st : EditorState) :
  panTriggered e0 st ->
  let st3 := handleMouseUp img now (moveFrames frames (handleMouseDown rect e0 st)) in
  bubbles st3 = bubbles st /\ history st3 = history st /\
  historyIndex st3 = historyIndex st /\ links st3 = links st /\
  gesture st3 = gesture st /\ edit st3 = edit st /\ tool st3 = tool st /\
  scale (view st3) = scale (view st) /\ isPanning (view st3) = false /\
  offset (view st3)
  = match last frames with
    | Some f => {| pt_x := clientX f.2 - (clientX e0 - pt_x (offset (view st)));
                   pt_y := clientY f.2 - (clientY e0 - pt_y (offset (view st))) |}
    | None => offset (view st)
    end.
Proof.
intros Hpan st3. subst st3.
rewrite handleMouseDown_pan by done. rewrite moveFrames_pan by done.
destruct (last frames) as [f|]; unfold handleMouseUp; simpl; done.
Qed.

End Pan.

(** ** Editing a bubble *)

Section Edit.

Implicit Types (st : EditorState) (b : TextBubble).

Lemma saveEdit_idle st : truthy (editingId (edit st)) = false -> saveEdit st = st.
Proof. intros H. unfold saveEdit. by rewrite H. Qed.

Lemma saveEdit_editingId st : editingId (edit (saveEdit st)) = None \/ saveEdit st = st.
Proof.
unfold saveEdit. destruct (truthy (editingId (edit st))); [left|by right].
destruct (findBubble _ _); [|done]. by destruct (_ || _ || _ || _).
Qed.

Lemma hasChanged_iff (e : Editing) b :
  bool_decide (text b <> editText e)
  || bool_decide (textColor b <> Some (editTextColor e))
  || bool_decide (backgroundColor b <> Some (editBgColor e))
  || bool_decide (fontFamily b <> Some (editFontFamily e)) = true
  <-> editChanged e b.
Proof.
unfold editChanged. rewrite !orb_true_iff, !bool_decide_eq_true. tauto.
Qed.

Lemma saveEdit_found st eid cur :
  editingId (edit st) = Some eid ->
  eid <> "" ->
  findBubble eid (bubbles st) = Some cur ->
  (editChanged (edit st) cur ->
   saveEdit st
   = setEditingId None
       (addToHistory
          (map (fun b => if bool_decide (bubble_id b = eid)
                         then applyEdit (edit st) b else b) (bubbles st)) st)) /\
  (~ editChanged (edit st) cur -> saveEdit st = setEditingId None st).
Proof.
intros Hid Hne Hfind.
assert (Htruthy : truthy (editingId (edit st)) = true).
{ rewrite Hid. simpl. by destruct (String.eqb_spec eid ""). }
unfold saveEdit. rewrite Htruthy, Hid. simpl. rewrite Hfind.
split; intros Hc.
- apply hasChanged_iff in Hc. by rewrite Hc.
- rewrite (not_true_is_false _ (fun Ht => Hc (proj1 (hasChanged_iff _ _) Ht))).
  done.
Qed.

(** X6: closing an editing session commits exactly when one of the four
    edited fields differs from the edited bubble: then the bubbles with the
    edited id get the text, the two colours and the font of the session,
    all else is kept, and the history gets one entry; otherwise only the
    session is closed.  Closing twice is the same as closing once. *)
Theorem saveEdit_commits_iff_changed (st : EditorState) (eid : string) (cur : TextBubble) :
  editingId (edit st) = Some eid ->
  eid <> "" ->
  findBubble eid (bubbles st) = Some cur ->
  let st' := saveEdit st in
  editingId (edit st') = None /\
  saveEdit st' = st' /\
  (~ editChanged (edit st) cur -> st' = setEditingId None st) /\
  (editChanged (edit st) cur ->
     history st' = take (historyIndex st + 1) (history st) ++ [bubbles st'] /\
     historyIndex st' = historyIndex st + 1 /\
     bubbles st'
     = map (fun b => if bool_decide (bubble_id b = eid) then applyEdit (edit st) b else b)
           (bubbles st)).
Proof.
intros Hid Hne Hfind st'.
destruct (saveEdit_found st eid cur Hid Hne Hfind) as [Hyes Hno].
assert (Hclosed : editingId (edit st') = None).
{ assert (Hdec : Decision (editChanged (edit st) cur))
    by (unfold editChanged; apply _).
  unfold st'. destruct Hdec as [Hc|Hc].
  - by rewrite Hyes.
  - by rewrite Hno. }
split; [exact Hclosed|]. split; [apply saveEdit_idle; by rewrite Hclosed|].
split; [exact Hno|].
intros Hc. unfold st'. by rewrite Hyes.
Qed.

Lemma orDefault_truthy (o : option string) d :
  truthy o = true -> Some (orDefault o d) = o.
Proof. unfold orDefault. intros H. rewrite H. by destruct o. Qed.

Lemma orDefault_falsy (o : option string) d :
  truthy o = false -> d <> "" -> o <> Some (orDefault o d).
Proof.
unfold orDefault. intros H Hd. rewrite H. destruct o as [s|]; [|done].
intros [= ->]. simpl in H. by destruct (String.eqb_spec d "").
Qed.

Lemma findBubble_map_hit (f : TextBubble -> TextBubble) (bs : list TextBubble) b :
  (forall x, bubble_id (f x) = bubble_id x) ->
  findBubble (bubble_id b) bs = Some b ->
  findBubble (bubble_id b)
    (map (fun x => if bool_decide (bubble_id x = bubble_id b) then f x else x) bs)
  = Some (f b).
Proof.
intros Hf Hfind. unfold findBubble in *.
induction bs as [|x xs IH]; [done|]. simpl in *.
destruct (bool_decide (bubble_id x = bubble_id b)) eqn:Hx.
- injection Hfind as ->. simpl. by rewrite Hf, bool_decide_eq_true_2.
- rewrite Hx. by apply IH.
Qed.

(** X7: opening a bubble for editing and closing it without any input
    leaves the store and the history alone when the bubble has a text
    colour, a background colour and a font; when one of them is absent or
    empty, closing commits the bubble with the default put in. *)
Theorem edit_without_input (st : EditorState) (b : TextBubble) :
  findBubble (bubble_id b) (bubbles st) = Some b ->
  bubble_id b <> "" ->
  let st' := saveEdit (startEditing b st) in
  (truthy (textColor b) = true -> truthy (backgroundColor b) = true ->
   truthy (fontFamily b) = true ->
   bubbles st' = bubbles st /\ history st' = history st /\
   historyIndex st' = historyIndex st) /\
  (truthy (textColor b) = false \/ truthy (backgroundColor b) = false \/
   truthy (fontFamily b) = false ->
   historyIndex st' = historyIndex st + 1 /\
   findBubble (bubble_id b) (bubbles st')
   = Some (applyEdit (edit (startEditing b st)) b)).
Proof.
intros Hfind Hne st'.
destruct (saveEdit_found (startEditing b st) (bubble_id b) b)
  as [Hyes Hno]; try done.
fold st' in Hyes, Hno. split.
- intros Ht Hb Hf. rewrite Hno; [done|].
  unfold editChanged; simpl.
  rewrite !orDefault_truthy by done. tauto.
- intros Hmissing. rewrite Hyes.
  + split; [done|]. cbn [bubbles setEditingId setEdit addToHistory addToHistoryFrom].
    by apply (findBubble_map_hit (applyEdit (edit (startEditing b st)))).
  + unfold editChanged; simpl.
    destruct Hmissing as [H|[H|H]].
    * right; left. by apply orDefault_falsy.
    * right; right; left. by apply orDefault_falsy.
    * right; right; right. by apply orDefault_falsy.
Qed.

End Edit.

(** ** Drawing a bubble and translating its region *)

Section Draw.

Implicit Types (st : EditorState) (b : TextBubble).

Lemma handleMouseUp_draw now st start current :
  isPanning (view st) = false ->
  truthy (resizingId (gesture st)) = false ->
  truthy (draggingId (gesture st)) = false ->
  drawSelection (gesture st) = Some (start, current) ->
  handleMouseUp true now st
  = if bool_decide (Rmax (pt_x start) (pt_x current)
                    - Rmin (pt_x start) (pt_x current) < 0.01)%R
       || bool_decide (Rmax (pt_y start) (pt_y current)
                       - Rmin (pt_y start) (pt_y current) < 0.01)%R
    then setDrawSelection None st
    else setDrawSelection None
           (setBubbles (bubbles st ++ [tempBubbleOf now (drawShape st) start current]) st).
Proof.
intros Hpan Hres Hdrag Hsel. unfold handleMouseUp.
by rewrite Hpan, Hres, Hdrag, Hsel.
Qed.

Lemma span_abs (a c : R) : (Rmax a c - Rmin a c = Rabs (c - a))%R.
Proof.
unfold Rabs. destruct (Rcase_abs (c - a)); solve_minmax.
Qed.


Lemma filter_other_ids (tempId : string) (bs : list TextBubble) :
  Forall (fun b => bubble_id b <> tempId) bs ->
  filter (fun b => bubble_id b <> tempId) bs = bs.
Proof.
induction 1 as [|x xs Hx _ IH]; [done|].
rewrite filter_cons, decide_True by done. by rewrite IH.
Qed.

Lemma map_replace_fresh (f : TextBubble -> TextBubble) (tempId : string)
    (bs : list TextBubble) :
  Forall (fun b => bubble_id b <> tempId) bs ->
  map (fun b => if bool_decide (bubble_id b = tempId) then f b else b) bs = bs.
Proof.
induction 1 as [|x xs Hx _ IH]; [done|].
simpl. by rewrite bool_decide_eq_false_2, IH.
Qed.

(** X9: when one of the canvas calls that crop the drawn region throws, the
    placeholder is removed and, its id being new, the store is exactly the
    one before the drawing, the history never having been touched.  A
    translation that fails does not end there: [translateRegion] catches its
    own errors and answers "Error" with the default colours, so that the
    placeholder stays where it is with the text "Error" and is committed as
    one history entry. *)
Theorem region_failure_restores_store
    (now : string) (st : EditorState) (start current : Point) :
  isPanning (view st) = false ->
  truthy (resizingId (gesture st)) = false ->
  truthy (draggingId (gesture st)) = false ->
  drawSelection (gesture st) = Some (start, current) ->
  (0.01 <= Rabs (pt_x current - pt_x start))%R ->
  (0.01 <= Rabs (pt_y current - pt_y start))%R ->
  Forall (fun b => bubble_id b <> now) (bubbles st) ->
  let st1 := handleMouseUp true now st in
  let tempBubble := tempBubbleOf now (drawShape st) start current in
  let st2 := regionResolved (historyIndex st1) tempBubble
               (translateRegion RegionThrows) st1 in
  regionFailed now st1 = setDrawSelection None st /\
  bubbles st2 = bubbles st ++ [setText "Error" tempBubble] /\
  history st2 = take (historyIndex st + 1) (history st) ++ [bubbles st2] /\
  historyIndex st2 = historyIndex st + 1.
Proof.
intros Hpan Hres Hdrag Hsel Hx Hy Hfresh st1 tempBubble st2.
subst st2 st1 tempBubble.
rewrite (handleMouseUp_draw now st start current) by done.
rewrite !span_abs, !bool_decide_eq_false_2 by lra. simpl. split.
- unfold regionFailed, setBubbles, setDrawSelection, setGesture. simpl.
  rewrite filter_app, filter_other_ids by done.
  rewrite filter_cons, decide_False, filter_nil, app_nil_r by (simpl; tauto).
  reflexivity.
- unfold regionResolved. simpl.
  rewrite map_app, (map_replace_fresh _ now) by done. simpl.
  rewrite bool_decide_eq_true_2 by done. done.
Qed.

Lemma map_replace_unique (f : TextBubble -> TextBubble) (id : string)
    (bs : list TextBubble) i b :
  bs !! i = Some b -> bubble_id b = id ->
  (forall j x, bs !! j = Some x -> bubble_id x = id -> j = i) ->
  map (fun x => if bool_decide (bubble_id x = id) then f x else x) bs
  = <[i := f b]> bs.
Proof.
intros Hi Hid Huniq. apply list_eq. intros j.
change (map ?g bs) with (g <$> bs). rewrite list_lookup_fmap.
destruct (decide (j = i)) as [->|Hne].
- rewrite list_lookup_insert_eq by (by eapply lookup_lt_Some).
  rewrite Hi. simpl. by rewrite bool_decide_eq_true_2.
- rewrite list_lookup_insert_ne by done.
  destruct (bs !! j) as [x|] eqn:Hj; [|done]. simpl.
  rewrite bool_decide_eq_false_2; [done|]. intros Heq. apply Hne. by eapply Huniq.
Qed.

Lemma translateRegion_nonempty (o : RegionOutcome) :
  rr_text (translateRegion o) <> "" /\
  rr_textColor (translateRegion o) <> "" /\
  rr_backgroundColor (translateRegion o) <> "".
Proof.
assert (H : forall (x : option string) d, d <> "" -> orDefault x d <> "").
{ intros x d Hd. unfold orDefault. destruct (truthy x) eqn:Ht; [|done].
  destruct x as [s|]; [|done]. simpl in *. by destruct (String.eqb_spec s ""). }
destruct o as [|t c b]; simpl; [done|]. repeat split; by apply H.
Qed.

(** X10: when the answer for a drawn region arrives and the history index is
    still the one of the pointer-up, the placeholder is replaced where it
    stands by a bubble with the same id, box, shape and scale and with a
    non-empty text and colours (the answer, or the defaults), and that store
    is committed as one entry; when no bubble has the placeholder's id any
    more, the store is unchanged and an entry is committed all the same. *)
Theorem region_answer_commits_in_place
    (o : RegionOutcome) (tempBubble : TextBubble) (st : EditorState) :
  history_wf st ->
  let r := translateRegion o in
  let st' := regionResolved (historyIndex st) tempBubble r st in
  (history st' = take (historyIndex st + 1) (history st) ++ [bubbles st'] /\
   historyIndex st' = historyIndex st + 1 /\ history_wf st') /\
  (forall i,
     bubbles st !! i = Some tempBubble ->
     (forall j x, bubbles st !! j = Some x -> bubble_id x = bubble_id tempBubble -> j = i) ->
     bubbles st' = <[i := resolvedBubbleOf tempBubble r]> (bubbles st) /\
     setText (text tempBubble)
       (setBox (box tempBubble) (resolvedBubbleOf tempBubble r))
     = {| bubble_id := bubble_id tempBubble; text := text tempBubble;
          originalText := originalText tempBubble; box := box tempBubble;
          isManual := isManual tempBubble; textColor := Some (rr_textColor r);
          backgroundColor := Some (rr_backgroundColor r); shape := shape tempBubble;
          fontSizeScale := fontSizeScale tempBubble;
          fontFamily := fontFamily tempBubble |} /\
     text (resolvedBubbleOf tempBubble r) <> "" /\
     textColor (resolvedBubbleOf tempBubble r) <> Some "" /\
     backgroundColor (resolvedBubbleOf tempBubble r) <> Some "") /\
  (Forall (fun b => bubble_id b <> bubble_id tempBubble) (bubbles st) ->
   bubbles st' = bubbles st).
Proof.
intros Hwf r st'. subst st'. unfold regionResolved, history_wf in *. simpl.
split; [|split].
- split; [done|]. split; [done|]. rewrite length_app, length_take. simpl. lia.
- intros i Hi Huniq.
  destruct (translateRegion_nonempty o) as (Ht & Hc & Hb). fold r in Ht, Hc, Hb.
  split; [by apply (map_replace_unique (fun _ => resolvedBubbleOf tempBubble r)
                     _ _ _ tempBubble)|].
  split; [done|].
  simpl. repeat split; congruence.
- intros Hnone. induction Hnone as [|x xs Hx _ IH]; [done|].
  simpl. by rewrite bool_decide_eq_false_2, IH.
Qed.

(** X11: the answer for a drawn region is committed with the history index
    of the render in which the pointer was released; when the index has
    advanced since, the history is cut after that older index while the
    index is incremented from its current value, and the index then points
    past the end of the history. *)
Theorem region_answer_after_commit_overruns
    (closureIndex : nat) (tempBubble : TextBubble) (r : RegionResult)
    (st : EditorState) :
  history_wf st ->
  closureIndex < historyIndex st ->
  let st' := regionResolved closureIndex tempBubble r st in
  length (history st') = closureIndex + 2 /\
  historyIndex st' = historyIndex st + 1 /\
  history st' !! historyIndex st' = None /\
  ~ history_wf st'.
Proof.
intros Hwf Hstale st'. subst st'. unfold history_wf in *.
unfold regionResolved. simpl.
assert (Hlen : length (take (closureIndex + 1) (history st) ++
                      [map (fun b => if bool_decide (bubble_id b = bubble_id tempBubble)
                                     then resolvedBubbleOf tempBubble r else b)
                           (bubbles st)]) = closureIndex + 2).
{ rewrite length_app, length_take. simpl. lia. }
split; [exact Hlen|]. split; [done|]. split.
- apply lookup_ge_None. lia.
- lia.
Qed.

End Draw.

(** ** Resizing, dragging and picking a bubble *)

Section Pointer.

Implicit Types (st : EditorState) (b tb : TextBubble).





Lemma moveFrames_drag_inv frames st off id :
  dragActive st ->
  dragOffset (gesture st) = Some off ->
  draggingId (gesture st) = Some id ->
  let st2 := moveFrames frames st in
  dragActive st2 /\ dragOffset (gesture st2) = Some off /\
  draggingId (gesture st2) = Some id /\
  forall i b, bubbles st !! i = Some b ->
    exists b', bubbles st2 !! i = Some b' /\ b' = setBox (box b') b /\
      (xmax (box b') - xmin (box b') = xmax (box b) - xmin (box b))%R /\
      (ymax (box b') - ymin (box b') = ymax (box b) - ymin (box b))%R /\
      (bubble_id b <> id -> b' = b).
Proof.
revert st. induction frames as [|f frames IH]; intros st Hact Hoff Hid.
- simpl. split; [done|]. split; [done|]. split; [done|].
  intros i b Hi. exists b. split; [done|]. split; [by destruct b|]. done.
- simpl.
  pose proof (handleMouseMove_drag f.1 f.2 st off Hact Hoff) as Hstep.
  assert (Hact' : dragActive (handleMouseMove f.1 f.2 st)).
  { rewrite Hstep. destruct Hact as (? & ? & ? & ?). unfold dragActive; simpl.
    rewrite Hoff. eauto. }
  destruct (IH (handleMouseMove f.1 f.2 st) Hact') as (Ha & Ho & Hi' & Hall).
  { by rewrite Hstep. }
  { by rewrite Hstep. }
  split; [done|]. split; [done|]. split; [done|].
  intros i b Hb.
  assert (Hmid : exists bm, bubbles (handleMouseMove f.1 f.2 st) !! i = Some bm /\
            bm = setBox (box bm) b /\
            (xmax (box bm) - xmin (box bm) = xmax (box b) - xmin (box b))%R /\
            (ymax (box bm) - ymin (box bm) = ymax (box b) - ymin (box b))%R /\
            (bubble_id b <> id -> bm = b)).
  { rewrite Hstep. simpl. change (map ?g ?l) with (g <$> l).
    rewrite list_lookup_fmap, Hb. simpl. eexists; split; [reflexivity|].
    rewrite Hid. case_bool_decide as Hne.
    - repeat split; try done. by destruct b.
    - simpl. split; [done|].
      destruct (dragBox_size off (getRelativeCoords f.1 f.2) (box b)) as [Hw Hh].
      repeat split; try done. intros Hd. exfalso. apply Hd. congruence. }
  destruct Hmid as (bm & Hbm & Hset & Hw & Hh & Hsame).
  destruct (Hall i bm Hbm) as (b' & Hb' & Hset' & Hw' & Hh' & Hsame').
  exists b'. split; [done|]. split.
  { transitivity (setBox (box b') bm); [done|]. rewrite Hset. by destruct b. }
  split; [lra|]. split; [lra|].
  intros Hd. assert (bm = b) as Hbmb by auto. subst bm. apply Hsame'. done.
Qed.

(** X13: in a drag gesture that starts with a pointer-down on a bubble and
    has at least one pointer-move frame, the grabbed bubble's box is, after
    the last frame, its box at pointer-down translated by the pointer's
    displacement (in canvas units, over exact reals), however many frames
    came before; bubbles with another id are as they were and nothing but
    the box changes in any bubble. *)
Theorem drag_follows_pointer
    (rect rectN : option DOMRect) (e0 eN : MouseEvent)
    (frames : list (option DOMRect * MouseEvent)) (st : EditorState)
    (tb : TextBubble) :
  tool st = select ->
  button e0 <> 1 ->
  isSpacePressed (view st) = false ->
  truthy (editingId (edit st)) = false ->
  truthy (targetHandle e0) = false ->
  List.find (hitTest (getRelativeCoords rect e0)) (reverse (bubbles st)) = Some tb ->
  isPanning (view st) = false ->
  truthy (resizingId (gesture st)) = false ->
  bubble_id tb <> "" ->
  let c0 := getRelativeCoords rect e0 in
  let cN := getRelativeCoords rectN eN in
  let dx := ((pt_x cN - pt_x c0) * 1000)%R in
  let dy := ((pt_y cN - pt_y c0) * 1000)%R in
  let st2 := moveFrames (frames ++ [(rectN, eN)]) (handleMouseDown rect e0 st) in
  forall i b, bubbles st !! i = Some b ->
    exists b', bubbles st2 !! i = Some b' /\ b' = setBox (box b') b /\
      (bubble_id b <> bubble_id tb -> b' = b) /\
      (b = tb ->
         xmin (box b') = (xmin (box tb) + dx)%R /\
         xmax (box b') = (xmax (box tb) + dx)%R /\
         ymin (box b') = (ymin (box tb) + dy)%R /\
         ymax (box b') = (ymax (box tb) + dy)%R).
Proof.
intros Htool Hbtn Hspace Hedit Hhandle Hfind Hpan Hres Hid c0 cN dx dy st2 i b Hb.
subst st2. unfold moveFrames. rewrite foldl_snoc.
change (foldl _ ?s frames) with (moveFrames frames s). cbn [fst snd].
set (off := {| pt_x := pt_x c0 - xmin (box tb) / 1000;
               pt_y := pt_y c0 - ymin (box tb) / 1000 |}).
set (st1 := handleMouseDown rect e0 st).
assert (Hst1 : st1 = setIsDragging false
                       (setDragging (Some (bubble_id tb)) (Some off) st)).
{ by apply handleMouseDown_starts_drag. }
assert (Hact : dragActive st1).
{ rewrite Hst1. unfold dragActive; simpl.
  split; [done|]. split; [done|]. split; [|by eexists].
  by destruct (String.eqb_spec (bubble_id tb) ""). }
destruct (moveFrames_drag_inv frames st1 off (bubble_id tb) Hact)
  as (Hact2 & Hoff2 & Hid2 & Hall); [by rewrite Hst1|by rewrite Hst1|].
assert (Hb1 : bubbles st1 !! i = Some b) by (by rewrite Hst1).
destruct (Hall i b Hb1) as (bm & Hbm & Hset & Hw & Hh & Hsame).
simpl. rewrite (handleMouseMove_drag rectN eN _ off Hact2 Hoff2). simpl.
change (map ?g ?l) with (g <$> l). rewrite list_lookup_fmap, Hbm. simpl.
eexists; split; [reflexivity|]. rewrite Hid2.
assert (Hbmid : bubble_id bm = bubble_id b) by (by rewrite Hset).
case_bool_decide as Hne.
- split; [done|]. split.
  + intros Hd. by apply Hsame.
  + intros ->. exfalso. apply Hne. by rewrite Hbmid.
- split; [rewrite Hset at 2; by destruct b|]. split.
  + intros Hd. exfalso. apply Hd. congruence.
  + intros ->. simpl. fold cN. subst off dx dy. simpl. repeat split; lra.
Qed.





End Pointer.

(** ** The chains of a retranslation pass *)

Section ChainCover.

Lemma followsAdj_snoc adj curr ext lst n :
  followsAdj adj curr ext ->
  last (curr :: ext) = Some lst ->
  (exists outs, adj !! lst = Some outs /\ n ∈ outs) ->
  followsAdj adj curr (ext ++ [n]).
Proof.
revert curr. induction ext as [|x ext IH]; intros curr Hf Hlast Hn.
- simpl in *. injection Hlast as ->. done.
- destruct Hf as [Hx Hf]. simpl. split; [done|]. apply IH; [done| |done].
  by rewrite last_cons_cons in Hlast.
Qed.

(** The walk of [getChain] extends the path along the adjacency list, from
    the node the path ends with. *)
Lemma getChainLoop_follows adj fuel visited path first curr r :
  getChainLoop fuel adj visited (first :: path) curr = Some r ->
  last (first :: path) = Some curr ->
  followsAdj adj first path ->
  exists ext, r.1 = first :: ext /\ followsAdj adj first ext.
Proof.
revert visited path curr.
induction fuel as [|fuel IH]; intros visited path curr Hrun Hlast Hf; [done|].
cbn [getChainLoop] in Hrun.
assert (Hstop : Some (first :: path, visited) = Some r ->
          exists ext, r.1 = first :: ext /\ followsAdj adj first ext).
{ intros [= <-]. by exists path. }
destruct (adj !! curr) as [[|n0 ns]|] eqn:Hadj; [by apply Hstop| |by apply Hstop].
destruct (List.find (fun n => negb (bool_decide (n ∈ visited))) (n0 :: ns))
  as [next|] eqn:Hfind; [|by apply Hstop].
destruct (truthy (Some next)); [|by apply Hstop].
apply find_unvisited in Hfind as [Hin _].
apply (IH ({[next]} ∪ visited) (path ++ [next]) next); [done| |].
- change (first :: path ++ [next]) with ((first :: path) ++ [next]).
  by rewrite last_snoc.
- eapply followsAdj_snoc; [done|done|]. by exists (n0 :: ns).
Qed.

Lemma elem_of_outNeighbours conns a n :
  n ∈ outNeighbours conns a -> (a, n) ∈ conns.
Proof.
unfold outNeighbours. intros Hin.
apply list_elem_of_In, in_map_iff in Hin as ([f t] & Heq & Hc).
apply filter_In in Hc as [Hc Hf]. simpl in *. subst t.
apply String.eqb_eq in Hf. subst f. by apply list_elem_of_In.
Qed.

Lemma followsAdj_linked conns a ext :
  followsAdj (buildAdj conns) a ext -> linkedPath conns (a :: ext).
Proof.
revert a. induction ext as [|n ext IH]; intros a Hf k x y Hx Hy.
- destruct k; simpl in Hy; by rewrite ?lookup_nil in Hy.
- destruct Hf as [(outs & Hl & Hin) Hf]. destruct k as [|k].
  + simpl in Hx, Hy. injection Hx as <-. injection Hy as <-.
    rewrite buildAdj_lookup in Hl. case_bool_decide; [|done].
    injection Hl as <-. by apply elem_of_outNeighbours.
  + simpl in Hx, Hy. by apply (IH n Hf k).
Qed.

Lemma linkedPath_nodes conns a ext x :
  a ∈ nodesOf conns -> linkedPath conns (a :: ext) -> x ∈ a :: ext ->
  x ∈ nodesOf conns.
Proof.
intros Ha Hlinked Hx. apply list_elem_of_lookup in Hx as [k Hk].
destruct k as [|k]; [simpl in Hk; by injection Hk as <-|].
assert (Hlt : k < length (a :: ext)).
{ apply lookup_lt_Some in Hk. lia. }
destruct (lookup_lt_is_Some_2 _ _ Hlt) as [y Hy].
apply elem_of_nodesOf. exists (y, x). split; [by apply (Hlinked k)|by right].
Qed.

Lemma visitNode_cover adj (nodeSet : gset string) (nodes : list string) fuel acc n :
  adjClosed adj nodeSet -> size nodeSet < fuel ->
  chainsCover adj nodes acc -> n ∈ nodes ->
  exists acc', visitNode fuel adj (Some acc) n = Some acc' /\
    chainsCover adj nodes acc' /\ acc.1 ⊆ acc'.1 /\ n ∈ acc'.1.
Proof.
intros Hclosed Hsize [Hvis Hch] Hn. destruct acc as [visited chains].
simpl in *. case_bool_decide as Hin.
- eexists; split; [reflexivity|]. by repeat split.
- destruct (getChain_spec adj nodeSet fuel visited n Hclosed Hsize Hin)
    as (ext & Hrun & _ & _).
  assert (Hfol : followsAdj adj n ext).
  { unfold getChain in Hrun.
    destruct (getChainLoop_follows adj fuel _ [] n n _ Hrun) as (ext' & Heq & Hf);
      [done|done|].
    simpl in Heq. by injection Heq as <-. }
  rewrite Hrun. eexists; split; [reflexivity|]. cbn [fst snd].
  split; [split|split].
  + intros x Hx. cbn [fst snd] in *. apply elem_of_union in Hx as [Hx|Hx].
    * exists (n :: ext). split; [apply elem_of_app; right; by apply list_elem_of_singleton|].
      by apply elem_of_list_to_set in Hx.
    * destruct (Hvis x Hx) as (c & Hc & Hxc). exists c.
      split; [apply elem_of_app; by left|done].
  + intros c Hc. cbn [fst snd] in *. apply elem_of_app in Hc as [Hc|Hc]; [by apply Hch|].
    apply list_elem_of_singleton in Hc. subst c. by exists n, ext.
  + set_solver.
  + set_solver.
Qed.

Lemma visitNodes_cover adj (nodeSet : gset string) (nodes : list string) fuel
    (ns : list string) acc :
  adjClosed adj nodeSet -> size nodeSet < fuel ->
  chainsCover adj nodes acc -> (forall n, n ∈ ns -> n ∈ nodes) ->
  exists acc', foldl (visitNode fuel adj) (Some acc) ns = Some acc' /\
    chainsCover adj nodes acc' /\ acc.1 ⊆ acc'.1 /\ (forall n, n ∈ ns -> n ∈ acc'.1).
Proof.
intros Hclosed Hsize. revert acc.
induction ns as [|n ns IH]; intros acc Hinv Hns.
- exists acc. split; [done|]. split; [done|]. split; [done|].
  intros n Hn. by apply elem_of_nil in Hn.
- destruct (visitNode_cover adj nodeSet nodes fuel acc n Hclosed Hsize Hinv)
    as (acc1 & Hrun & Hinv1 & Hsub1 & Hn1); [apply Hns; by left|].
  destruct (IH acc1 Hinv1) as (acc2 & Hrun2 & Hinv2 & Hsub2 & Hns2).
  { intros m Hm. apply Hns. by right. }
  exists acc2. cbn [foldl]. rewrite Hrun. split; [done|]. split; [done|].
  split; [set_solver|].
  intros m Hm. apply elem_of_cons in Hm as [->|Hm]; [set_solver|by apply Hns2].
Qed.

(** X15: for every list of links the decomposition returns chains that
    partition the linked bubbles: a bubble id is in a chain exactly when a
    link mentions it, no id is in two chains or twice in one, no chain is
    empty, and inside a chain every bubble is linked to the next one. *)
Theorem chains_partition_linked_bubbles (conns : list (string * string)) :
  exists chains,
    decompose conns = Some chains /\
    (forall x, x ∈ nodesOf conns <-> exists c, c ∈ chains /\ x ∈ c) /\
    chainsDisjoint chains /\
    Forall (fun c => NoDup c /\ c <> [] /\ linkedPath conns c) chains.
Proof.
destruct (decompose_total conns) as (chains & Hdec & Hdis & Hall).
exists chains. split; [done|].
unfold decompose, decomposeWith in Hdec.
set (nodeSet := list_to_set (nodesOf conns) : gset string).
assert (Hclosed : adjClosed (buildAdj conns) nodeSet) by apply buildAdj_closed.
assert (Hsize : size nodeSet < walkFuel conns).
{ unfold nodeSet, walkFuel. rewrite size_list_to_set by apply NoDup_nodesOf. lia. }
assert (Hinit : chainsCover (buildAdj conns) (nodesOf conns) (∅, [])).
{ split; simpl.
  - intros x Hx. by apply elem_of_empty in Hx.
  - intros c Hc. by apply elem_of_nil in Hc. }
destruct (visitNodes_cover _ nodeSet (nodesOf conns) _ (startsOf conns) _
            Hclosed Hsize Hinit) as (acc1 & Hrun1 & Hinv1 & _ & _).
{ intros n Hn. unfold startsOf in Hn. by apply list_elem_of_filter in Hn as [_ Hn]. }
destruct (visitNodes_cover _ nodeSet (nodesOf conns) _ (nodesOf conns) _
            Hclosed Hsize Hinv1) as (acc2 & Hrun2 & [Hvis Hch] & _ & Hcov); [done|].
rewrite Hrun1, Hrun2 in Hdec. simpl in Hdec. injection Hdec as <-.
assert (Hlinked : forall c, c ∈ acc2.2 ->
          linkedPath conns c /\ forall x, x ∈ c -> x ∈ nodesOf conns).
{ intros c Hc. destruct (Hch c Hc) as (a & ext & -> & Ha & Hf).
  apply followsAdj_linked in Hf. split; [done|].
  intros x Hx. by apply (linkedPath_nodes conns a ext). }
split; [|split; [done|]].
- intros x. split.
  + intros Hx. apply Hvis. by apply Hcov.
  + intros (c & Hc & Hx). by apply (Hlinked c Hc).
- apply Forall_forall. intros c Hc.
  rewrite Forall_forall in Hall. destruct (Hall c Hc) as [Hnd Hne].
  split; [done|]. split; [done|]. by apply Hlinked.
Qed.

End ChainCover.

(** ** Whole sessions *)

Section Session.

Implicit Types (st : EditorState) (ev : EditorEvent).

Ltac history_case :=
  first [ left; split; reflexivity
        | right; left; eexists; split; reflexivity
        | right; right; split; reflexivity ].

Ltac branch :=
  match goal with
  | |- context [if ?c then _ else _] => destruct c
  | |- context [match ?c with _ => _ end] => destruct c
  end.

(** What an event that is no undo does to the history: nothing, one commit
    of the current render, or a redo. *)
Lemma handler_history st st' :
  (history st' = history st /\ historyIndex st' = historyIndex st) \/
  (exists s, history st' = take (historyIndex st + 1) (history st) ++ [s] /\
             historyIndex st' = historyIndex st + 1) \/
  (history st' = history (handleRedo st) /\
   historyIndex st' = historyIndex (handleRedo st)) ->
  history_wf st -> history st !! 0 = Some [] ->
  history_wf st' /\ history st' !! 0 = Some [].
Proof.
unfold history_wf.
intros [[-> ->]|[(s & -> & ->)|[-> ->]]] Hwf Hhead.
- done.
- split.
  + rewrite length_app, length_take. simpl. lia.
  + destruct (history st) as [|h0 h]; [done|].
    rewrite Nat.add_1_r. simpl in *. done.
- split; [by apply handleRedo_wf|by rewrite handleRedo_history].
Qed.

Lemma handleUndo_history_inv st st' :
  handleUndo st = Some st' ->
  history_wf st -> history st !! 0 = Some [] ->
  history_wf st' /\ history st' !! 0 = Some [].
Proof.
intros Hu Hwf Hhead. split; [by eapply handleUndo_wf|].
by apply handleUndo_Some in Hu as (-> & _).
Qed.

(** No event makes a render throw in a state whose index is inside the
    history, and the first entry stays the empty store. *)
Lemma editorStep_history_inv ev st :
  history_wf st -> history st !! 0 = Some [] ->
  exists st', editorStep st ev = Some st' /\
    history_wf st' /\ history st' !! 0 = Some [].
Proof.
intros Hwf Hhead.
assert (Hsome : forall st', 
          (history st' = history st /\ historyIndex st' = historyIndex st) \/
          (exists s, history st' = take (historyIndex st + 1) (history st) ++ [s] /\
                     historyIndex st' = historyIndex st + 1) \/
          (history st' = history (handleRedo st) /\
           historyIndex st' = historyIndex (handleRedo st)) ->
          exists st'', Some st' = Some st'' /\
            history_wf st'' /\ history st'' !! 0 = Some []).
{ intros st' Hcase. exists st'. split; [done|]. by apply (handler_history st). }
assert (Hundo : exists st', handleUndo st = Some st' /\
                  history_wf st' /\ history st' !! 0 = Some []).
{ destruct (handleUndo_defined st Hwf) as [st' Hu]. exists st'.
  split; [done|]. by apply (handleUndo_history_inv st). }
destruct ev; cbn [editorStep].
- apply Hsome. unfold handleMouseDown, handleBubbleConnect, saveEdit.
  repeat first [history_case | branch].
- apply Hsome. left. apply handleMouseMove_history.
- apply Hsome. unfold handleMouseUp. repeat first [history_case | branch].
- apply Hsome. history_case.
- unfold handleKeyDown.
  destruct ((metaKey e || ctrlKey e) && String.eqb (key e) "z").
  { destruct (shiftKey e); [apply Hsome; history_case|exact Hundo]. }
  destruct ((metaKey e || ctrlKey e) && String.eqb (key e) "y");
    [apply Hsome; history_case|].
  destruct (String.eqb (code e) "Space" && negb (truthy (editingId (edit st))));
    [|apply Hsome; history_case].
  apply Hsome. destruct (negb (isRepeat e)); history_case.
- apply Hsome. unfold handleKeyUp. repeat first [history_case | branch].
- apply Hsome. history_case.
- apply Hsome. history_case.
- apply Hsome. history_case.
- apply Hsome. history_case.
- exact Hundo.
- apply Hsome. history_case.
- apply Hsome. history_case.
- apply Hsome. history_case.
- apply Hsome. history_case.
- apply Hsome. unfold handleDoubleClick. repeat first [history_case | branch].
- apply Hsome. destruct i; history_case.
- apply Hsome. unfold saveEdit. repeat first [history_case | branch].
- apply Hsome. unfold handleAutoScan, scanFinished.
  repeat first [history_case | branch].
- unfold handleRetranslateLinked, retranslateFinished.
  destruct (connections (links st)) eqn:Hc; [apply Hsome; history_case|].
  rewrite <- Hc.
  destruct (decompose_total (connections (links st))) as (chains & -> & _).
  apply Hsome. history_case.
- apply Hsome. history_case.
Qed.

Lemma editorStep_scale ev st st' :
  editorStep st ev = Some st' ->
  (0.5 <= scale (view st) <= 5)%R ->
  (0.5 <= scale (view st') <= 5)%R.
Proof.
intros Hstep Hs.
assert (Hsame : forall x, Some x = Some st' -> scale (view x) = scale (view st) ->
                (0.5 <= scale (view st') <= 5)%R).
{ intros x [= ->] Hx. by rewrite Hx. }
assert (Hundo : forall x, handleUndo st = Some x -> scale (view x) = scale (view st)).
{ intros x Hu. destruct (decide (0 < historyIndex st)) as [Hpos|Hzero].
  - apply handleUndo_Some in Hu as (_ & _ & Hsnap & _).
    destruct (Hsnap Hpos) as [_ ->]. reflexivity.
  - apply handleUndo_Some in Hu as (_ & _ & _ & Hz). by rewrite Hz by lia. }
assert (Hredo : scale (view (handleRedo st)) = scale (view st)).
{ unfold handleRedo. repeat first [reflexivity | branch]. }
destruct ev; cbn [editorStep] in Hstep.
- eapply Hsame; [exact Hstep|]. unfold handleMouseDown, handleBubbleConnect, saveEdit.
  repeat first [reflexivity | branch].
- eapply Hsame; [exact Hstep|]. unfold handleMouseMove.
  repeat first [reflexivity | branch].
- eapply Hsame; [exact Hstep|]. unfold handleMouseUp.
  repeat first [reflexivity | branch].
- by eapply Hsame.
- unfold handleKeyDown in Hstep.
  destruct ((metaKey e || ctrlKey e) && String.eqb (key e) "z").
  { destruct (shiftKey e); [by eapply Hsame|].
    rewrite (Hundo st' Hstep). done. }
  destruct ((metaKey e || ctrlKey e) && String.eqb (key e) "y"); [by eapply Hsame|].
  destruct (String.eqb (code e) "Space" && negb (truthy (editingId (edit st))));
    [|by eapply Hsame].
  eapply Hsame; [exact Hstep|]. by destruct (negb (isRepeat e)).
- eapply Hsame; [exact Hstep|]. unfold handleKeyUp.
  repeat first [reflexivity | branch].
- injection Hstep as <-. unfold handleWheel. simpl. split; solve_minmax.
- injection Hstep as <-. unfold zoomIn. simpl. split; solve_minmax.
- injection Hstep as <-. unfold zoomOut. simpl. split; solve_minmax.
- by eapply Hsame.
- rewrite (Hundo st' Hstep). done.
- by eapply Hsame.
- by eapply Hsame.
- by eapply Hsame.
- by eapply Hsame.
- eapply Hsame; [exact Hstep|]. unfold handleDoubleClick.
  repeat first [reflexivity | branch].
- eapply Hsame; [exact Hstep|]. by destruct i.
- eapply Hsame; [exact Hstep|]. unfold saveEdit.
  repeat first [reflexivity | branch].
- eapply Hsame; [exact Hstep|]. unfold handleAutoScan, scanFinished.
  repeat first [reflexivity | branch].
- unfold handleRetranslateLinked, retranslateFinished in Hstep.
  destruct (connections (links st)); [by eapply Hsame|].
  destruct (decompose _); [|done]. by eapply Hsame.
- by eapply Hsame.
Qed.

Lemma editorStep_linksOk ev st st' :
  editorStep st ev = Some st' ->
  linksOk (connections (links st)) ->
  linksOk (connections (links st')).
Proof.
intros Hstep Hok.
assert (Hsame : forall x, Some x = Some st' ->
                connections (links x) = connections (links st) ->
                linksOk (connections (links st'))).
{ intros x [= ->] Hx. by rewrite Hx. }
assert (Hundo : forall x, handleUndo st = Some x ->
                connections (links x) = connections (links st)).
{ intros x Hu. destruct (decide (0 < historyIndex st)) as [Hpos|Hzero].
  - apply handleUndo_Some in Hu as (_ & _ & Hsnap & _).
    destruct (Hsnap Hpos) as [_ ->]. reflexivity.
  - apply handleUndo_Some in Hu as (_ & _ & _ & Hz). by rewrite Hz by lia. }
assert (Hredo : connections (links (handleRedo st)) = connections (links st)).
{ unfold handleRedo. repeat first [reflexivity | branch]. }
destruct ev; cbn [editorStep] in Hstep.
- injection Hstep as <-. by apply handleMouseDown_linksOk.
- eapply Hsame; [exact Hstep|]. unfold handleMouseMove.
  repeat first [reflexivity | branch].
- eapply Hsame; [exact Hstep|]. unfold handleMouseUp.
  repeat first [reflexivity | branch].
- by eapply Hsame.
- unfold handleKeyDown in Hstep.
  destruct ((metaKey e || ctrlKey e) && String.eqb (key e) "z").
  { destruct (shiftKey e); [by eapply Hsame|].
    rewrite (Hundo st' Hstep). done. }
  destruct ((metaKey e || ctrlKey e) && String.eqb (key e) "y"); [by eapply Hsame|].
  destruct (String.eqb (code e) "Space" && negb (truthy (editingId (edit st))));
    [|by eapply Hsame].
  eapply Hsame; [exact Hstep|]. by destruct (negb (isRepeat e)).
- eapply Hsame; [exact Hstep|]. unfold handleKeyUp.
  repeat first [reflexivity | branch].
- by eapply Hsame.
- by eapply Hsame.
- by eapply Hsame.
- by eapply Hsame.
- rewrite (Hundo st' Hstep). done.
- by eapply Hsame.
- injection Hstep as <-. unfold handleDeleteBubble. simpl. by apply linksOk_filter.
- by eapply Hsame.
- by eapply Hsame.
- eapply Hsame; [exact Hstep|]. unfold handleDoubleClick.
  repeat first [reflexivity | branch].
- eapply Hsame; [exact Hstep|]. by destruct i.
- eapply Hsame; [exact Hstep|]. apply (f_equal connections), saveEdit_links.
- eapply Hsame; [exact Hstep|]. unfold handleAutoScan, scanFinished.
  repeat first [reflexivity | branch].
- unfold handleRetranslateLinked, retranslateFinished in Hstep.
  destruct (connections (links st)) eqn:Hc; [eapply Hsame; [exact Hstep|exact Hc]|].
  destruct (decompose _); [|done]. eapply Hsame; [exact Hstep|exact Hc].
- by eapply Hsame.
Qed.

Lemma editorStep_inv ev st :
  editorInv st -> exists st', editorStep st ev = Some st' /\ editorInv st'.
Proof.
intros (Hwf & Hhead & Hscale & Hlinks).
destruct (editorStep_history_inv ev st Hwf Hhead) as (st' & Hstep & Hwf' & Hhead').
exists st'. split; [done|]. split; [done|]. split; [done|].
split; [by eapply editorStep_scale|by eapply editorStep_linksOk].
Qed.

Lemma runEditor_inv evs st :
  editorInv st -> exists st', runEditor evs st = Some st' /\ editorInv st'.
Proof.
revert st. induction evs as [|ev evs IH]; intros st Hinv; [by exists st|].
destruct (editorStep_inv ev st Hinv) as (st1 & Hstep & Hinv1).
cbn [runEditor]. rewrite Hstep. cbn [mbind option_bind]. by apply IH.
Qed.

Lemma initialState_inv : editorInv initialState.
Proof.
split; [apply initialState_wf|]. split; [done|]. split; [simpl; lra|].
apply linksOk_nil.
Qed.

(** X16: a session that starts in the initial state and receives any
    sequence of pointer, keyboard, wheel, toolbar, editing, deletion, scan
    and retranslation events (the two awaiting handlers taken as one step
    each, the commit of a drawn region's answer left out) never makes a
    render throw, and in every state it reaches the history index points
    into the history, the first history entry is the empty store, the zoom
    factor is within [0.5, 5], and the link set has no self-loop, no
    duplicate and no pair in both directions. *)
Theorem session_invariant (evs : list EditorEvent) :
  exists st,
    runEditor evs initialState = Some st /\
    historyIndex st < length (history st) /\
    history st !! 0 = Some [] /\
    (0.5 <= scale (view st) <= 5)%R /\
    linksOk (connections (links st)).
Proof.
apply (runEditor_inv evs initialState), initialState_inv.
Qed.

(** X17: from every state such a session reaches after at least one commit,
    undoing as many times as the history index says shows the empty store
    the session started with, and none of these undos throws. *)
Theorem undo_all_shows_empty_store (evs : list EditorEvent) (st : EditorState) :
  runEditor evs initialState = Some st ->
  0 < historyIndex st ->
  exists st',
    undos (historyIndex st) st = Some st' /\
    bubbles st' = [] /\ historyIndex st' = 0.
Proof.
intros Hrun Hpos.
destruct (runEditor_inv evs initialState initialState_inv)
  as (st0 & Hrun0 & Hwf & Hhead & _).
rewrite Hrun in Hrun0. injection Hrun0 as <-.
destruct (undos_wf (historyIndex st) st Hwf) as (st' & Hu & _ & Hi & Hb).
exists st'. split; [done|]. split; [|lia].
specialize (Hb Hpos (le_n _)). rewrite Nat.sub_diag, Hhead in Hb.
by injection Hb as <-.
Qed.

(** X18: deleting a bubble and undoing brings the bubble back but not its
    links: the store is the one before the deletion, while every link that
    touched the deleted bubble stays removed. *)
Theorem undo_of_delete_keeps_links_removed (id : string) (st : EditorState) :
  history_wf st -> in_sync st ->
  exists st',
    handleUndo (handleDeleteBubble id st) = Some st' /\
    bubbles st' = bubbles st /\
    historyIndex st' = historyIndex st /\
    connections (links st')
    = filter (fun c => c.1 <> id /\ c.2 <> id) (connections (links st)) /\
    (forall c, c ∈ connections (links st') -> c.1 <> id /\ c.2 <> id).
Proof.
intros Hwf Hsync. unfold history_wf, in_sync in *.
unfold handleUndo, handleDeleteBubble. simpl.
rewrite bool_decide_eq_true_2 by lia.
rewrite Nat.add_sub.
rewrite lookup_app_l by (rewrite length_take; lia).
rewrite lookup_take_lt by lia. rewrite Hsync.
eexists. split; [reflexivity|]. simpl.
split; [done|]. split; [done|]. split; [done|].
intros c Hc. by apply list_elem_of_filter in Hc as [Hc _].
Qed.

End Session.

(** ** What a retranslation pass can change *)

Section RetranslateFrame.

Variable generate : list ChainItem -> GenerateOutcome.

Implicit Types (bs updated : list TextBubble) (t : Translation).





End RetranslateFrame.

(** ** The draw gesture from pointer-down to pointer-up *)

Section DrawGesture.

Implicit Types (st : EditorState).

Lemma handleMouseDown_draw rect e st :
  tool st = draw ->
  button e <> 1 ->
  isSpacePressed (view st) = false ->
  truthy (editingId (edit st)) = false ->
  handleMouseDown rect e st
  = setDrawSelection (Some (getRelativeCoords rect e, getRelativeCoords rect e)) st.
Proof.
intros Htool Hbtn Hspace Hedit. unfold handleMouseDown.
rewrite Htool, Hspace, Hedit.
rewrite (bool_decide_eq_false_2 (button e = 1)) by done.
rewrite andb_false_r. reflexivity.
Qed.

Lemma handleMouseMove_draw rect e st start current :
  isPanning (view st) = false ->
  truthy (resizingId (gesture st)) = false ->
  truthy (draggingId (gesture st)) = false ->
  drawSelection (gesture st) = Some (start, current) ->
  handleMouseMove rect e st
  = setDrawSelection (Some (start, getRelativeCoords rect e)) st.
Proof.
intros Hpan Hres Hdrag Hsel. unfold handleMouseMove.
rewrite Hpan, Hres, Hdrag, Hsel. simpl.
by destruct (dragOffset (gesture st)).
Qed.

Lemma moveFrames_draw frames st start current :
  isPanning (view st) = false ->
  truthy (resizingId (gesture st)) = false ->
  truthy (draggingId (gesture st)) = false ->
  drawSelection (gesture st) = Some (start, current) ->
  moveFrames frames st
  = match last frames with
    | Some f => setDrawSelection (Some (start, getRelativeCoords f.1 f.2)) st
    | None => st
    end.
Proof.
revert st current. induction frames as [|f frames IH];
  intros st current Hpan Hres Hdrag Hsel; [done|].
simpl. rewrite (handleMouseMove_draw f.1 f.2 st start current) by done.
rewrite (IH _ (getRelativeCoords f.1 f.2)) by done.
destruct frames as [|f' frames]; [done|].
rewrite last_cons_cons.
destruct (last (f' :: frames)) as [l|] eqn:Hl; [reflexivity|].
by apply last_None in Hl.
Qed.

(** X20: with the draw tool, a pointer-down, any pointer-move frames and a
    pointer-up over a loaded image append one placeholder whose box spans
    the first and the last pointer position, wherever the pointer went in
    between and whether or not the pointer-down was on an existing bubble,
    provided the two positions differ by at least 1% of the canvas in both
    directions; a pointer-down followed directly by a pointer-up inserts
    nothing.  The history is not touched in either case.  Positions are
    taken as exact reals: at a span of exactly 1% the doubles of the program
    decide by their rounding, and can discard the rectangle
    ([threshold_rounds]). *)
Theorem draw_gesture_spans_end_points
    (rect rectN : option DOMRect) (e0 eN : MouseEvent)
    (frames : list (option DOMRect * MouseEvent)) (now : string)
    (st : EditorState) :
  tool st = draw ->
  button e0 <> 1 ->
  isSpacePressed (view st) = false ->
  truthy (editingId (edit st)) = false ->
  isPanning (view st) = false ->
  truthy (resizingId (gesture st)) = false ->
  truthy (draggingId (gesture st)) = false ->
  let c0 := getRelativeCoords rect e0 in
  let cN := getRelativeCoords rectN eN in
  let st1 := handleMouseDown rect e0 st in
  let st3 := handleMouseUp true now (moveFrames (frames ++ [(rectN, eN)]) st1) in
  let st3' := handleMouseUp true now st1 in
  ((0.01 <= Rabs (pt_x cN - pt_x c0))%R -> (0.01 <= Rabs (pt_y cN - pt_y c0))%R ->
   bubbles st3 = bubbles st ++ [tempBubbleOf now (drawShape st) c0 cN] /\
   boxInvariant (drawnBox c0 cN)) /\
  (history st3 = history st /\ historyIndex st3 = historyIndex st /\
   drawSelection (gesture st3) = None) /\
  (bubbles st3' = bubbles st /\ history st3' = history st /\
   historyIndex st3' = historyIndex st /\ drawSelection (gesture st3') = None).
Proof.
intros Htool Hbtn Hspace Hedit Hpan Hres Hdrag c0 cN st1 st3 st3'.
assert (Hst1 : st1 = setDrawSelection (Some (c0, c0)) st)
  by (by apply handleMouseDown_draw).
assert (Hst2 : moveFrames (frames ++ [(rectN, eN)]) st1
               = setDrawSelection (Some (c0, cN)) st).
{ rewrite (moveFrames_draw _ st1 c0 c0) by (by rewrite Hst1).
  rewrite last_snoc. by rewrite Hst1. }
subst st3 st3'. rewrite Hst2. clear Hst2. rewrite Hst1.
rewrite (handleMouseUp_draw now _ c0 cN) by done.
rewrite (handleMouseUp_draw now _ c0 c0) by done.
rewrite !span_abs. split; [|split].
- intros Hx Hy. rewrite !bool_decide_eq_false_2 by lra. simpl.
  split; [done|].
  assert (Hux : inUnitSquare c0) by apply getRelativeCoords_inUnitSquare.
  assert (Huy : inUnitSquare cN) by apply getRelativeCoords_inUnitSquare.
  destruct Hux as [Hsx Hsy], Huy as [Hcx Hcy].
  assert (Hwx := span_abs (pt_x c0) (pt_x cN)).
  assert (Hwy := span_abs (pt_y c0) (pt_y cN)).
  unfold boxInvariant, boxOrdered, boxInRange, drawnBox; simpl.
  assert (Hbx : (0 <= Rmin (pt_x c0) (pt_x cN)
                 /\ Rmax (pt_x c0) (pt_x cN) <= 1)%R) by (split; solve_minmax).
  assert (Hby : (0 <= Rmin (pt_y c0) (pt_y cN)
                 /\ Rmax (pt_y c0) (pt_y cN) <= 1)%R) by (split; solve_minmax).
  lra.
- by destruct (_ || _).
- rewrite Rminus_diag, Rabs_R0.
  rewrite (bool_decide_eq_true_2 (0 < 0.01)%R) by lra. done.
Qed.

(** X21: leaving the editor area ends a pan and discards a rectangle being
    drawn, but does not end a drag gesture: the gesture is still active
    afterwards, nothing is committed, and the next pointer-move frame moves
    the dragged bubble as if the pointer had never left. *)
Theorem mouse_leave_keeps_drag
    (rect : option DOMRect) (e : MouseEvent) (st : EditorState) :
  dragActive st ->
  let st' := handleMouseLeave st in
  dragActive st' /\
  isPanning (view st') = false /\ drawSelection (gesture st') = None /\
  history st' = history st /\ historyIndex st' = historyIndex st /\
  bubbles st' = bubbles st /\
  bubbles (handleMouseMove rect e st') = bubbles (handleMouseMove rect e st).
Proof.
intros Hact st'. subst st'.
destruct (Hact) as (Hpan & Hres & Hdrag & [off Hoff]).
assert (Hact' : dragActive (handleMouseLeave st)).
{ unfold dragActive, handleMouseLeave; simpl. rewrite Hoff. eauto. }
split; [done|]. do 5 (split; [done|]).
rewrite (handleMouseMove_drag rect e _ off Hact') by done.
by rewrite (handleMouseMove_drag rect e st off Hact Hoff).
Qed.

End DrawGesture.

(** ** Text layout of the exported image *)

Section WordWrap.

Variable measureText : string -> R.
Variable maxWidth : R.

Lemma append_cons x (a b : string) : String x a +:+ b = String x (a +:+ b).
Proof. reflexivity. Qed.

Lemma append_empty_l (b : string) : "" +:+ b = b.
Proof. reflexivity. Qed.

Lemma append_assoc (a b c : string) : (a +:+ b) +:+ c = a +:+ (b +:+ c).
Proof.
induction a as [|x a IH]; [done|]. by rewrite !append_cons, IH.
Qed.

Lemma append_empty_r (a : string) : a +:+ "" = a.
Proof.
induction a as [|x a IH]; [done|]. by rewrite append_cons, IH.
Qed.

Lemma joinLines_cons x (l : list string) : joinLines (x :: l) = x +:+ joinLines l.
Proof. reflexivity. Qed.

Lemma joinLines_app (l k : list string) :
  joinLines (l ++ k) = joinLines l +:+ joinLines k.
Proof.
induction l as [|x l IH]; [done|].
rewrite <- app_comm_cons, !joinLines_cons, IH. by rewrite append_assoc.
Qed.

Lemma lineOf_snoc (g : list string) w : lineOf (g ++ [w]) = (lineOf g +:+ w) +:+ " ".
Proof. unfold lineOf. by rewrite foldl_snoc. Qed.

Lemma lineOf_words (g : list string) :
  lineOf g = joinLines (map (fun w => w +:+ " ") g).
Proof.
induction g as [|w g IH] using rev_ind; [done|].
rewrite lineOf_snoc, map_app, joinLines_app, IH.
cbn [map]. rewrite joinLines_cons. change (joinLines []) with "".
by rewrite append_empty_r, append_assoc.
Qed.

Lemma splitSpaces_nonempty (s : string) : splitSpaces s <> [].
Proof.
induction s as [|c s IH]; [done|]. simpl.
destruct (Ascii.eqb c Ascii.Space); [done|]. by destruct (splitSpaces s).
Qed.

(** The words, each followed by a space, spell the text followed by a
    space. *)
Lemma splitSpaces_spells (s : string) :
  joinLines (map (fun w => w +:+ " ") (splitSpaces s)) = s +:+ " ".
Proof.
induction s as [|c s IH]; [done|]. cbn [splitSpaces].
destruct (Ascii.eqb_spec c Ascii.Space) as [->|Hc].
- cbn [map]. by rewrite joinLines_cons, IH.
- pose proof (splitSpaces_nonempty s) as Hne.
  destruct (splitSpaces s) as [|w ws]; [done|].
  cbn [map] in *. rewrite joinLines_cons in *.
  by rewrite !append_cons, <- IH.
Qed.

(** No word contains a space. *)
Lemma splitSpaces_no_space (s : string) :
  Forall (fun w => forall k, String.get k w <> Some Ascii.Space) (splitSpaces s).
Proof.
induction s as [|c s IH]; simpl.
- constructor; [|constructor]. by intros k.
- destruct (Ascii.eqb_spec c Ascii.Space) as [->|Hc].
  + constructor; [by intros k|done].
  + pose proof (splitSpaces_nonempty s) as Hne.
    destruct (splitSpaces s) as [|w ws]; [done|].
    apply Forall_cons in IH as [Hw Hws]. constructor; [|done].
    intros [|k]; simpl; [congruence|apply Hw].
Qed.

(** What the loop keeps true: the pushed lines and the open line are groups
    of consecutive words, no pushed group is empty, and a group of two or
    more words fits. *)
Lemma wrapLoop_groups n (words : list string) (g : list string)
    (gs : list (list string)) :
  (n = 0 -> g = [] /\ gs = []) -> (0 < n -> g <> []) ->
  Forall (fun g' => g' <> [] /\
                    (length g' = 1 \/ (measureText (lineOf g') <= maxWidth)%R)) gs ->
  (length g <= 1 \/ (measureText (lineOf g) <= maxWidth)%R) ->
  exists g1 gs1,
    wrapLoop measureText maxWidth n words (lineOf g) (map lineOf gs)
    = (lineOf g1, map lineOf gs1) /\
    concat (gs1 ++ [g1]) = concat (gs ++ [g]) ++ words /\
    (words <> [] \/ 0 < n -> g1 <> []) /\
    Forall (fun g' => g' <> [] /\
                      (length g' = 1 \/ (measureText (lineOf g') <= maxWidth)%R)) gs1 /\
    (length g1 <= 1 \/ (measureText (lineOf g1) <= maxWidth)%R).
Proof.
revert n g gs. induction words as [|w words IH]; intros n g gs Hzero Hpos Hgs Hg.
- exists g, gs. simpl. rewrite app_nil_r. split; [done|]. split; [done|].
  split; [|done]. intros [?|?]; [done|by apply Hpos].
- cbn [wrapLoop]. rewrite <- lineOf_snoc.
  destruct (bool_decide (measureText (lineOf (g ++ [w])) > maxWidth)%R
            && bool_decide (0 < n)) eqn:Hcond.
  + apply andb_true_iff in Hcond as [_ Hn]. apply bool_decide_eq_true in Hn.
    change (w +:+ " ") with (lineOf [w]).
    replace (map lineOf gs ++ [lineOf g]) with (map lineOf (gs ++ [g]))
      by (by rewrite map_app).
    destruct (IH (S n) [w] (gs ++ [g])) as (g1 & gs1 & Hrun & Hcat & Hne & Hall & Hfit).
    { lia. }
    { done. }
    { apply Forall_app. split; [done|]. apply Forall_singleton.
      split; [by apply Hpos|].
      destruct Hg as [Hlen|Hfit]; [|by right]. left.
      assert (g <> []) by (by apply Hpos). destruct g; [done|simpl in *; lia]. }
    { by left. }
    exists g1, gs1. split; [done|]. split.
    { rewrite Hcat. rewrite !concat_app. simpl. rewrite !app_nil_r.
      by rewrite <- !app_assoc. }
    split; [intros _; apply Hne; right; lia|done].
  + destruct (IH (S n) (g ++ [w]) gs) as (g1 & gs1 & Hrun & Hcat & Hne & Hall & Hfit).
    { lia. }
    { intros _. by destruct g. }
    { done. }
    { apply andb_false_iff in Hcond as [Hm|Hn].
      - right. apply bool_decide_eq_false in Hm. lra.
      - left. apply bool_decide_eq_false in Hn.
        destruct (Hzero ltac:(lia)) as [-> _]. simpl. lia. }
    exists g1, gs1. split; [done|]. split.
    { rewrite Hcat. rewrite !concat_app. simpl. rewrite !app_nil_r.
      by rewrite <- !app_assoc. }
    split; [intros _; apply Hne; right; lia|done].
Qed.

(** X22: the word wrap of the export puts every word of the text on a line,
    in order and whole: the lines are groups of consecutive words (the
    pieces of the text between its spaces), each word followed by one space,
    no line is empty, the lines read one after the other spell the text
    followed by one space, and every line of two or more words is at most
    [maxWidth] wide; only a line of a single word can be wider. *)
Theorem wrap_keeps_every_word (txt : string) :
  exists groups : list (list string),
    wrapLines measureText maxWidth txt = map lineOf groups /\
    concat groups = splitSpaces txt /\
    Forall (fun g => g <> [] /\
                     (length g = 1 \/ (measureText (lineOf g) <= maxWidth)%R)) groups /\
    Forall (fun w => forall k, String.get k w <> Some Ascii.Space) (concat groups) /\
    joinLines (wrapLines measureText maxWidth txt) = txt +:+ " ".
Proof.
destruct (wrapLoop_groups 0 (splitSpaces txt) [] [])
  as (g1 & gs1 & Hrun & Hcat & Hne & Hall & Hfit);
  [done|lia|constructor|left; simpl; lia|].
assert (Hg1 : g1 <> []) by (apply Hne; left; apply splitSpaces_nonempty).
assert (Hlines : wrapLines measureText maxWidth txt = map lineOf (gs1 ++ [g1])).
{ unfold wrapLines. change (lineOf []) with "" in Hrun.
  change (map lineOf []) with (@nil string) in Hrun.
  rewrite Hrun. simpl. by rewrite map_app. }
simpl in Hcat.
exists (gs1 ++ [g1]). split; [done|]. split; [done|]. split; [|split].
- apply Forall_app. split; [done|]. apply Forall_singleton. split; [done|].
  destruct Hfit as [Hlen|Hfit]; [|by right]. left.
  destruct g1; [done|simpl in *; lia].
- rewrite Hcat. apply splitSpaces_no_space.
- rewrite Hlines, <- splitSpaces_spells, <- Hcat.
  generalize (gs1 ++ [g1]). intros gs.
  induction gs as [|g gs IH]; [done|].
  cbn [concat map]. rewrite map_app, joinLines_app, <- IH, <- lineOf_words.
  by rewrite joinLines_cons.
Qed.

End WordWrap.

Section ExportPlacement.

Variables (naturalWidth naturalHeight : R).


End ExportPlacement.

(** ** Scanning the whole image *)

Section Scan.

Lemma noDash_empty : noDash "".
Proof. by intros k. Qed.

Lemma noDash_cons c (s : string) :
  Some c <> String.get 0 "-" -> noDash s -> noDash (String c s).
Proof. intros Hc Hs [|k]; [exact Hc|apply Hs]. Qed.

Lemma pretty_N_char_noDash (x : N) : Some (pretty_N_char x) <> String.get 0 "-".
Proof. unfold pretty_N_char. by repeat case_match. Qed.

Lemma pretty_N_go_noDash (x : N) (s : string) : noDash s -> noDash (pretty_N_go x s).
Proof.
revert s. induction (N.lt_wf_0 x) as [x _ IH]; intros s Hs.
destruct (decide (0 < x)%N) as [Hpos|Hzero].
- rewrite pretty_N_go_step by done. apply IH; [by apply N.div_lt|].
  apply noDash_cons; [apply pretty_N_char_noDash|done].
- assert (x = 0%N) as -> by lia. by rewrite pretty_N_go_0.
Qed.

Lemma pretty_nat_noDash (n : nat) : noDash (pretty n).
Proof.
unfold pretty, pretty_nat, pretty, pretty_N. case_decide.
- apply noDash_cons; [done|apply noDash_empty].
- apply pretty_N_go_noDash, noDash_empty.
Qed.

(** Two strings without a dash that are followed by a dash are equal when
    what they start is. *)
Lemma dash_delimits (a a' r r' : string) :
  noDash a -> noDash a' ->
  a +:+ "-" +:+ r = a' +:+ "-" +:+ r' -> a = a'.
Proof.
revert a'. induction a as [|c a IH]; intros [|c' a'] Ha Ha' Heq.
- done.
- exfalso. injection Heq as Hc _. apply (Ha' 0). simpl. by rewrite <- Hc.
- exfalso. injection Heq as Hc _. apply (Ha 0). simpl. by rewrite Hc.
- injection Heq as -> Heq. f_equal. apply IH; [|by intros k; apply (Ha' (S k))|done].
  intros k. apply (Ha (S k)).
Qed.

Lemma autoId_inj (i j : nat) (t u : N) : autoId i t = autoId j u -> i = j.
Proof.
unfold autoId. intros Heq.
assert (Hcut : pretty i +:+ "-" +:+ pretty t = pretty j +:+ "-" +:+ pretty u).
{ by repeat injection Heq as Heq. }
apply dash_delimits in Hcut; [|apply pretty_nat_noDash..].
by apply (inj pretty).
Qed.

(** X24: the bubbles of one detection answer get pairwise distinct ids,
    whatever the clock gives while they are mapped.  A scan during which no
    other event arrives appends them, in the answer's order and with the
    rectangle shape, scale 1 and the default font, after the bubbles already
    in the store, which stay as they are, commits once and selects the
    select tool; an answer without a bubble list commits the unchanged store
    all the same; a failed scan changes nothing but the busy flag; without
    an image file nothing happens. *)
Theorem scan_appends_distinct_bubbles
    (now : nat -> N) (o : DetectOutcome) (st : EditorState) :
  let st' := handleAutoScan true (autoDetectAndTranslate now o) st in
  (forall found, autoDetectAndTranslate now o = Some found ->
     NoDup (map bubble_id found) /\
     bubbles st' = bubbles st ++ map processDetected found /\
     Forall (fun b => shape b = Some rectangle /\ fontSizeScale b = Some 1%R /\
                      fontFamily b = Some "Comic Neue" /\ isManual b = Some false)
            (map processDetected found) /\
     (forall items, o = DetectParsed (Some items) ->
        map text found = map det_translated_text items) /\
     (o = DetectParsed None -> bubbles st' = bubbles st) /\
     history st' = take (historyIndex st + 1) (history st) ++ [bubbles st'] /\
     historyIndex st' = historyIndex st + 1 /\
     tool st' = select /\ isProcessing st' = false) /\
  (o = DetectThrows -> st' = setIsProcessing false st) /\
  handleAutoScan false (autoDetectAndTranslate now o) st = st.
Proof.
intros st'. subst st'. split; [|split; [by intros ->|done]].
intros found Hfound. unfold handleAutoScan. rewrite Hfound. simpl.
destruct o as [|[items|]]; simpl in Hfound; [done| |].
- injection Hfound as <-. split; [|split; [done|split; [|split; [|split]]]].
  + apply NoDup_alt. intros i j x Hi Hj.
    change (map bubble_id ?l) with (bubble_id <$> l) in Hi, Hj.
    rewrite list_lookup_fmap, list_lookup_imap in Hi, Hj.
    destruct (items !! i) as [bi|]; [|done].
    destruct (items !! j) as [bj|]; [|done].
    cbn [fmap option_fmap option_map bubble_id] in Hi, Hj.
    assert (Heq : autoId i (now i) = autoId j (now j)) by congruence.
    by apply autoId_inj in Heq.
  + apply Forall_forall. intros b Hb.
    change (map processDetected ?l) with (processDetected <$> l) in Hb.
    apply list_elem_of_fmap in Hb as (b0 & -> & Hb0).
    apply elem_of_lookup_imap in Hb0 as (i & d & -> & _). done.
  + intros items' [= <-]. apply list_eq. intros i.
    change (map ?f ?l) with (f <$> l).
    rewrite !list_lookup_fmap, list_lookup_imap. by destruct (items !! i).
  + done.
  + done.
- injection Hfound as <-. split; [constructor|]. split; [done|].
  split; [constructor|]. split; [done|]. split; [|done].
  intros _. simpl. by rewrite app_nil_r.
Qed.

End Scan.

(** ** Undo and redo over an uncommitted preview *)

Section PreviewUndo.

Lemma fifth_to_half : (0.01 <= Rabs (500 / 1000 - 100 / 1000))%R.
Proof. rewrite Rabs_right; lra. Qed.

Lemma demoDrawn_state :
  demoDrawn
  = setDrawSelection None
      (setBubbles
         [demoBubble;
          tempBubbleOf "1700000000000" rectangle
            {| pt_x := 100 / 1000; pt_y := 100 / 1000 |}
            {| pt_x := 500 / 1000; pt_y := 500 / 1000 |}]
         (setTool draw demoState)).
Proof.
unfold demoDrawn.
rewrite handleMouseDown_draw by done.
cbn [moveFrames foldl fst snd].
rewrite (handleMouseMove_draw _ _ _ (getRelativeCoords demoRect (mouseAt 100 100))
           (getRelativeCoords demoRect (mouseAt 100 100))) by done.
rewrite !demo_coords by lra.
rewrite (handleMouseUp_draw _ _ {| pt_x := 100 / 1000; pt_y := 100 / 1000 |}
           {| pt_x := 500 / 1000; pt_y := 500 / 1000 |}) by done.
cbn [pt_x pt_y]. rewrite !span_abs.
rewrite !bool_decide_eq_false_2 by (pose proof fifth_to_half; lra).
reflexivity.
Qed.

(** C3, as stated, fails: one bubble committed, then a rectangle drawn, whose
    placeholder is in the store and in no snapshot.  The index is 1; undo
    followed by redo gives back the index and the snapshot stored there,
    which has one bubble, and not the collection of two bubbles that was
    current before the undo. *)
Lemma undo_redo_drops_preview :
  historyIndex demoDrawn = 1 /\
  length (bubbles demoDrawn) = 2 /\
  exists st1,
    handleUndo demoDrawn = Some st1 /\
    historyIndex (handleRedo st1) = historyIndex demoDrawn /\
    bubbles (handleRedo st1) = [demoBubble] /\
    bubbles (handleRedo st1) <> bubbles demoDrawn.
Proof.
rewrite demoDrawn_state. split; [reflexivity|]. split; [reflexivity|].
eexists. split; [reflexivity|]. split; [reflexivity|]. split; [reflexivity|].
intros Heq. apply (f_equal length) in Heq. discriminate.
Qed.

(** In a state that the commit of a region's answer left with the index
    past the end of the history (three entries cut to two while the index
    went from 2 to 3), undo throws. *)
Example undo_past_the_end_throws :
  let st := regionResolved 0 demoBubble (translateRegion RegionThrows)
              (commits [[demoBubble]; [demoBubble]] initialState) in
  length (history st) = 2 /\ historyIndex st = 3 /\ handleUndo st = None.
Proof. repeat split. Qed.

End PreviewUndo.

(** ** Rounding in the pointer arithmetic *)

Section Rounding.

Import PrimFloat.

(** C10, as stated, fails: the box (100, 100)-(300, 300), 200 units wide,
    on a canvas of 1000 pixels, grabbed with the pointer at (110, 110) and
    moved by one frame to (152, 152).  The grab offset is
    0.009999999999999995, the new xmin is 142.00000000000003, the new xmax
    is that plus 200, rounded to 342, and the width of the new box is
    199.99999999999997. *)
Lemma drag_rounds_width :
  let off := Doubles.grabOffset
               (Doubles.getRelativeCoords Doubles.demoRect 110 110) Doubles.demoBox in
  let b' := Doubles.dragBox off
              (Doubles.getRelativeCoords Doubles.demoRect 152 152) Doubles.demoBox in
  (Doubles.xmax Doubles.demoBox - Doubles.xmin Doubles.demoBox =? 200)%float = true /\
  (Doubles.xmin b' =? 142.00000000000003)%float = true /\
  (Doubles.xmax b' =? 342)%float = true /\
  (Doubles.xmax b' - Doubles.xmin b' =? 199.99999999999997)%float = true /\
  (Doubles.xmax b' - Doubles.xmin b' =? 200)%float = false /\
  (Doubles.ymax b' - Doubles.ymin b' =? 200)%float = false.
Proof. repeat split. Qed.

(** At a span of exactly 1% the size test of [handleMouseUp] depends on the
    rounding: from (100, 100) to (110, 500) on a canvas of 1000 pixels the
    quotients are 0.1 and 0.11, their difference in doubles is
    0.009999999999999995, and the rectangle is discarded. *)
Example threshold_rounds :
  Doubles.belowThreshold
    (Doubles.getRelativeCoords Doubles.demoRect 100 100)
    (Doubles.getRelativeCoords Doubles.demoRect 110 500) = true /\
  (Doubles.pt_x (Doubles.getRelativeCoords Doubles.demoRect 110 500)
   - Doubles.pt_x (Doubles.getRelativeCoords Doubles.demoRect 100 100)
   =? 0.009999999999999995)%float = true.
Proof. repeat split. Qed.

End Rounding.

(** ** The theorems on the concrete sessions *)

Section Instances.

Lemma demo_find :
  List.find (hitTest (getRelativeCoords demoRect (mouseAt 50 50)))
    (reverse (bubbles demoState)) = Some demoBubble.
Proof.
rewrite demo_coords by lra. simpl. unfold hitTest; simpl.
rewrite !bool_decide_eq_true_2 by lra. reflexivity.
Qed.

Lemma demoLinked_wf : history_wf demoLinked.
Proof. unfold history_wf; simpl; lia. Qed.

Lemma demoState_wf : history_wf demoState.
Proof. unfold history_wf; simpl; lia. Qed.

Lemma delete_keeps_active_node_witness :
  activeTreeNode (links (setActiveTreeNode (Some "a") demoLinked)) = Some "a" /\
  "a" <> "c" /\
  connectionExists "a" "c"
    (connections (links (setActiveTreeNode (Some "a") demoLinked))) = false /\
  ("a", "c") ∈ connections
    (links (handleBubbleConnect "c"
              (setTool tree
                 (handleDeleteBubble "a" (setActiveTreeNode (Some "a") demoLinked))))).
Proof.
assert (H1 : activeTreeNode (links (setActiveTreeNode (Some "a") demoLinked))
             = Some "a") by reflexivity.
assert (H2 : "a" <> "c") by discriminate.
assert (H3 : connectionExists "a" "c"
               (connections (links (setActiveTreeNode (Some "a") demoLinked))) = false)
  by reflexivity.
split; [exact H1|]. split; [exact H2|]. split; [exact H3|].
exact (proj2 (proj2 (delete_keeps_active_node "a" "c" _ H1 H2 H3))).
Defined.

Lemma shape_toggle_round_trip_witness :
  NoDup (map bubble_id (bubbles demoState)) /\
  bubbles demoState !! 0 = Some demoBubble /\
  is_Some (shape demoBubble) /\
  bubbles (updateBubbleShape "auto-0-1" rectangle
             (updateBubbleShape "auto-0-1" ellipse demoState))
  = bubbles demoState.
Proof.
assert (H1 : NoDup (map bubble_id (bubbles demoState))) by apply NoDup_singleton.
assert (H2 : bubbles demoState !! 0 = Some demoBubble) by reflexivity.
assert (H3 : is_Some (shape demoBubble)) by (by eexists).
split; [exact H1|]. split; [exact H2|]. split; [exact H3|].
exact (proj1 (proj2 (shape_toggle_round_trip demoState 0 demoBubble H1 H2 H3))).
Defined.

Lemma pan_gesture_moves_only_viewport_witness :
  panTriggered (mouseAt 10 10) (setTool pan demoState) /\
  bubbles (handleMouseUp true "1700000000000"
             (moveFrames [(demoRect, mouseAt 30 40)]
                (handleMouseDown demoRect (mouseAt 10 10) (setTool pan demoState))))
  = bubbles (setTool pan demoState).
Proof.
assert (H1 : panTriggered (mouseAt 10 10) (setTool pan demoState)) by (by left).
split; [exact H1|].
exact (proj1 (pan_gesture_moves_only_viewport demoRect (mouseAt 10 10)
                [(demoRect, mouseAt 30 40)] true "1700000000000" _ H1)).
Defined.

Lemma saveEdit_commits_iff_changed_witness :
  editingId (edit (startEditing demoBubble demoState)) = Some "auto-0-1" /\
  "auto-0-1" <> "" /\
  findBubble "auto-0-1" (bubbles (startEditing demoBubble demoState)) = Some demoBubble /\
  editingId (edit (saveEdit (startEditing demoBubble demoState))) = None.
Proof.
assert (H1 : editingId (edit (startEditing demoBubble demoState)) = Some "auto-0-1")
  by reflexivity.
assert (H2 : "auto-0-1" <> "") by discriminate.
assert (H3 : findBubble "auto-0-1" (bubbles (startEditing demoBubble demoState))
             = Some demoBubble) by reflexivity.
split; [exact H1|]. split; [exact H2|]. split; [exact H3|].
exact (proj1 (saveEdit_commits_iff_changed _ "auto-0-1" demoBubble H1 H2 H3)).
Defined.

Lemma edit_without_input_witness :
  findBubble (bubble_id demoBubble) (bubbles demoState) = Some demoBubble /\
  bubble_id demoBubble <> "" /\
  bubbles (saveEdit (startEditing demoBubble demoState)) = bubbles demoState.
Proof.
assert (H1 : findBubble (bubble_id demoBubble) (bubbles demoState) = Some demoBubble)
  by reflexivity.
assert (H2 : bubble_id demoBubble <> "") by discriminate.
split; [exact H1|]. split; [exact H2|].
exact (proj1 (proj1 (edit_without_input demoState demoBubble H1 H2)
                eq_refl eq_refl eq_refl)).
Defined.

Lemma tenth_to_half : (0.01 <= Rabs (0.5 - 0.1))%R.
Proof. rewrite Rabs_right; lra. Qed.


Lemma region_failure_restores_store_witness :
  (0.01 <= Rabs (0.5 - 0.1))%R /\
  Forall (fun b => bubble_id b <> "1700000000000") (bubbles initialState) /\
  regionFailed "1700000000000"
    (handleMouseUp true "1700000000000"
       (setDrawSelection (Some ({| pt_x := 0.1; pt_y := 0.1 |},
                                {| pt_x := 0.5; pt_y := 0.5 |}))
          initialState))
  = setDrawSelection None
      (setDrawSelection (Some ({| pt_x := 0.1; pt_y := 0.1 |},
                               {| pt_x := 0.5; pt_y := 0.5 |}))
         initialState).
Proof.
assert (H1 : Forall (fun b => bubble_id b <> "1700000000000") (bubbles initialState))
  by constructor.
split; [exact tenth_to_half|]. split; [exact H1|].
exact (proj1 (region_failure_restores_store "1700000000000"
                (setDrawSelection (Some ({| pt_x := 0.1; pt_y := 0.1 |},
                                         {| pt_x := 0.5; pt_y := 0.5 |}))
                   initialState)
                _ _ eq_refl eq_refl eq_refl eq_refl tenth_to_half tenth_to_half H1)).
Defined.

Lemma region_answer_commits_in_place_witness :
  history_wf demoState /\
  historyIndex (regionResolved (historyIndex demoState) demoBubble
                  (translateRegion RegionThrows) demoState)
  = historyIndex demoState + 1.
Proof.
split; [exact demoState_wf|].
exact (proj1 (proj2 (proj1 (region_answer_commits_in_place RegionThrows demoBubble
                              demoState demoState_wf)))).
Defined.

Lemma region_answer_after_commit_overruns_witness :
  history_wf demoState /\ 0 < historyIndex demoState /\
  ~ history_wf (regionResolved 0 demoBubble (translateRegion RegionThrows) demoState).
Proof.
assert (H2 : 0 < historyIndex demoState) by (simpl; lia).
split; [exact demoState_wf|]. split; [exact H2|].
exact (proj2 (proj2 (proj2 (region_answer_after_commit_overruns 0 demoBubble
                              (translateRegion RegionThrows) demoState
                              demoState_wf H2)))).
Defined.


Lemma drag_follows_pointer_witness :
  tool demoState = select /\ button (mouseAt 50 50) <> 1 /\
  List.find (hitTest (getRelativeCoords demoRect (mouseAt 50 50)))
    (reverse (bubbles demoState)) = Some demoBubble /\
  bubble_id demoBubble <> "" /\
  exists b',
    bubbles (moveFrames ([] ++ [(demoRect, mouseAt 60 70)])
               (handleMouseDown demoRect (mouseAt 50 50) demoState)) !! 0 = Some b' /\
    b' = setBox (box b') demoBubble.
Proof.
assert (H1 : button (mouseAt 50 50) <> 1) by discriminate.
assert (H2 : bubble_id demoBubble <> "") by discriminate.
split; [reflexivity|]. split; [exact H1|]. split; [exact demo_find|].
split; [exact H2|].
destruct (drag_follows_pointer demoRect demoRect (mouseAt 50 50) (mouseAt 60 70) []
            demoState demoBubble eq_refl H1 eq_refl eq_refl eq_refl demo_find
            eq_refl eq_refl H2 0 demoBubble eq_refl) as (b' & Hb' & Hset & _).
exists b'. split; [exact Hb'|exact Hset].
Defined.


Lemma undo_all_shows_empty_store_witness :
  runEditor [EvShape "a" ellipse] initialState
  = Some (updateBubbleShape "a" ellipse initialState) /\
  0 < historyIndex (updateBubbleShape "a" ellipse initialState) /\
  exists st',
    undos (historyIndex (updateBubbleShape "a" ellipse initialState))
      (updateBubbleShape "a" ellipse initialState) = Some st' /\
    bubbles st' = [].
Proof.
assert (H1 : runEditor [EvShape "a" ellipse] initialState
             = Some (updateBubbleShape "a" ellipse initialState)) by reflexivity.
assert (H2 : 0 < historyIndex (updateBubbleShape "a" ellipse initialState))
  by (simpl; lia).
split; [exact H1|]. split; [exact H2|].
destruct (undo_all_shows_empty_store [EvShape "a" ellipse] _ H1 H2)
  as (st' & Hu & Hb & _).
exists st'. split; [exact Hu|exact Hb].
Defined.

Lemma undo_of_delete_keeps_links_removed_witness :
  history_wf demoLinked /\ in_sync demoLinked /\
  exists st',
    handleUndo (handleDeleteBubble "a" demoLinked) = Some st' /\
    bubbles st' = bubbles demoLinked.
Proof.
assert (H2 : in_sync demoLinked) by reflexivity.
split; [exact demoLinked_wf|]. split; [exact H2|].
destruct (undo_of_delete_keeps_links_removed "a" demoLinked demoLinked_wf H2)
  as (st' & Hu & Hb & _).
exists st'. split; [exact Hu|exact Hb].
Defined.


Lemma draw_gesture_spans_end_points_witness :
  tool initialState = draw /\ button (mouseAt 100 100) <> 1 /\
  bubbles (handleMouseUp true "1700000000000"
             (handleMouseDown demoRect (mouseAt 100 100) initialState))
  = bubbles initialState.
Proof.
assert (H1 : button (mouseAt 100 100) <> 1) by discriminate.
split; [reflexivity|]. split; [exact H1|].
exact (proj1 (proj2 (proj2 (draw_gesture_spans_end_points demoRect demoRect
                              (mouseAt 100 100) (mouseAt 500 500) [] "1700000000000"
                              initialState eq_refl H1 eq_refl eq_refl eq_refl
                              eq_refl eq_refl)))).
Defined.

Lemma mouse_leave_keeps_drag_witness :
  dragActive demoGrabbed /\ dragActive (handleMouseLeave demoGrabbed).
Proof.
split; [exact demo_dragActive|].
exact (proj1 (mouse_leave_keeps_drag demoRect (mouseAt 60 60) demoGrabbed
                demo_dragActive)).
Defined.


End Instances.

(** ** Link lines and the space bar *)

Section LinkLines.

Lemma findBubble_filtered (id : string) (bs : list TextBubble) :
  findBubble id (filter (fun b => bubble_id b <> id) bs) = None.
Proof.
unfold findBubble. induction bs as [|b bs IH]; [done|].
rewrite filter_cons. case_decide as Hb; [|done].
simpl. by rewrite bool_decide_eq_false_2.
Qed.

(** X25: a link line ends at the centre of the first bubble with the id,
    which lies inside that bubble's box when the box is ordered; and the
    link that a click of the link tool adds after the active node was
    deleted starts at an id without a bubble, so that its line starts at the
    corner (0, 0) of the canvas. *)
Theorem link_line_end_points (id other : string) (st : EditorState) :
  activeTreeNode (links st) = Some id ->
  id <> other ->
  connectionExists id other (connections (links st)) = false ->
  let st2 := handleBubbleConnect other (setTool tree (handleDeleteBubble id st)) in
  ((id, other) ∈ connections (links st2) /\
   getBubbleCenter id (bubbles st2) = {| pt_x := 0; pt_y := 0 |}) /\
  (forall x b, findBubble x (bubbles st) = Some b -> boxOrdered (box b) ->
     let c := getBubbleCenter x (bubbles st) in
     (xmin (box b) / 10 < pt_x c < xmax (box b) / 10)%R /\
     (ymin (box b) / 10 < pt_y c < ymax (box b) / 10)%R).
Proof.
intros Hact Hne Hex st2. subst st2. split.
- assert (Hex' : connectionExists id other
                   (filter (fun c => c.1 <> id /\ c.2 <> id) (connections (links st)))
                 = false).
  { apply not_true_is_false. intros Htrue. unfold connectionExists in *.
    apply existsb_exists in Htrue as (c & Hc & Hf).
    apply not_true_iff_false in Hex. apply Hex, existsb_exists. exists c.
    split; [|done]. apply list_elem_of_In in Hc. apply list_elem_of_In.
    by apply list_elem_of_filter in Hc as [_ Hc]. }
  rewrite (connect_new id other); simpl; try done. split.
  + apply elem_of_app. right. by apply list_elem_of_singleton.
  + unfold getBubbleCenter. by rewrite findBubble_filtered.
- intros x b Hfind [Hx Hy] c. subst c. unfold getBubbleCenter.
  rewrite Hfind. simpl. lra.
Qed.

Lemma link_line_end_points_witness :
  activeTreeNode (links (setActiveTreeNode (Some "a") demoLinked)) = Some "a" /\
  "a" <> "c" /\
  getBubbleCenter "a"
    (bubbles (handleBubbleConnect "c"
                (setTool tree
                   (handleDeleteBubble "a" (setActiveTreeNode (Some "a") demoLinked)))))
  = {| pt_x := 0; pt_y := 0 |}.
Proof.
assert (H1 : activeTreeNode (links (setActiveTreeNode (Some "a") demoLinked))
             = Some "a") by reflexivity.
assert (H2 : "a" <> "c") by discriminate.
split; [exact H1|]. split; [exact H2|].
exact (proj2 (proj1 (link_line_end_points "a" "c" _ H1 H2 eq_refl))).
Defined.

(** X26: outside an editing session, pressing the space bar makes the next
    pointer-down with the left button start a pan whatever the tool is,
    without touching the store, the gesture or the history, and releasing
    it gives back the state before the key press; without the space bar the
    same pointer-down starts no pan; inside an editing session the space bar
    changes nothing. *)
Theorem space_bar_arms_pan
    (k : KeyEvent) (rect : option DOMRect) (m : MouseEvent) (st : EditorState) :
  code k = "Space" ->
  metaKey k || ctrlKey k = false ->
  isRepeat k = false ->
  isSpacePressed (view st) = false ->
  buttons m = 1 -> button m <> 1 -> tool st <> pan ->
  (truthy (editingId (edit st)) = false ->
     exists st1,
       handleKeyDown k st = Some st1 /\
       let st2 := handleMouseDown rect m st1 in
       isPanning (view st2) = true /\
       bubbles st2 = bubbles st /\ gesture st2 = gesture st /\ edit st2 = edit st /\
       history st2 = history st /\ historyIndex st2 = historyIndex st /\
       handleKeyUp k st1 = st) /\
  (truthy (editingId (edit st)) = true -> handleKeyDown k st = Some st) /\
  isPanning (view (handleMouseDown rect m st)) = isPanning (view st).
Proof.
intros Hcode Hmod Hrep Hspace Hbtns Hbtn Htool.
assert (Hdown : forall b : bool,
          truthy (editingId (edit st)) = b ->
          handleKeyDown k st = Some (if b then st else setIsSpacePressed true st)).
{ intros b Hb. unfold handleKeyDown. rewrite Hmod, Hcode, Hb, Hrep. simpl.
  by destruct b. }
split; [|split].
- intros Hedit. eexists. split; [exact (Hdown false Hedit)|]. intros st2. subst st2.
  unfold handleMouseDown. cbn [setIsSpacePressed setView view isSpacePressed tool].
  rewrite (bool_decide_eq_true_2 (buttons m = 1)) by done.
  rewrite orb_true_r. simpl. repeat (split; [done|]).
  unfold handleKeyUp. rewrite Hcode. simpl.
  destruct st as [h i bs p t d v e g l]. destruct v as [sc off pn ps sp].
  simpl in Hspace. by subst sp.
- intros Hedit. by rewrite (Hdown true Hedit).
- unfold handleMouseDown.
  rewrite (bool_decide_eq_false_2 (tool st = pan)) by done.
  rewrite (bool_decide_eq_false_2 (button m = 1)) by done.
  rewrite Hspace, andb_false_r. cbn [orb].
  unfold handleBubbleConnect, saveEdit.
  repeat first [reflexivity
               | match goal with
                 | |- context [if ?c then _ else _] => destruct c
                 | |- context [match ?c with _ => _ end] => destruct c
                 end].
Qed.

Lemma space_bar_arms_pan_witness :
  buttons (mouseAt 10 10) = 1 /\ button (mouseAt 10 10) <> 1 /\ tool demoState <> pan /\
  exists st1,
    handleKeyDown {| metaKey := false; ctrlKey := false; shiftKey := false;
                     key := " "; code := "Space"; isRepeat := false |}
      demoState = Some st1 /\
    isPanning (view (handleMouseDown demoRect (mouseAt 10 10) st1)) = true.
Proof.
assert (H1 : button (mouseAt 10 10) <> 1) by discriminate.
assert (H2 : tool demoState <> pan) by discriminate.
split; [reflexivity|]. split; [exact H1|]. split; [exact H2|].
destruct (proj1 (space_bar_arms_pan
                   {| metaKey := false; ctrlKey := false; shiftKey := false;
                      key := " "; code := "Space"; isRepeat := false |}
                   demoRect (mouseAt 10 10) demoState
                   eq_refl eq_refl eq_refl eq_refl eq_refl H1 H2) eq_refl)
  as (st1 & Hk & Hpan & _).
exists st1. split; [exact Hk|exact Hpan].
Defined.

End LinkLines.
